(** * smoke-mortality: the notebook [smoke_layer.ipynb] in Rocq

    A shallow embedding of the functions of the notebook
    ([fix_lon], [mortality], [sum_within_country]) and of the cells that
    compose them, followed by the theorems that settle what the
    specification says about them.

    Conventions of the embedding.
    - Cell values are IEEE binary64 numbers, Rocq's primitive [float]
      (numpy's float64), with NaN.
    - Coordinates (latitudes, longitudes, polygon vertices) are finite
      binary64 numbers read as the exact rationals they denote, [Q];
      the only arithmetic the notebook performs on them is [lon - 360]
      for [lon > 180], which is exact in binary64 on [180, 720]
      (Sterbenz), and comparisons.
    - Python objects live in a heap; variables and parameters hold
      addresses, so that an assignment through a parameter is seen by
      the caller.
    - A Python exception is a value of [exn]; a computation returns
      [inl e] when it raises [e]. *)

From Stdlib Require Import ZArith QArith Qminmax Floats Lia Lqa Sorted Permutation.
From stdpp Require Import gmap strings list fin_maps.

Open Scope string_scope.

(** ** Exceptions and results *)

Inductive exn : Type :=
| KeyError (msg : string)
| ValueError (msg : string)
| IndexError (msg : string)
| InvalidIndexError (msg : string)
| NameError (name : string)
| FileNotFoundError (path : string)
| TypeError (msg : string)
| Stuck (msg : string).
(** [Stuck] is not a Python exception: it marks a state that no run of the
    notebook reaches (an address without object) or a library behaviour
    outside the two-dimensional raster model (broadcasting to a third
    dimension). No [except] clause catches it. *)

Definition result (A : Type) : Type := (exn + A)%type.

Definition rbind {A B} (m : result A) (k : A → result B) : result B :=
  match m with inl e => inl e | inr a => k a end.

Fixpoint rmapM {A B} (f : A → result B) (l : list A) : result (list B) :=
  match l with
  | [] => inr []
  | a :: l' =>
      rbind (f a) (λ b, rbind (rmapM f l') (λ bs, inr (b :: bs)))
  end.

(** ** Coordinates: exact rationals with decidable comparisons *)

(** [x < y] on coordinates, Python's [<] on finite floats. *)
Definition Qltb (x y : Q) : bool := negb (Qle_bool y x).

(** numpy's [array_equal] / pandas' [Index.equals] on 1-D coordinates. *)
Fixpoint index_equals (a b : list Q) : bool :=
  match a, b with
  | [], [] => true
  | x :: a', y :: b' => Qeq_bool x y && index_equals a' b'
  | _, _ => false
  end.

Definition Qmem (x : Q) (l : list Q) : bool := existsb (Qeq_bool x) l.

(** pandas' [Index.is_unique]. *)
Fixpoint is_unique (l : list Q) : bool :=
  match l with
  | [] => true
  | x :: l' => negb (Qmem x l') && is_unique l'
  end.

(** pandas' [Index.get_loc] on a unique index: position of the label. *)
Fixpoint get_loc (index : list Q) (label : Q) : option nat :=
  match index with
  | [] => None
  | x :: index' =>
      if Qeq_bool x label then Some 0%nat
      else S <$> get_loc index' label
  end.

(** pandas' [Index.get_indexer] followed by xarray's check that every label
    was found: a non-unique index is refused, a missing label is a
    [KeyError]. *)
Definition get_indexer (index labels : list Q) : result (list nat) :=
  if is_unique index then
    rmapM (λ l, match get_loc index l with
                | Some i => inr i
                | None => inl (KeyError "not all values found in index")
                end) labels
  else inl (InvalidIndexError "Reindexing only valid with uniquely valued Index objects").

(** numpy's [take]: the elements at the given positions, in that order.
    The positions handed to it come from [get_loc] on the index, and a
    DataArray's rows and coordinates have the index's length. *)
Definition take_at {A} (l : list A) (pos : list nat) : list A :=
  omap (λ i, l !! i) pos.

(** pandas' [Index.intersection] of two unique indexes: the labels of the
    left one that occur in the right one, in the left one's order. *)
Definition intersection (a b : list Q) : list Q :=
  filter (λ x, Is_true (Qmem x b)) a.

(** xarray's alignment of one dimension under [join="inner"] (the default of
    arithmetic): equal indexes are kept as they are; otherwise every operand
    is reindexed to the intersection, which xarray refuses on an index with
    duplicate values. *)
Definition join_inner (a b : list Q) : result (list Q) :=
  if index_equals a b then inr a
  else if is_unique a && is_unique b then inr (intersection a b)
  else inl (ValueError "cannot reindex or align along dimension: the index has duplicate values").

(** Positions of the joined labels in an operand's own index. *)
Definition reindex_positions (index joined : list Q) : list nat :=
  if index_equals index joined then seq 0 (length index)
  else omap (get_loc index) joined.

(** Python's [sorted] on coordinates: a stable sort by [<]. *)
Fixpoint insert_sorted (x : Q) (l : list Q) : list Q :=
  match l with
  | [] => [x]
  | y :: l' => if Qltb y x then y :: insert_sorted x l' else x :: y :: l'
  end.

Definition sorted (l : list Q) : list Q := foldr insert_sorted [] l.

(** ** xarray.DataArray, two-dimensional

    A raster: rows along the dimension [lat], columns along a second
    dimension named [xdim] (['lon'] in the data). [xcoords] holds every
    coordinate that runs along the column dimension, by name; the one named
    [xdim] is that dimension's index. [values] has one row per latitude. *)

Record DataArray : Type := mkDataArray {
  lat : list Q;
  xdim : string;
  xcoords : gmap string (list Q);
  values : list (list float)
}.

(** The index of the column dimension. *)
Definition xindex (d : DataArray) : option (list Q) := xcoords d !! xdim d.

(** The shape invariant xarray maintains on every DataArray. *)
Definition wf_dataarray (d : DataArray) : Prop :=
  length (values d) = length (lat d) ∧
  ∃ idx, xindex d = Some idx ∧
    Forall (λ row, length row = length idx) (values d) ∧
    map_Forall (λ _ c, length c = length idx) (xcoords d).

(** [d[name]] for a coordinate along the column dimension, or ['lat']. A
    name that is neither a coordinate nor a dimension raises [KeyError]. For
    the name of the column dimension when that dimension has no coordinate,
    xarray makes up the index 0, 1, ..., n-1 instead of raising; such an
    object, which [wf_dataarray] excludes, is outside the model. *)
Definition getitem (d : DataArray) (name : string) : result (list Q) :=
  if String.eqb name "lat" then inr (lat d)
  else match xcoords d !! name with
       | Some c => inr c
       | None =>
           if String.eqb name (xdim d) then inl (Stuck "dimension without index")
           else inl (KeyError name)
       end.

(** [d[name] = c] with [c] one-dimensional along the matching dimension:
    the coordinate is added, or overwritten when it exists (also when it is
    the dimension's index, which xarray overwrites without aligning). The
    notebook assigns either the index of a dimension or a coordinate
    computed from the object's own index. *)
Definition setitem (d : DataArray) (name : string) (c : list Q) : result DataArray :=
  if String.eqb name "lat" then
    if (length c =? length (lat d))%nat then
      inr (mkDataArray c (xdim d) (xcoords d) (values d))
    else inl (ValueError "conflicting sizes for dimension 'lat'")
  else
    match xindex d with
    | None => inl (Stuck "dimension without index")
    | Some idx =>
        if (length c =? length idx)%nat then
          inr (mkDataArray (lat d) (xdim d) (<[name := c]> (xcoords d)) (values d))
        else inl (ValueError "conflicting sizes for dimension")
    end.

(** [d.swap_dims({old: new})]. *)
Definition swap_dims (d : DataArray) (old new : string) : result DataArray :=
  if String.eqb (xdim d) old then
    match xcoords d !! new with
    | Some _ => inr (mkDataArray (lat d) new (xcoords d) (values d))
    | None => inl (ValueError "replacement dimension is not a 1D variable along the old dimension")
    end
  else inl (ValueError "cannot swap from dimension because it is not an existing dimension").

(** Integer selection of columns: values and every coordinate along the
    column dimension are taken at the same positions. *)
Definition isel_columns (d : DataArray) (pos : list nat) : DataArray :=
  mkDataArray (lat d) (xdim d)
    ((λ c, take_at c pos) <$> xcoords d)
    (map (λ row, take_at row pos) (values d)).

Definition isel_rows (d : DataArray) (pos : list nat) : DataArray :=
  mkDataArray (take_at (lat d) pos) (xdim d) (xcoords d) (take_at (values d) pos).

(** [d.sel] with a list of labels of the column dimension [dim]. *)
Definition sel (d : DataArray) (dim : string) (labels : list Q) : result DataArray :=
  if String.eqb (xdim d) dim then
    match xindex d with
    | None => inl (Stuck "dimension without index")
    | Some idx => rbind (get_indexer idx labels) (λ pos, inr (isel_columns d pos))
    end
  else inl (ValueError "dimension does not exist").

(** [d.drop(name)] for a coordinate that is not an index. *)
Definition drop (d : DataArray) (name : string) : result DataArray :=
  match xcoords d !! name with
  | None => inl (ValueError "one or more of the specified variables cannot be found")
  | Some _ =>
      if String.eqb name (xdim d) then inl (Stuck "dropping the index of a dimension")
      else inr (mkDataArray (lat d) (xdim d) (delete name (xcoords d)) (values d))
  end.

(** [d.rename({old: new})]: renames the coordinate, and the dimension when it
    bears that name. *)
Definition rename (d : DataArray) (old new : string) : result DataArray :=
  match xcoords d !! old with
  | None => inl (ValueError "cannot rename: not a coordinate of this object")
  | Some c =>
      match xcoords d !! new with
      | Some _ => inl (ValueError "the new name conflicts")
      | None =>
          inr (mkDataArray (lat d)
                 (if String.eqb (xdim d) old then new else xdim d)
                 (<[new := c]> (delete old (xcoords d)))
                 (values d))
      end
  end.

(** Element-wise unary operations keep every coordinate. *)
Definition da_map (f : float → float) (d : DataArray) : DataArray :=
  mkDataArray (lat d) (xdim d) (xcoords d) (map (map f) (values d)).

(** Coordinates of the result of a binary operation: a coordinate present in
    one operand is kept, one present in both is kept when the two agree and
    silently dropped when they conflict. *)
Definition merge_coords (a b : gmap string (list Q)) : gmap string (list Q) :=
  merge (λ x y, match x, y with
                | Some u, Some v => if index_equals u v then Some u else None
                | Some u, None => Some u
                | None, Some v => Some v
                | None, None => None
                end) a b.

(** An operand of a binary operation, taken at the positions of the joined
    labels: first its rows, then its columns. *)
Definition reindexed (d : DataArray) (pr pc : list nat) : DataArray :=
  isel_columns (isel_rows d pr) pc.

(** [a (op) b] on two DataArrays: both dimensions are aligned by an inner
    join of their indexes, then the operation is applied cell by cell. *)
Definition da_binop (f : float → float → float) (a b : DataArray) : result DataArray :=
  if negb (String.eqb (xdim a) (xdim b)) then
    inl (Stuck "operands on different dimensions broadcast to a third dimension")
  else
    match xindex a, xindex b with
    | Some ia, Some ib =>
        rbind (join_inner (lat a) (lat b)) (λ jlat,
        rbind (join_inner ia ib) (λ jx,
          let a' := reindexed a (reindex_positions (lat a) jlat)
                                (reindex_positions ia jx) in
          let b' := reindexed b (reindex_positions (lat b) jlat)
                                (reindex_positions ib jx) in
          inr (mkDataArray jlat (xdim a)
                 (<[xdim a := jx]> (merge_coords (xcoords a') (xcoords b')))
                 (zip_with (zip_with f) (values a') (values b')))))
    | _, _ => inl (Stuck "dimension without index")
    end.

(** ** Country geometries (shapely)

    Coordinates are [(x, y) = (lon, lat)]. A linear ring lists its vertices
    with the first repeated at the end, as shapely stores it. *)

Definition Point : Type := (Q * Q)%type.

Definition Ring : Type := list Point.

Record Polygon : Type := mkPolygon {
  shell : Ring;
  holes : list Ring
}.

Inductive Geometry : Type :=
| GPolygon (p : Polygon)
| GMultiPolygon (ps : list Polygon).

(** Where a point lies with respect to a geometry (the three classes of the
    DE-9IM model that shapely's predicates are defined by). *)
Inductive Location : Type := Interior | Boundary | Exterior.

Definition is_interior (l : Location) : bool :=
  match l with Interior => true | _ => false end.

Definition is_boundary (l : Location) : bool :=
  match l with Boundary => true | _ => false end.

Definition edges (r : Ring) : list (Point * Point) := zip r (tail r).

(** The point lies on the closed segment [a b]. *)
Definition on_segment (p : Point) (e : Point * Point) : bool :=
  let '(x, y) := p in
  let '((x1, y1), (x2, y2)) := e in
  Qeq_bool ((x2 - x1) * (y - y1)) ((y2 - y1) * (x - x1))
  && Qle_bool (Qmin x1 x2) x && Qle_bool x (Qmax x1 x2)
  && Qle_bool (Qmin y1 y2) y && Qle_bool y (Qmax y1 y2).

(** The horizontal ray from the point towards +x crosses the segment
    (half-open in y, so that a vertex on the ray counts once). *)
Definition crosses (p : Point) (e : Point * Point) : bool :=
  let '(x, y) := p in
  let '((x1, y1), (x2, y2)) := e in
  negb (Bool.eqb (Qltb y y1) (Qltb y y2))
  && Qltb x (x1 + (y - y1) * (x2 - x1) / (y2 - y1)).

Definition locate_ring (p : Point) (r : Ring) : Location :=
  if existsb (on_segment p) (edges r) then Boundary
  else if Nat.odd (length (filter (λ e, Is_true (crosses p e)) (edges r)))
       then Interior else Exterior.

Definition locate_polygon (p : Point) (poly : Polygon) : Location :=
  match locate_ring p (shell poly) with
  | Exterior => Exterior
  | Boundary => Boundary
  | Interior =>
      if existsb (λ h, is_boundary (locate_ring p h)) (holes poly) then Boundary
      else if existsb (λ h, is_interior (locate_ring p h)) (holes poly) then Exterior
      else Interior
  end.

Definition locate (g : Geometry) (p : Point) : Location :=
  match g with
  | GPolygon poly => locate_polygon p poly
  | GMultiPolygon ps =>
      if existsb (λ poly, is_interior (locate_polygon p poly)) ps then Interior
      else if existsb (λ poly, is_boundary (locate_polygon p poly)) ps then Boundary
      else Exterior
  end.

(** shapely's [g.contains(Point(x, y))]: the point lies in the interior of
    [g]; a point of the boundary is not contained. *)
Definition contains (g : Geometry) (p : Point) : bool := is_interior (locate g p).

(** shapely's [g.covers(Point(x, y))], closed containment: interior or
    boundary. The notebook does not call it. *)
Definition covers (g : Geometry) (p : Point) : bool :=
  match locate g p with Exterior => false | _ => true end.

(** A record of the Natural Earth shapefile: a geometry and its attributes. *)
Record ShapeRecord : Type := mkShapeRecord {
  geometry : Geometry;
  attributes : gmap string string
}.

(** ** pandas.Series of floats: the index labels with their values, in order *)

Definition Series : Type := list (string * float).

(** ** numpy on flat arrays of floats *)

Definition ravel (v : list (list float)) : list float := concat v.

(** [a[mask]] with a boolean mask. An empty list of Python booleans makes
    [np.array([])] an array of dtype float64, which numpy refuses as an
    index; a boolean mask must have the length of the array. *)
Fixpoint mask_take {A} (a : list A) (mask : list bool) : list A :=
  match a, mask with
  | x :: a', m :: mask' =>
      if m then x :: mask_take a' mask' else mask_take a' mask'
  | _, _ => []
  end.

Definition boolean_index {A} (a : list A) (mask : list bool) : result (list A) :=
  match mask with
  | [] => inl (IndexError "arrays used as indices must be of integer (or boolean) type")
  | _ =>
      if (length mask =? length a)%nat then inr (mask_take a mask)
      else inl (IndexError "boolean index did not match indexed array along dimension 0")
  end.

(** [np.sum] of a flat float64 array, as [np.add.reduce] computes it: the
    reduction starts from the identity, +0.0, and adds to it what numpy's
    loop [pairwise_sum] returns for the whole array. That loop adds fewer
    than 8 elements one by one, from 0.0 on. Up to 128 elements are added
    into eight accumulators, the first eight elements, block of eight after
    block of eight; the accumulators are then added in pairs, and the
    elements after the last full block one by one. A longer array is split
    in two, the first part half as long, rounded down to a multiple of
    eight, and the sums of the two parts are added. *)
Fixpoint add_blocks (blocks : nat) (r a : list float) : list float * list float :=
  match blocks with
  | O => (r, a)
  | S k => add_blocks k (zip_with PrimFloat.add r (take 8 a)) (skipn 8 a)
  end.

Definition sum_unrolled (a : list float) : float :=
  let '(r, rest) := add_blocks (length a / 8 - 1) (take 8 a) (skipn 8 a) in
  let r0 := nth 0 r 0%float in let r1 := nth 1 r 0%float in
  let r2 := nth 2 r 0%float in let r3 := nth 3 r 0%float in
  let r4 := nth 4 r 0%float in let r5 := nth 5 r 0%float in
  let r6 := nth 6 r 0%float in let r7 := nth 7 r 0%float in
  fold_left PrimFloat.add rest
    (((r0 + r1) + (r2 + r3)) + ((r4 + r5) + (r6 + r7)))%float.

(** [fuel] bounds the depth of the splitting: the length of the array is
    more than enough, and with enough of it the sum does not depend on it
    ([pairwise_sum_fuel]). *)
Fixpoint pairwise_sum (fuel : nat) (a : list float) : float :=
  let n := length a in
  if (n <? 8)%nat then fold_left PrimFloat.add a 0%float
  else if (n <=? 128)%nat then sum_unrolled a
  else match fuel with
       | O => 0%float
       | S fuel' =>
           let n2 := (n / 2 - (n / 2) mod 8)%nat in
           (pairwise_sum fuel' (take n2 a) + pairwise_sum fuel' (skipn n2 a))%float
       end.

Definition np_sum (a : list float) : float :=
  (0 + pairwise_sum (length a) a)%float.

(** [np.nansum]: NaN is replaced by 0.0, then [np.sum]. *)
Definition nan_to_zero (x : float) : float := if is_nan x then 0%float else x.

Definition nansum (a : list float) : float := np_sum (map nan_to_zero a).

(** ** The interpreter state and the world outside it *)

(** What a notebook variable can hold. A DataArray is held by address. *)
Inductive pyval : Type :=
| PyNone
| PyArr (addr : nat)
| PySeries (s : Series)
| PyGeometries (gs : list Geometry)
| PyRecords (rs : list ShapeRecord)
| PyStr (str : string).

Record State : Type := mkState {
  heap : gmap nat DataArray;          (* the DataArray objects *)
  env : gmap string pyval;            (* the notebook's global variables *)
  written : list (string * Series)    (* the CSV files written so far *)
}.

(** The files the notebook reads. [rasters] maps a path and a variable name
    to the two-dimensional raster the load expression of the notebook
    evaluates to (for PM2.5, the mean over the time axis); an absent key is a
    load that raises. [natural_earth] is the Natural Earth
    [admin_0_countries] shapefile at 110m, [None] when it cannot be obtained. *)
Record World : Type := mkWorld {
  rasters : gmap (string * string) DataArray;
  natural_earth : option (list ShapeRecord)
}.

(** Computations: state passing, with exceptions that keep the state reached. *)
Definition M (A : Type) : Type := State → result A * State.

Definition ret {A} (a : A) : M A := λ s, (inr a, s).

Definition raise {A} (e : exn) : M A := λ s, (inl e, s).

Definition bind {A B} (m : M A) (k : A → M B) : M B :=
  λ s, match m s with
       | (inl e, s') => (inl e, s')
       | (inr a, s') => k a s'
       end.

Definition lift {A} (r : result A) : M A := λ s, (r, s).

#[global] Instance M_ret : MRet M := @ret.
#[global] Instance M_bind : MBind M := λ A B k m, bind m k.

(** Heap access. *)
Definition deref (a : nat) : M DataArray :=
  λ s, match heap s !! a with
       | Some d => (inr d, s)
       | None => (inl (Stuck "address without object"), s)
       end.

Definition store (a : nat) (d : DataArray) : M unit :=
  λ s, (inr tt, mkState (<[a := d]> (heap s)) (env s) (written s)).

Definition alloc (d : DataArray) : M nat :=
  λ s, let a := fresh (dom (heap s)) in
       (inr a, mkState (<[a := d]> (heap s)) (env s) (written s)).

(** ** [fix_lon] (cell 5) *)

Definition lon_name : string := "lon".

(** [xr.where(lon > 180, lon - 360, lon)], one longitude at a time. *)
Definition adjust_lon (x : Q) : Q := if Qltb 180 x then x - 360 else x.

(** The notebook calls it on DataArrays. The parameter [ds] is the address
    of the caller's object. The first
    statement assigns a coordinate on that object; the name [ds] is rebound
    to new objects only afterwards. [sorted(ds._longitude_adjusted)] is
    evaluated while [ds] still names the caller's object. *)
Definition fix_lon (ds : nat) : M nat :=
  d ← deref ds ;
  lon ← lift (getitem d lon_name) ;
  d' ← lift (setitem d "_longitude_adjusted" (map adjust_lon lon)) ;
  store ds d' ;;
  swapped ← lift (swap_dims d' lon_name "_longitude_adjusted") ;
  adjusted ← lift (getitem d' "_longitude_adjusted") ;
  selected ← lift (sel swapped "_longitude_adjusted" (sorted adjusted)) ;
  dropped ← lift (drop selected lon_name) ;
  renamed ← lift (rename dropped "_longitude_adjusted" lon_name) ;
  alloc renamed.

(** ** [sum_within_country] (cell 7) *)

(** [np.meshgrid(lats, lons, indexing="ij")], its two arrays zipped cell by
    cell into [Point(lon, lat)]; raveled, the cell centers in row-major
    order. *)
Definition meshgrid (lats lons : list Q) : list (list Point) :=
  map (λ la, map (λ lo, (lo, la)) lons) lats.

Definition cell_centers (lats lons : list Q) : list Point :=
  concat (meshgrid lats lons).

(** The body of the loop, for one geometry and its record. *)
Definition country_sum (lats lons : list Q) (vals : list (list float))
    (country : Geometry) (country_attr : ShapeRecord) : result (string * float) :=
  match attributes country_attr !! "NAME" with
  | None => inl (KeyError "NAME")
  | Some country_name =>
      let country_polygon := country in
      let points := cell_centers lats lons in
      let inside_country := map (contains country_polygon) points in
      rbind (boolean_index (ravel vals) inside_country) (λ inside_values,
        inr (country_name, nansum inside_values))
  end.

(** The records are read inside the function, from the shapefile; the caller
    passes the raster and the geometries only. [zip] stops at the shorter of
    its two arguments. ([data.copy()] is a local that is only read.) *)
Definition sum_within_country (w : World) (data : nat) (countries : list Geometry) : M Series :=
  d ← deref data ;
  country_info ← lift (match natural_earth w with
                       | Some rs => inr rs
                       | None => inl (FileNotFoundError "ne_110m_admin_0_countries.shp")
                       end) ;
  lats ← lift (getitem d "lat") ;
  lons ← lift (getitem d "lon") ;
  lift (rmapM (λ ca, country_sum lats lons (values d) (fst ca) (snd ca))
          (zip countries country_info)).

(** ** [mortality] (cell 8) and the cells of the pipeline

    [np.exp] on float64 is the platform's libm; the embedding takes it as a
    parameter. *)

Section Libm.

Variable np_exp : float → float.

(** −1.1, the float64 nearest to the literal of the source. *)
Definition minus_k : float := (-0x1.199999999999ap+0)%float.

(** [b * (1 - np.exp(-1.1 * pm25)) * population], left to right, then the
    reassignment of ['lon'] to itself. (The defaults [b=None] and
    [population=None] are not modelled: every call of the notebook passes
    both.) *)
Definition mortality (pm25 b population : nat) : M nat :=
  vb ← deref b ;
  vpm25 ← deref pm25 ;
  let exponent := da_map (PrimFloat.mul minus_k) vpm25 in
  let response := da_map (λ e, PrimFloat.sub 1 e) (da_map np_exp exponent) in
  scaled ← lift (da_binop PrimFloat.mul vb response) ;
  vpop ← deref population ;
  product ← lift (da_binop PrimFloat.mul scaled vpop) ;
  temp_ds ← alloc product ;
  lon ← lift (getitem product "lon") ;
  reassigned ← lift (setitem product "lon" lon) ;
  store temp_ds reassigned ;;
  ret temp_ds.


(** *** The notebook's variables *)

(** Reading a global variable: [NameError] when it was never assigned. *)
Definition name (x : string) : M pyval :=
  λ s, match env s !! x with
       | Some v => (inr v, s)
       | None => (inl (NameError x), s)
       end.

Definition assign (x : string) (v : pyval) : M unit :=
  λ s, (inr tt, mkState (heap s) (<[x := v]> (env s)) (written s)).

(** A variable used where a DataArray is needed. *)
Definition name_arr (x : string) : M nat :=
  v ← name x ;
  match v with
  | PyArr a => ret a
  | _ => raise (TypeError "not a DataArray")
  end.

Definition name_series (x : string) : M Series :=
  v ← name x ;
  match v with
  | PySeries sr => ret sr
  | _ => raise (TypeError "not a Series")
  end.

Definition name_str (x : string) : M string :=
  v ← name x ;
  match v with
  | PyStr str => ret str
  | _ => raise (TypeError "not a str")
  end.

Definition name_geometries (x : string) : M (list Geometry) :=
  v ← name x ;
  match v with
  | PyGeometries gs => ret gs
  | _ => raise (TypeError "not a list of geometries")
  end.

(** [x is not None] *)
Definition is_not_none (x : string) : M bool :=
  v ← name x ;
  (ret (match v with PyNone => false | _ => true end) : M bool).

(** [try: body except Exception as e: handler]. The state reached when the
    exception was raised is the state the handler starts from. *)
Definition try_except (body : M unit) (handler : M unit) : M unit :=
  λ s, match body s with
       | (inl (Stuck msg), s') => (inl (Stuck msg), s')
       | (inl _, s') => handler s'
       | (inr tt, s') => (inr tt, s')
       end.

Definition data_dir : string := "./smoke_data".

(** [os.path.join(data_dir, file)] *)
Definition path_join (dir file : string) : string := dir ++ "/" ++ file.

(** [xr.open_dataset(os.path.join(data_dir, file))[var]], for PM2.5 followed
    by [.mean(axis=0)]: a new object, or an exception when the file or the
    variable is not there. *)
Definition open_raster (w : World) (file var : string) : M nat :=
  match rasters w !! (path_join data_dir file, var) with
  | Some d => alloc d
  | None => raise (FileNotFoundError (path_join data_dir file))
  end.

(** [a[name] = b[name]] on objects of the heap; the right-hand side is
    evaluated first. *)
Definition copy_coord (a b : nat) (coord : string) : M unit :=
  vb ← deref b ;
  c ← lift (getitem vb coord) ;
  va ← deref a ;
  va' ← lift (setitem va coord c) ;
  store a va'.

(** [x = fix_lon(x)] *)
Definition refix (x : string) : M unit :=
  a ← name_arr x ;
  a' ← fix_lon a ;
  assign x (PyArr a').

(** [x = xr.open_dataset(...)[var]...] *)
Definition load_into (w : World) (x file var : string) : M unit :=
  a ← open_raster w file var ;
  assign x (PyArr a).

(** Cell 10: PM2.5 for 2050 and for 2100. Only the handler of 2100 assigns
    [None]. *)
Definition cell_10 (w : World) : M unit :=
  try_except
    (load_into w "baseline_pm25_2050" "CESM_09x125_PM25_2050_RCP85.nc" "pm25" ;;
     load_into w "nofire_pm25_2050" "CESM_09x125_PM25_2050_RCP85_NoFire.nc" "pm25" ;;
     refix "baseline_pm25_2050" ;;
     refix "nofire_pm25_2050")
    (ret tt) ;;
  try_except
    (load_into w "baseline_pm25_2100" "CESM_09x125_PM25_2100_RCP85.nc" "pm25" ;;
     load_into w "nofire_pm25_2100" "CESM_09x125_PM25_2100_RCP85_NoFire.nc" "pm25" ;;
     refix "baseline_pm25_2100" ;;
     refix "nofire_pm25_2100")
    (assign "baseline_pm25_2100" PyNone ;;
     assign "nofire_pm25_2100" PyNone).

(** Cell 11: PM2.5 for 2000. *)
Definition cell_11 (w : World) : M unit :=
  try_except
    (load_into w "baseline_pm25_2000" "CESM_09x125_PM25_2000_Baseline.nc" "pm25" ;;
     load_into w "nofire_pm25_2000" "CESM_09x125_PM25_2000_Baseline_nofire.nc" "pm25" ;;
     refix "baseline_pm25_2000" ;;
     refix "nofire_pm25_2000")
    (ret tt).

(** Cell 12: death rate (per 1000, divided by 1000) and populations, their
    coordinates overwritten with those of [baseline_pm25_2050]. *)
Definition cell_12 (w : World) : M unit :=
  try_except
    (a ← open_raster w "death_rate.nc" "death_rate" ;
     d ← deref a ;
     a' ← alloc (da_map (λ x, PrimFloat.div x 1000) d) ;
     assign "death_rate" (PyArr a') ;;
     load_into w "population_2000" "ssp2_2000_matching.nc" "2000total" ;;
     load_into w "population_2050" "ssp2_2050_matching.nc" "ssp2_2050" ;;
     load_into w "population_2100" "ssp2_2100_matching.nc" "ssp2_2100" ;;
     refix "death_rate" ;;
     refix "population_2000" ;;
     refix "population_2050" ;;
     refix "population_2100" ;;
     ref ← name_arr "baseline_pm25_2050" ;
     dr ← name_arr "death_rate" ;
     copy_coord dr ref "lat" ;;
     ref ← name_arr "baseline_pm25_2050" ;
     dr ← name_arr "death_rate" ;
     copy_coord dr ref "lon" ;;
     p2000 ← name_arr "population_2000" ;
     p2050 ← name_arr "population_2050" ;
     p2100 ← name_arr "population_2100" ;
     foldr (λ pop rest,
              assign "pop" (PyArr pop) ;;
              ref ← name_arr "baseline_pm25_2050" ;
              copy_coord pop ref "lat" ;;
              ref ← name_arr "baseline_pm25_2050" ;
              copy_coord pop ref "lon" ;;
              rest)
           (ret tt) [p2000; p2050; p2100])
    (ret tt).

(** [x = mortality(pm25, b=death_rate, population=pop)] *)
Definition assign_mortality (x pm25 pop : string) : M unit :=
  a ← name_arr pm25 ;
  b ← name_arr "death_rate" ;
  p ← name_arr pop ;
  m ← mortality a b p ;
  assign x (PyArr m).

(** [x = l - r] on DataArrays. *)
Definition assign_difference (x l r : string) : M unit :=
  a ← name_arr l ;
  b ← name_arr r ;
  va ← deref a ;
  vb ← deref b ;
  d ← lift (da_binop PrimFloat.sub va vb) ;
  m ← alloc d ;
  assign x (PyArr m).

(** Cell 14: mortality for 2050. *)
Definition cell_14 : M unit :=
  assign_mortality "baseline_mortality_2050" "baseline_pm25_2050" "population_2050" ;;
  assign_mortality "nofire_mortality_2050" "nofire_pm25_2050" "population_2050" ;;
  assign_difference "difference_mortality_2050" "baseline_mortality_2050" "nofire_mortality_2050".

(** Cell 15: mortality for 2000, then for 2100 behind the [None] test. *)
Definition cell_15 : M unit :=
  assign_mortality "baseline_mortality_2000" "baseline_pm25_2000" "population_2000" ;;
  assign_mortality "nofire_mortality_2000" "nofire_pm25_2000" "population_2000" ;;
  assign_difference "difference_mortality_2000" "baseline_mortality_2000" "nofire_mortality_2000" ;;
  bind (is_not_none "baseline_pm25_2100") (λ b : bool,
  bind (if b then is_not_none "nofire_pm25_2100" else ret false) (λ n : bool,
  if n then
    assign_mortality "baseline_mortality_2100" "baseline_pm25_2100" "population_2100" ;;
    assign_mortality "nofire_mortality_2100" "nofire_pm25_2100" "population_2100" ;;
    assign_difference "difference_mortality_2100" "baseline_mortality_2100" "nofire_mortality_2100"
  else
    assign "baseline_mortality_2100" PyNone ;;
    assign "nofire_mortality_2100" PyNone ;;
    assign "difference_mortality_2100" PyNone)).

(** Cell 17: the country boundaries. *)
Definition cell_17 (w : World) : M unit :=
  try_except
    (match natural_earth w with
     | Some rs =>
         assign "countries" (PyGeometries (geometry <$> rs)) ;;
         assign "country_info" (PyRecords rs)
     | None => raise (FileNotFoundError "ne_110m_admin_0_countries.shp")
     end)
    (ret tt).

(** [x = sum_within_country(raster, countries)] *)
Definition assign_sums (w : World) (x raster : string) : M unit :=
  a ← name_arr raster ;
  gs ← name_geometries "countries" ;
  sr ← sum_within_country w a gs ;
  assign x (PySeries sr).

Definition write_file (path : string) (sr : Series) : M unit :=
  λ s, (inr tt, mkState (heap s) (env s) (written s ++ [(path, sr)])).

(** [x.to_csv(os.path.join(output_dir, file))]: [output_dir] is a variable
    of the notebook, assigned in cell 18. *)
Definition to_csv (x file : string) : M unit :=
  sr ← name_series x ;
  output_dir ← name_str "output_dir" ;
  write_file (path_join output_dir file) sr.

(** [l - r] on two Series: pandas aligns them on their labels; two Series
    with the same labels in the same order are subtracted entry by entry.
    Every pair the notebook subtracts comes from the same geometry list and
    the same shapefile; any other pair is outside the model. *)
Definition series_sub (l r : Series) : result Series :=
  if bool_decide (map fst l = map fst r) then
    inr (zip_with (λ a b, (fst a, PrimFloat.sub (snd a) (snd b))) l r)
  else inl (Stuck "Series with different labels").

Definition assign_change (x l r : string) : M unit :=
  a ← name_series l ;
  b ← name_series r ;
  c ← lift (series_sub a b) ;
  assign x (PySeries c).

(** Cell 18: country sums for 2050, written to CSV. ([os.makedirs] with
    [exist_ok=True] is taken to succeed.) *)
Definition cell_18 (w : World) : M unit :=
  assign_sums w "baseline_sums_2050" "baseline_mortality_2050" ;;
  assign_sums w "nofire_sums_2050" "nofire_mortality_2050" ;;
  assign_sums w "difference_sums_2050" "difference_mortality_2050" ;;
  assign "output_dir" (PyStr (path_join data_dir "results")) ;;
  to_csv "baseline_sums_2050" "total_smoke_deaths.csv" ;;
  to_csv "nofire_sums_2050" "nofire_smoke_deaths.csv" ;;
  to_csv "difference_sums_2050" "fire_smoke_deaths.csv".

(** Cell 19: country sums for 2000, the change 2000-2050, then the year 2100
    behind the [None] test. *)
Definition cell_19 (w : World) : M unit :=
  assign_sums w "baseline_sums_2000" "baseline_mortality_2000" ;;
  assign_sums w "nofire_sums_2000" "nofire_mortality_2000" ;;
  assign_sums w "difference_sums_2000" "difference_mortality_2000" ;;
  to_csv "baseline_sums_2000" "total_smoke_deaths_2000.csv" ;;
  to_csv "nofire_sums_2000" "nofire_smoke_deaths_2000.csv" ;;
  to_csv "difference_sums_2000" "fire_smoke_deaths_2000.csv" ;;
  assign_change "change_2000_2050" "difference_sums_2050" "difference_sums_2000" ;;
  to_csv "change_2000_2050" "fire_smoke_deaths_change_2000_2050.csv" ;;
  bind (is_not_none "difference_mortality_2100") (λ b : bool,
  if b then
    (assign_sums w "baseline_sums_2100" "baseline_mortality_2100" ;;
    assign_sums w "nofire_sums_2100" "nofire_mortality_2100" ;;
    assign_sums w "difference_sums_2100" "difference_mortality_2100" ;;
    to_csv "baseline_sums_2100" "total_smoke_deaths_2100.csv" ;;
    to_csv "nofire_sums_2100" "nofire_smoke_deaths_2100.csv" ;;
    to_csv "difference_sums_2100" "fire_smoke_deaths_2100.csv" ;;
    assign_change "change_2050_2100" "difference_sums_2100" "difference_sums_2050" ;;
    assign_change "change_2000_2100" "difference_sums_2100" "difference_sums_2000" ;;
    to_csv "change_2050_2100" "fire_smoke_deaths_change_2050_2100.csv" ;;
    to_csv "change_2000_2100" "fire_smoke_deaths_change_2000_2100.csv")
  else ret tt).

(** The cells of the pipeline, in the notebook's order. *)
Definition pipeline (w : World) : list (M unit) :=
  [cell_10 w; cell_11 w; cell_12 w; cell_14; cell_15; cell_17 w; cell_18 w; cell_19 w].

End Libm.

(** "Run All": the cells in order, stopping at the first that raises. *)
Fixpoint run_all (cells : list (M unit)) : M unit :=
  match cells with
  | [] => ret tt
  | c :: cells' => c ;; run_all cells'
  end.

(** Every cell executed in order, whether or not an earlier one raised: what
    each cell returned, and the final state. *)
Fixpoint run_each (cells : list (M unit)) (s : State) : list (result unit) * State :=
  match cells with
  | [] => ([], s)
  | c :: cells' =>
      let '(r, s') := c s in
      let '(rs, s'') := run_each cells' s' in
      (r :: rs, s'')
  end.

(** A fresh kernel. *)
Definition initial_state : State := mkState ∅ ∅ [].

(** ** Vocabulary of the statements *)

(** A raster of the specification: a well-formed DataArray on the dimensions
    [(lat, lon)]. *)
Definition raster (d : DataArray) : Prop := wf_dataarray d ∧ xdim d = "lon".

(** The value of the cell in row [i], column [j]. *)
Definition cell (d : DataArray) (i j : nat) : option float :=
  row ← values d !! i ; row !! j.

(** The display name of a record of the shapefile. *)
Definition NAME (r : ShapeRecord) : option string := attributes r !! "NAME".

(** The values that [sum_within_country] adds up for a geometry: the cells
    of the raster, in row-major order, that the boolean mask
    [inside_country] selects. *)
Definition inside_country (d : DataArray) (lons : list Q) (g : Geometry) : list bool :=
  map (contains g) (cell_centers (lat d) lons).

Definition inside_values (d : DataArray) (lons : list Q) (g : Geometry) : list float :=
  mask_take (ravel (values d)) (inside_country d lons g).

(** The values of a list that are not NaN. *)
Definition non_nan (a : list float) : list float :=
  filter (λ x, is_nan x = false) a.

(** Two floats that are the same number: equal, or both a zero (+0.0 or
    -0.0, which [==] does not tell apart). *)
Definition same_number (x y : float) : Prop :=
  x = y ∨ (is_zero x = true ∧ is_zero y = true).

(** A variable of the notebook that was never assigned, and a computation
    that does not assign it. *)
Definition unbound (x : string) (s : State) : Prop := env s !! x = None.

Definition leaves_unbound (x : string) {A} (m : M A) : Prop :=
  ∀ s, unbound x s → unbound x (m s).2.

(** The positions of the sorted labels in the index they were sorted from:
    the column permutation that [fix_lon] applies. *)
Definition sort_positions (index : list Q) : list nat :=
  omap (get_loc index) (sorted index).

(** The caller's object after the call: it carries one more coordinate. *)
Definition with_adjusted (d : DataArray) (lons : list Q) : DataArray :=
  mkDataArray (lat d) (xdim d)
    (<["_longitude_adjusted" := map adjust_lon lons]> (xcoords d)) (values d).

(** The object returned: the coordinates along the column dimension and the
    columns of values are taken at the sort positions of the adjusted
    longitudes, which become the coordinate ['lon']. *)
Definition normalized (d : DataArray) (lons : list Q) : DataArray :=
  let adjusted := map adjust_lon lons in
  let pos := sort_positions adjusted in
  mkDataArray (lat d) "lon"
    (<["lon" := take_at adjusted pos]>
       (delete "_longitude_adjusted"
          (delete "lon"
             ((λ c, take_at c pos) <$> <["_longitude_adjusted" := adjusted]> (xcoords d)))))
    (map (λ row, take_at row pos) (values d)).

(** The value of the cell at latitude [la] and longitude [lo]. *)
Definition cell_at (d : DataArray) (la lo : Q) : option float :=
  i ← get_loc (lat d) la ;
  idx ← xindex d ;
  j ← get_loc idx lo ;
  cell d i j.

(** Two DataArrays on equal coordinate arrays. *)
Definition same_grid (a b : DataArray) : Prop :=
  index_equals (lat a) (lat b) = true ∧
  ∃ ia ib, xindex a = Some ia ∧ xindex b = Some ib ∧ index_equals ia ib = true.

(** [1 - exp(-1.1 * x)], the concentration response of one cell. *)
Definition response_cell (np_exp : float → float) (x : float) : float :=
  (1 - np_exp (minus_k * x))%float.

(** [1 - np.exp(-1.1 * pm25)] as [mortality] computes it, on a whole
    DataArray. *)
Definition response (np_exp : float → float) (c : DataArray) : DataArray :=
  da_map (λ e, PrimFloat.sub 1 e) (da_map np_exp (da_map (PrimFloat.mul minus_k) c)).

(** A decision procedure for the shape invariant. *)
Definition wf_dataarrayb (d : DataArray) : bool :=
  (length (values d) =? length (lat d))%nat
  && match xindex d with
     | Some idx =>
         forallb (λ row, (length row =? length idx)%nat) (values d)
         && forallb (λ kc, (length (snd kc) =? length idx)%nat) (map_to_list (xcoords d))
     | None => false
     end.

(** ** Sample inputs

    [np_exp] is a parameter of the embedding, and every theorem is stated
    for every function [np_exp]. The closed examples run the model with the
    Taylor polynomial of degree 12 of the exponential, in Horner form; none
    of them depends on its digits. *)

Definition exp_series (x : float) : float :=
  foldr (λ n acc, (1 + x * acc / n)%float) 1%float
    [1; 2; 3; 4; 5; 6; 7; 8; 9; 10; 11; 12]%float.

(** A raster on the grid lat = [0, 1], lon = [0, 1]. *)
Definition grid_2x2 (v : list (list float)) : DataArray :=
  mkDataArray [0; 1]%Q "lon" {[ "lon" := [0; 1]%Q ]} v.

(** The synthetic scenario of the specification: concentration 10 in one
    cell, rate 0.01 per person, population 1000. *)
Definition sample_concentration : DataArray := grid_2x2 [[10; 0]; [0; 0]]%float.

(** 0.01, the float64 nearest to it. *)
Definition one_percent : float := 0x1.47ae147ae147bp-7%float.

Definition sample_rate : DataArray :=
  grid_2x2 [[one_percent; one_percent]; [one_percent; one_percent]].

Definition sample_population : DataArray :=
  grid_2x2 [[1000; 1000]; [1000; 1000]]%float.

Definition heap_of (ds : list DataArray) : State :=
  mkState (list_to_map (zip (seq 0 (length ds)) ds)) ∅ [].

Definition aligned_state : State :=
  heap_of [sample_concentration; sample_rate; sample_population].

(** A rate raster whose longitudes are [0, 2] where the two others have
    [0, 1]. *)
Definition shifted_rate : DataArray :=
  mkDataArray [0; 1]%Q "lon" {[ "lon" := [0; 2]%Q ]}
    [[one_percent; one_percent]; [one_percent; one_percent]].

Definition misaligned_state : State :=
  heap_of [sample_concentration; shifted_rate; sample_population].

(** Rasters in the [0, 360) convention, with and without the meridian 180,
    and one with a longitude beyond a single turn. *)
Definition grid_0_360 : DataArray :=
  mkDataArray [0; 1]%Q "lon" {[ "lon" := [0; 90; 180; 270]%Q ]}
    [[1; 2; 3; 4]; [5; 6; 7; 8]]%float.

Definition grid_0_270 : DataArray :=
  mkDataArray [0; 1]%Q "lon" {[ "lon" := [0; 90; 270]%Q ]}
    [[1; 2; 4]; [5; 6; 8]]%float.

Definition grid_600 : DataArray :=
  mkDataArray [0; 1]%Q "lon" {[ "lon" := [0; 600]%Q ]}
    [[1; 2]; [5; 6]]%float.

(** The square with corners (0, 0) and (2, 2), and a raster with one cell
    center on its lower edge, (1, 0), and one inside it, (1, 1). *)
Definition square : Geometry :=
  GPolygon (mkPolygon [(0, 0); (2, 0); (2, 2); (0, 2); (0, 0)]%Q []).

Definition edge_grid : DataArray :=
  mkDataArray [0; 1]%Q "lon" {[ "lon" := [1]%Q ]} [[5]; [7]]%float.


(** A shapefile with one record. *)
Definition squareland : ShapeRecord := mkShapeRecord square {[ "NAME" := "Squareland" ]}.

Definition one_country : World := mkWorld ∅ (Some [squareland]).

(** The files of a complete run, on a grid with longitudes [0, 270], and two
    countries. *)
Definition grid_west (v : list (list float)) : DataArray :=
  mkDataArray [0; 1]%Q "lon" {[ "lon" := [0; 270]%Q ]} v.

Definition west : Geometry :=
  GPolygon (mkPolygon [(-100, -1); (-80, -1); (-80, 2); (-100, 2); (-100, -1)]%Q []).

Definition middle : Geometry :=
  GPolygon (mkPolygon [(-1, -1); (1, -1); (1, 2); (-1, 2); (-1, -1)]%Q []).

Definition two_countries : list ShapeRecord :=
  [mkShapeRecord west {[ "NAME" := "West" ]};
   mkShapeRecord middle {[ "NAME" := "Middle" ]}].

Definition all_files : gmap (string * string) DataArray :=
  list_to_map
    [((path_join data_dir "CESM_09x125_PM25_2050_RCP85.nc", "pm25"),
      grid_west [[1; 2]; [3; 4]]%float);
     ((path_join data_dir "CESM_09x125_PM25_2050_RCP85_NoFire.nc", "pm25"),
      grid_west [[1; 1]; [1; 1]]%float);
     ((path_join data_dir "CESM_09x125_PM25_2100_RCP85.nc", "pm25"),
      grid_west [[1; 2]; [3; 4]]%float);
     ((path_join data_dir "CESM_09x125_PM25_2100_RCP85_NoFire.nc", "pm25"),
      grid_west [[1; 1]; [1; 1]]%float);
     ((path_join data_dir "CESM_09x125_PM25_2000_Baseline.nc", "pm25"),
      grid_west [[1; 2]; [3; 4]]%float);
     ((path_join data_dir "CESM_09x125_PM25_2000_Baseline_nofire.nc", "pm25"),
      grid_west [[1; 1]; [1; 1]]%float);
     ((path_join data_dir "death_rate.nc", "death_rate"),
      grid_west [[8; 8]; [8; 8]]%float);
     ((path_join data_dir "ssp2_2000_matching.nc", "2000total"),
      grid_west [[100; 100]; [100; 100]]%float);
     ((path_join data_dir "ssp2_2050_matching.nc", "ssp2_2050"),
      grid_west [[200; 200]; [200; 200]]%float);
     ((path_join data_dir "ssp2_2100_matching.nc", "ssp2_2100"),
      grid_west [[300; 300]; [300; 300]]%float)].

Definition complete_world : World := mkWorld all_files (Some two_countries).

(** The same world without the baseline PM2.5 file of one year. *)
Definition world_without_2000 : World :=
  mkWorld (delete (path_join data_dir "CESM_09x125_PM25_2000_Baseline.nc", "pm25") all_files)
    (Some two_countries).

Definition world_without_2100 : World :=
  mkWorld (delete (path_join data_dir "CESM_09x125_PM25_2100_RCP85.nc", "pm25") all_files)
    (Some two_countries).

(** The names of the files written, in order. *)
Definition files_written (s : State) : list string := map fst (written s).

(** ** Cells 3, 21 and 22 *)

(** Cell 3: the files that the notebook lists as required when the data
    directory is missing. (The cell prints the list and goes on.) *)
Definition required_files : list string :=
  ["CESM_09x125_PM25_2050_RCP85.nc";
   "CESM_09x125_PM25_2050_RCP85_NoFire.nc";
   "CESM_09x125_PM25_2000_Baseline.nc";
   "CESM_09x125_PM25_2000_BaseLine_NoFire.nc";
   "CESM_09x125_PM25_2100_RCP85.nc";
   "CESM_09x125_PM25_2100_RCP85_NoFire.nc";
   "death_rate.nc";
   "ssp2_2000_matching.nc";
   "ssp2_2050_matching.nc";
   "ssp2_2100_matching.nc"].

(** [sr.sum()] on a Series of floats: pandas leaves NaN out. *)
Definition series_sum (sr : Series) : float := nansum (map snd sr).

(** The number printed by [{x.sum():,.0f}]. *)
Definition sum_of (x : string) : M float :=
  sr ← name_series x ;
  mret (series_sum sr).

(** The number printed by [{(x.sum() - y.sum()):,.0f}]. *)
Definition sum_difference (x y : string) : M float :=
  a ← sum_of x ;
  b ← sum_of y ;
  mret (a - b)%float.

(** Cell 21: the totals. A cell that prints returns the numbers it printed,
    in order; the text around them is not modelled. *)
Definition cell_21 : M (list float) :=
  t1 ← sum_of "baseline_sums_2050" ;
  t2 ← sum_of "nofire_sums_2050" ;
  t3 ← sum_of "difference_sums_2050" ;
  t4 ← sum_of "difference_sums_2000" ;
  t5 ← sum_difference "difference_sums_2050" "difference_sums_2000" ;
  bind (is_not_none "difference_mortality_2100") (λ b : bool,
  if b then
    t6 ← sum_of "baseline_sums_2100" ;
    t7 ← sum_of "nofire_sums_2100" ;
    t8 ← sum_of "difference_sums_2100" ;
    t9 ← sum_difference "difference_sums_2100" "difference_sums_2050" ;
    t10 ← sum_difference "difference_sums_2100" "difference_sums_2000" ;
    mret [t1; t2; t3; t4; t5; t6; t7; t8; t9; t10]
  else mret [t1; t2; t3; t4; t5]).

(** Cell 22: two lines; the second reads a variable [difference_sums]. *)
Definition cell_22 : M (list float) :=
  t1 ← sum_of "difference_sums_2000" ;
  t2 ← sum_difference "difference_sums" "difference_sums_2000" ;
  mret [t1; t2].

(** A cell run for its effects. *)
Definition void {A} (m : M A) : M unit := m ;; mret tt.

(** The code cells of the notebook that compute, through cell 22 (the cells
    after it draw maps). *)
Definition notebook (np_exp : float → float) (w : World) : list (M unit) :=
  pipeline np_exp w ++ [void cell_21; void cell_22].

(** ** Samples for the edge behaviour of the functions *)

(** A raster whose longitudes are named ['longitude']. *)
Definition grid_longitude : DataArray :=
  mkDataArray [0; 1]%Q "longitude" {[ "longitude" := [0; 270]%Q ]}
    [[1; 2]; [3; 4]]%float.

(** A global grid that closes the circle: it has both 0 and 360. *)
Definition grid_cyclic : DataArray :=
  mkDataArray [0; 1]%Q "lon" {[ "lon" := [0; 180; 360]%Q ]}
    [[1; 2; 3]; [4; 5; 6]]%float.

(** A raster already on ascending longitudes within [-180, 180]. *)
Definition grid_centered : DataArray :=
  mkDataArray [0; 1]%Q "lon" {[ "lon" := [-90; 0; 90; 180]%Q ]}
    [[4; 1; 2; 3]; [8; 5; 6; 7]]%float.

(** A raster without columns. *)
Definition grid_no_columns : DataArray :=
  mkDataArray [0; 1]%Q "lon" {[ "lon" := []%Q ]} [[]; []].

(** A record of the shapefile that has no attribute ['NAME']. *)
Definition nameless : ShapeRecord := mkShapeRecord square {[ "ADMIN" := "Squareland" ]}.

(** ** Vocabulary of the further properties *)

(** A computation that changes no variable and no file, and overwrites no
    object other than those at the addresses [own]. *)
Definition confined {A} (own : list nat) (m : M A) : Prop :=
  ∀ s, env (m s).2 = env s ∧ written (m s).2 = written s ∧
       ∀ a, a ∉ own → is_Some (heap s !! a) → heap (m s).2 !! a = heap s !! a.

(** A variable-and-file invariant: a property of the variables and of the
    files written that a computation preserves, whatever it does to the
    objects. *)
Definition keeps {A} (Q : gmap string pyval → list (string * Series) → Prop) (m : M A) : Prop :=
  ∀ s, Q (env s) (written s) → Q (env (m s).2) (written (m s).2).

(** The variable [difference_sums] was never assigned, and
    [difference_sums_2000], when it was, holds a Series. *)
Definition before_cell_22 (e : gmap string pyval) (wr : list (string * Series)) : Prop :=
  e !! "difference_sums" = None ∧
  (e !! "difference_sums_2000" = None ∨ ∃ sr, e !! "difference_sums_2000" = Some (PySeries sr)).

(** Nothing was written, and the variables [xs] were never assigned. *)
Definition untouched (xs : list string) (e : gmap string pyval) (wr : list (string * Series)) : Prop :=
  wr = [] ∧ Forall (λ x, e !! x = None) xs.

(** The variables that stay unassigned without the death rates, and without
    the no-fire raster of 2000. *)
Definition no_rate : list string :=
  ["death_rate"; "baseline_mortality_2050"; "baseline_mortality_2000"].

Definition no_nofire_2000 : list string :=
  ["nofire_pm25_2000"; "nofire_mortality_2000"].

(** The data directory holds no file besides those that cell 3 lists, under
    the names listed there. *)
Definition only_required_files (w : World) : Prop :=
  map_Forall (λ k _, k.1 ∈ path_join data_dir <$> required_files) (rasters w).

(** The files of 2050, the first that the notebook writes. *)
Definition files_2050 : list string :=
  [path_join (path_join data_dir "results") "total_smoke_deaths.csv";
   path_join (path_join data_dir "results") "nofire_smoke_deaths.csv";
   path_join (path_join data_dir "results") "fire_smoke_deaths.csv"].

(** A data directory that holds the files of the sample world under the
    names that cell 3 lists. *)
Definition listed_world : World :=
  mkWorld
    (<[(path_join data_dir "CESM_09x125_PM25_2000_BaseLine_NoFire.nc", "pm25")
       := grid_west [[1; 1]; [1; 1]]%float]>
       (delete (path_join data_dir "CESM_09x125_PM25_2000_Baseline_nofire.nc", "pm25")
          all_files))
    (Some two_countries).

(** The sample world without the file of the death rates. *)
Definition world_without_death_rate : World :=
  mkWorld (delete (path_join data_dir "death_rate.nc", "death_rate") all_files)
    (Some two_countries).

(** ** Vocabulary of a complete run *)

(** A state whose objects are [objs], in the order of their creation. *)
Definition st (objs : list DataArray) (e : gmap string pyval)
    (wr : list (string * Series)) : State :=
  mkState (map_seq 0 objs) e wr.

(** A raster on the grid [la] x [lo]. *)
Definition on_grid (la lo : list Q) (d : DataArray) : Prop :=
  raster d ∧ lat d = la ∧ xindex d = Some lo.

(** A raster with as many rows and columns as the grid [la] x [lo], on
    longitudes of its own, no two of them on one meridian. *)
Definition fits_grid (la lo : list Q) (d : DataArray) : Prop :=
  raster d ∧ length (lat d) = length la ∧
  ∃ lo', xindex d = Some lo' ∧ length lo' = length lo ∧
         is_unique (map adjust_lon lo') = true.

(** The file holds a raster with the property [P]. *)
Definition file_holds (w : World) (file var : string) (P : DataArray → Prop) : Prop :=
  ∃ d, rasters w !! (path_join data_dir file, var) = Some d ∧ P d.

(** [d] after [d['lat'] = ref['lat']; d['lon'] = ref['lon']]. *)
Definition relabelled (la lo : list Q) (d : DataArray) : DataArray :=
  mkDataArray la (xdim d) (<["lon" := lo]> (xcoords d)) (values d).

(** The sums of a raster over the countries of the shapefile. *)
Definition country_sums (d : DataArray) (lons : list Q) (recs : list ShapeRecord) : Series :=
  map (λ r, (default "" (NAME r), nansum (inside_values d lons (geometry r)))) recs.

(** The scenario of the specification with a gap in the population: no
    value in the first cell. *)
Definition missing_population : DataArray :=
  grid_2x2 [[nan; 1000]; [1000; 1000]]%float.

Definition gap_state : State :=
  heap_of [sample_concentration; sample_rate; missing_population].

(** [out] holds, cell by cell, the mortality of the concentration [c], the
    rate [r] and the population [p]. *)
Definition mortality_of (np_exp : float → float) (c r p out : DataArray) : Prop :=
  ∀ i j u v t,
    cell c i j = Some u → cell r i j = Some v → cell p i j = Some t →
    cell out i j = Some (v * response_cell np_exp u * t)%float.

(** [out] holds, cell by cell, the difference of [a] and [b]. *)
Definition difference_of (a b out : DataArray) : Prop :=
  ∀ i j u v,
    cell a i j = Some u → cell b i j = Some v → cell out i j = Some (u - v)%float.

(** The difference of two Series with the same labels. *)
Definition series_change (a b : Series) : Series :=
  zip_with (λ u v, (fst u, PrimFloat.sub (snd u) (snd v))) a b.

(** The directory of the results, and a file in it. *)
Definition results_dir : string := path_join data_dir "results".

Definition result_file (file : string) : string := path_join results_dir file.

(** The PM2.5 files as cells 10 and 11 open them, and the files of cell 12
    with the variable read from each. *)
Definition pm25_files : list string :=
  ["CESM_09x125_PM25_2050_RCP85.nc"; "CESM_09x125_PM25_2050_RCP85_NoFire.nc";
   "CESM_09x125_PM25_2100_RCP85.nc"; "CESM_09x125_PM25_2100_RCP85_NoFire.nc";
   "CESM_09x125_PM25_2000_Baseline.nc"; "CESM_09x125_PM25_2000_Baseline_nofire.nc"].

Definition rate_and_population_files : list (string * string) :=
  [("death_rate.nc", "death_rate"); ("ssp2_2000_matching.nc", "2000total");
   ("ssp2_2050_matching.nc", "ssp2_2050"); ("ssp2_2100_matching.nc", "ssp2_2100")].

(** Every file is there: the six PM2.5 rasters on one grid [la] x [lo] with
    at least one cell and no two longitudes on one meridian, the death rate
    and the populations with as many rows and columns. *)
Definition complete_data (w : World) (la lo : list Q) : Prop :=
  la ≠ [] ∧ lo ≠ [] ∧ is_unique (map adjust_lon lo) = true ∧
  Forall (λ f, file_holds w f "pm25" (on_grid la lo)) pm25_files ∧
  Forall (λ fv, file_holds w (fst fv) (snd fv) (fits_grid la lo)) rate_and_population_files.

(** The files of a complete run, in the order in which they are written. *)
Definition all_result_files : list string :=
  result_file <$>
    ["total_smoke_deaths.csv"; "nofire_smoke_deaths.csv"; "fire_smoke_deaths.csv";
     "total_smoke_deaths_2000.csv"; "nofire_smoke_deaths_2000.csv";
     "fire_smoke_deaths_2000.csv"; "fire_smoke_deaths_change_2000_2050.csv";
     "total_smoke_deaths_2100.csv"; "nofire_smoke_deaths_2100.csv";
     "fire_smoke_deaths_2100.csv"; "fire_smoke_deaths_change_2050_2100.csv";
     "fire_smoke_deaths_change_2000_2100.csv"].

(** The three mortality rasters of a year: with fire, without, and their
    difference, on the grid [la] x [lo]. *)
Definition year_mortality (np_exp : float → float) (la lo : list Q)
    (pm_baseline pm_nofire rate population : DataArray)
    (total nofire fire : DataArray) : Prop :=
  on_grid la lo total ∧ on_grid la lo nofire ∧ on_grid la lo fire ∧
  mortality_of np_exp pm_baseline rate population total ∧
  mortality_of np_exp pm_nofire rate population nofire ∧
  difference_of total nofire fire.

(** The PM2.5 files of 2050 and 2000. *)
Definition pm25_files_2050_2000 : list string :=
  ["CESM_09x125_PM25_2050_RCP85.nc"; "CESM_09x125_PM25_2050_RCP85_NoFire.nc";
   "CESM_09x125_PM25_2000_Baseline.nc"; "CESM_09x125_PM25_2000_Baseline_nofire.nc"].

(** Complete data but for the year 2100, whose PM2.5 file with fire is not
    there. *)
Definition data_without_2100 (w : World) (la lo : list Q) : Prop :=
  la ≠ [] ∧ lo ≠ [] ∧ is_unique (map adjust_lon lo) = true ∧
  rasters w !! (path_join data_dir "CESM_09x125_PM25_2100_RCP85.nc", "pm25") = None ∧
  Forall (λ f, file_holds w f "pm25" (on_grid la lo)) pm25_files_2050_2000 ∧
  Forall (λ fv, file_holds w (fst fv) (snd fv) (fits_grid la lo)) rate_and_population_files.

(** * Properties *)

Open Scope list_scope.

(** ** Comparisons on coordinates *)

Lemma Qeq_bool_refl (x : Q) : Qeq_bool x x = true.
Proof. apply Qeq_bool_iff. reflexivity. Qed.

Lemma Qeq_bool_sym (x y : Q) : Qeq_bool x y = Qeq_bool y x.
Proof.
  destruct (Qeq_bool x y) eqn:E, (Qeq_bool y x) eqn:F; try reflexivity.
  - apply Qeq_bool_iff in E. symmetry in E. apply Qeq_bool_iff in E. congruence.
  - apply Qeq_bool_iff in F. symmetry in F. apply Qeq_bool_iff in F. congruence.
Qed.

Lemma Qltb_lt (x y : Q) : Qltb x y = true ↔ (x < y)%Q.
Proof.
  unfold Qltb. rewrite negb_true_iff. split.
  - intros H. apply Qnot_le_lt. intros Hle. apply Qle_bool_iff in Hle. congruence.
  - intros H. destruct (Qle_bool y x) eqn:E; [|reflexivity].
    apply Qle_bool_iff in E. exfalso. exact (Qlt_not_le _ _ H E).
Qed.

Lemma Qltb_ge (x y : Q) : Qltb x y = false ↔ (y <= x)%Q.
Proof.
  unfold Qltb. rewrite negb_false_iff. apply Qle_bool_iff.
Qed.

Lemma index_equals_refl (a : list Q) : index_equals a a = true.
Proof. induction a as [|x a IH]; simpl; [reflexivity|]. by rewrite Qeq_bool_refl. Qed.

Lemma index_equals_sym (a b : list Q) : index_equals a b = index_equals b a.
Proof.
  revert b. induction a as [|x a IH]; intros [|y b]; simpl; try reflexivity.
  by rewrite Qeq_bool_sym, IH.
Qed.

Lemma index_equals_length (a b : list Q) :
  index_equals a b = true → length a = length b.
Proof.
  revert b. induction a as [|x a IH]; intros [|y b]; simpl; try done.
  intros [_ H]%andb_true_iff. f_equal. by apply IH.
Qed.

(** ** Taking positions *)

Lemma take_at_Forall2 {A} (l : list A) (pos : list nat) :
  Forall (λ i, i < length l) pos →
  Forall2 (λ i x, l !! i = Some x) pos (take_at l pos).
Proof.
  induction 1 as [|i pos Hi _ IH]; simpl; [constructor|].
  destruct (lookup_lt_is_Some_2 l i Hi) as [x Hx].
  unfold take_at in *. simpl. rewrite Hx. by constructor.
Qed.

Lemma take_at_length {A} (l : list A) (pos : list nat) :
  Forall (λ i, i < length l) pos → length (take_at l pos) = length pos.
Proof. intros H. symmetry. eapply Forall2_length, take_at_Forall2, H. Qed.

Lemma take_at_lookup {A} (l : list A) (pos : list nat) (k i : nat) :
  Forall (λ i, i < length l) pos →
  pos !! k = Some i → take_at l pos !! k = l !! i.
Proof.
  intros H Hk. pose proof (take_at_Forall2 l pos H) as HF.
  destruct (Forall2_lookup_l _ _ _ _ _ HF Hk) as (x & Hx & Hl). congruence.
Qed.

Lemma take_at_seq_from {A} (l' l : list A) :
  take_at (l' ++ l) (seq (length l') (length l)) = l.
Proof.
  revert l'. induction l as [|x l IH]; intros l'; [reflexivity|].
  unfold take_at in *. simpl. rewrite list_lookup_middle by reflexivity. f_equal.
  specialize (IH (l' ++ [x])). rewrite <- app_assoc, length_app in IH. simpl in IH.
  by rewrite Nat.add_1_r in IH.
Qed.

Lemma take_at_seq {A} (l : list A) : take_at l (seq 0 (length l)) = l.
Proof. exact (take_at_seq_from [] l). Qed.

Lemma take_at_rows_seq {A} (rows : list (list A)) (n : nat) :
  Forall (λ row, length row = n) rows →
  map (λ row, take_at row (seq 0 n)) rows = rows.
Proof.
  induction 1 as [|row rows Hrow _ IH]; simpl; [reflexivity|].
  rewrite IH. f_equal. subst n. apply take_at_seq.
Qed.

Lemma take_at_coords_seq (m : gmap string (list Q)) (n : nat) :
  map_Forall (λ _ c, length c = n) m →
  (λ c, take_at c (seq 0 n)) <$> m = m.
Proof.
  intros H. apply map_eq. intros k. rewrite lookup_fmap.
  destruct (m !! k) as [c|] eqn:E; simpl; [|reflexivity].
  f_equal. rewrite <- (H k c E). apply take_at_seq.
Qed.

(** ** Selections that keep everything *)

Lemma isel_rows_all (d : DataArray) :
  length (values d) = length (lat d) →
  isel_rows d (seq 0 (length (lat d))) = d.
Proof.
  intros H. destruct d as [la xd xc vs]. unfold isel_rows. simpl in *.
  rewrite take_at_seq. rewrite <- H, take_at_seq. reflexivity.
Qed.

Lemma isel_columns_all (d : DataArray) (idx : list Q) :
  Forall (λ row, length row = length idx) (values d) →
  map_Forall (λ _ c, length c = length idx) (xcoords d) →
  isel_columns d (seq 0 (length idx)) = d.
Proof.
  intros Hv Hc. destruct d as [la xd xc vs]. unfold isel_columns. simpl in *.
  by rewrite take_at_coords_seq, take_at_rows_seq.
Qed.

(** ** [mortality] *)

Section Mortality.

Variable np_exp : float → float.

Lemma response_values (c : DataArray) :
  values (response np_exp c) = map (map (response_cell np_exp)) (values c).
Proof.
  unfold response, da_map. simpl. rewrite !map_map.
  apply map_ext. intros row. rewrite !map_map. reflexivity.
Qed.

(** The function returns the product it computed, in a new object; the
    reassignment of ['lon'] changes nothing. *)
Lemma mortality_eval (s : State) (pm25 b population : nat)
    (c r p scaled product : DataArray) (lon : list Q) :
  heap s !! pm25 = Some c → heap s !! b = Some r → heap s !! population = Some p →
  da_binop PrimFloat.mul r (response np_exp c) = inr scaled →
  da_binop PrimFloat.mul scaled p = inr product →
  xdim product = "lon" → xindex product = Some lon →
  mortality np_exp pm25 b population s
  = (inr (fresh (dom (heap s))),
     mkState (<[fresh (dom (heap s)) := product]> (heap s)) (env s) (written s)).
Proof.
  intros Hc Hr Hp Hs Hq Hd Hi.
  unfold mortality, mbind, M_bind, bind, deref, lift, alloc, store, mret, M_ret, ret.
  rewrite Hr, Hc. fold (response np_exp c). rewrite Hs, Hp, Hq. simpl.
  unfold xindex in Hi. rewrite Hd in Hi.
  unfold getitem. simpl. rewrite Hi.
  unfold setitem. simpl. unfold xindex. rewrite Hd, Hi, Nat.eqb_refl. simpl.
  rewrite insert_insert_eq. do 3 f_equal.
  rewrite insert_id by done.
  destruct product as [la xd xc vs]. simpl in *. by subst xd.
Qed.

End Mortality.

(** ** Binary operations on equal grids *)

Lemma join_inner_equal (a b : list Q) :
  index_equals a b = true → join_inner a b = inr a.
Proof. intros H. unfold join_inner. by rewrite H. Qed.

Lemma reindex_positions_equal (a b : list Q) :
  index_equals a b = true → reindex_positions a b = seq 0 (length a).
Proof. intros H. unfold reindex_positions. by rewrite H. Qed.

Lemma da_binop_same_grid (f : float → float → float) (a b : DataArray) (ia ib : list Q) :
  wf_dataarray a → wf_dataarray b → xdim a = xdim b →
  xindex a = Some ia → xindex b = Some ib →
  index_equals (lat a) (lat b) = true → index_equals ia ib = true →
  da_binop f a b
  = inr (mkDataArray (lat a) (xdim a)
           (<[xdim a := ia]> (merge_coords (xcoords a) (xcoords b)))
           (zip_with (zip_with f) (values a) (values b))).
Proof.
  intros (Hla & ia' & Hia' & Hva & Hca) (Hlb & ib' & Hib' & Hvb & Hcb) Hd Hia Hib Hlat Hx.
  rewrite Hia in Hia'. injection Hia' as <-. rewrite Hib in Hib'. injection Hib' as <-.
  unfold da_binop. rewrite (proj2 (String.eqb_eq _ _) Hd). cbn [negb].
  rewrite Hia, Hib.
  rewrite (join_inner_equal _ _ Hlat), (join_inner_equal _ _ Hx).
  cbn [rbind]. cbv zeta.
  rewrite (reindex_positions_equal (lat a) (lat a)) by apply index_equals_refl.
  rewrite (reindex_positions_equal ia ia) by apply index_equals_refl.
  rewrite (reindex_positions_equal (lat b) (lat a)) by (by rewrite index_equals_sym).
  rewrite (reindex_positions_equal ib ia) by (by rewrite index_equals_sym).
  unfold reindexed. rewrite (isel_rows_all a), (isel_rows_all b) by done.
  by rewrite (isel_columns_all a ia), (isel_columns_all b ib).
Qed.

Lemma wf_da_map (f : float → float) (d : DataArray) :
  wf_dataarray d → wf_dataarray (da_map f d).
Proof.
  intros (Hl & idx & Hi & Hv & Hc). split; [simpl; by rewrite length_map|].
  exists idx. split; [exact Hi|]. split; [|exact Hc]. simpl.
  change (Forall (λ row, length row = length idx) (map f <$> values d)).
  apply Forall_fmap. eapply Forall_impl; [exact Hv|].
  intros row Hrow. simpl. by rewrite length_map.
Qed.

Lemma merge_coords_lengths (ma mb : gmap string (list Q)) (n : nat) :
  map_Forall (λ _ c, length c = n) ma →
  map_Forall (λ _ c, length c = n) mb →
  map_Forall (λ _ c, length c = n) (merge_coords ma mb).
Proof.
  intros Ha Hb k c. unfold merge_coords. rewrite lookup_merge.
  destruct (ma !! k) as [u|] eqn:Eu, (mb !! k) as [v|] eqn:Ev; simpl; try done.
  - destruct (index_equals u v); [|done]. intros [= <-]. by apply (Ha k).
  - intros [= <-]. by apply (Ha k).
  - intros [= <-]. by apply (Hb k).
Qed.

Lemma zip_rows_lengths {A B C} (f : A → B → C) (ra : list (list A)) (rb : list (list B)) (n : nat) :
  Forall (λ row, length row = n) ra → Forall (λ row, length row = n) rb →
  Forall (λ row, length row = n) (zip_with (zip_with f) ra rb).
Proof.
  intros Ha. revert rb. induction Ha as [|x ra Hx _ IH]; intros rb Hb; [constructor|].
  destruct Hb as [|y rb Hy Hb]; simpl; constructor.
  - rewrite length_zip_with. lia.
  - by apply IH.
Qed.

(** The result of a binary operation on equal grids is well formed. *)
Lemma wf_binop_same_grid (f : float → float → float) (a b : DataArray) (ia ib : list Q) :
  wf_dataarray a → wf_dataarray b →
  xindex a = Some ia → xindex b = Some ib →
  index_equals (lat a) (lat b) = true → index_equals ia ib = true →
  wf_dataarray (mkDataArray (lat a) (xdim a)
                  (<[xdim a := ia]> (merge_coords (xcoords a) (xcoords b)))
                  (zip_with (zip_with f) (values a) (values b))).
Proof.
  intros (Hla & ia' & Hia' & Hva & Hca) (Hlb & ib' & Hib' & Hvb & Hcb) Hia Hib Hlat Hx.
  rewrite Hia in Hia'. injection Hia' as <-. rewrite Hib in Hib'. injection Hib' as <-.
  apply index_equals_length in Hlat, Hx.
  split; [simpl; rewrite length_zip_with; lia|].
  exists ia. unfold xindex. simpl. rewrite lookup_insert_eq. split; [done|]. split.
  - apply zip_rows_lengths; [done|]. by rewrite Hx.
  - apply map_Forall_insert_2; [done|].
    apply merge_coords_lengths; [done|]. by rewrite Hx.
Qed.

Lemma same_grid_sym (a b : DataArray) : same_grid a b → same_grid b a.
Proof.
  intros (Hl & ia & ib & Ha & Hb & Hx). split; [by rewrite index_equals_sym|].
  exists ib, ia. by rewrite index_equals_sym.
Qed.

Lemma cell_zip_with (f : float → float → float) (ra rb : list (list float)) (i j : nat) (x y : float) :
  (row ← ra !! i ; row !! j) = Some x →
  (row ← rb !! i ; row !! j) = Some y →
  (row ← zip_with (zip_with f) ra rb !! i ; row !! j) = Some (f x y).
Proof.
  intros Ha Hb. rewrite lookup_zip_with.
  destruct (ra !! i) as [rowa|]; [|done]. destruct (rb !! i) as [rowb|]; [|done].
  simpl in *. rewrite lookup_zip_with. by rewrite Ha, Hb.
Qed.

Lemma cell_map (f : float → float) (rows : list (list float)) (i j : nat) (x : float) :
  (row ← rows !! i ; row !! j) = Some x →
  (row ← map (map f) rows !! i ; row !! j) = Some (f x).
Proof.
  intros H. change (map (map f) rows) with (map f <$> rows). rewrite list_lookup_fmap.
  destruct (rows !! i) as [row|]; [|done]. simpl in *.
  change (map f row) with (f <$> row). by rewrite list_lookup_fmap, H.
Qed.

(** C1. For every aligned triple of rasters (concentration, rate,
    population), [mortality] returns a raster on the same grid whose value
    at every cell [(i, j)] is
    [rate[i,j] * (1 - exp(-1.1 * concentration[i,j])) * population[i,j]]. *)
Theorem mortality_cellwise (np_exp : float → float) (s : State)
    (pm25 b population : nat) (c r p : DataArray) :
  heap s !! pm25 = Some c → heap s !! b = Some r → heap s !! population = Some p →
  raster c → raster r → raster p →
  same_grid c r → same_grid r p →
  ∃ (a : nat) (s' : State) (out : DataArray),
    mortality np_exp pm25 b population s = (inr a, s') ∧
    heap s' !! a = Some out ∧
    raster out ∧ lat out = lat r ∧ xindex out = xindex r ∧
    ∀ i j x y z,
      cell c i j = Some x → cell r i j = Some y → cell p i j = Some z →
      cell out i j = Some (y * response_cell np_exp x * z)%float.
Proof.
  intros Hc Hr Hp [Wc Dc] [Wr Dr] [Wp Dp] Gcr Grp.
  apply same_grid_sym in Gcr.
  destruct Gcr as (Lrc & ir & ic & Ir & Ic & Xrc).
  destruct Grp as (Lrp & ir' & ip & Ir' & Ip & Xrp).
  rewrite Ir in Ir'. injection Ir' as <-.
  assert (Wresp : wf_dataarray (response np_exp c))
    by (unfold response; by do 3 apply wf_da_map).
  assert (Hscaled := da_binop_same_grid PrimFloat.mul r (response np_exp c) ir ic
                       Wr Wresp (eq_trans Dr (eq_sym Dc)) Ir Ic Lrc Xrc).
  assert (Wscaled := wf_binop_same_grid PrimFloat.mul r (response np_exp c) ir ic
                       Wr Wresp Ir Ic Lrc Xrc).
  set (scaled := mkDataArray _ _ _ _) in Hscaled, Wscaled.
  assert (Iscaled : xindex scaled = Some ir) by apply lookup_insert_eq.
  assert (Hproduct := da_binop_same_grid PrimFloat.mul scaled p ir ip
                        Wscaled Wp (eq_trans Dr (eq_sym Dp)) Iscaled Ip Lrp Xrp).
  assert (Wproduct := wf_binop_same_grid PrimFloat.mul scaled p ir ip
                        Wscaled Wp Iscaled Ip Lrp Xrp).
  set (product := mkDataArray _ _ _ _) in Hproduct, Wproduct.
  assert (Iproduct : xindex product = Some ir) by apply lookup_insert_eq.
  eexists _, _, product. split.
  { eapply mortality_eval; eauto. }
  split; [apply lookup_insert_eq|].
  split; [by split|]. split; [reflexivity|]. split; [by rewrite Iproduct, Ir|].
  intros i j x y z Hx Hy Hz. unfold cell, product, scaled. cbn [values].
  apply cell_zip_with; [|exact Hz]. apply cell_zip_with; [exact Hy|].
  rewrite response_values. by apply cell_map.
Qed.

(** ** Labels and positions *)

Lemma Qeq_bool_trans (x y z : Q) :
  Qeq_bool x y = true → Qeq_bool y z = true → Qeq_bool x z = true.
Proof.
  rewrite !Qeq_bool_iff. intros H1 H2. by rewrite H1.
Qed.

Lemma Qmem_true (x : Q) (l : list Q) :
  Qmem x l = true ↔ ∃ y, y ∈ l ∧ Qeq_bool x y = true.
Proof.
  unfold Qmem. rewrite existsb_exists. setoid_rewrite list_elem_of_In. reflexivity.
Qed.

Lemma Qmem_elem (x : Q) (l : list Q) : x ∈ l → Qmem x l = true.
Proof. intros H. apply Qmem_true. exists x. split; [done|apply Qeq_bool_refl]. Qed.

Lemma Qmem_Qeq (x y : Q) (l : list Q) :
  Qeq_bool x y = true → Qmem x l = true → Qmem y l = true.
Proof.
  intros Hxy (z & Hz & Hxz)%Qmem_true. apply Qmem_true. exists z. split; [done|].
  eapply Qeq_bool_trans; [|exact Hxz]. by rewrite Qeq_bool_sym.
Qed.

Lemma get_loc_Some (index : list Q) (label : Q) (k : nat) :
  get_loc index label = Some k →
  ∃ x, index !! k = Some x ∧ Qeq_bool x label = true.
Proof.
  revert k. induction index as [|h index IH]; intros k; simpl; [done|].
  destruct (Qeq_bool h label) eqn:E.
  - intros [= <-]. by exists h.
  - destruct (get_loc index label) as [k'|]; [|done]. simpl. intros [= <-].
    by apply IH.
Qed.

Lemma get_loc_lt (index : list Q) (label : Q) (k : nat) :
  get_loc index label = Some k → k < length index.
Proof.
  intros (x & Hx & _)%get_loc_Some. by eapply lookup_lt_Some.
Qed.

Lemma get_loc_is_Some (index : list Q) (label : Q) :
  Qmem label index = true → is_Some (get_loc index label).
Proof.
  induction index as [|h index IH]; simpl; [done|].
  rewrite (Qeq_bool_sym label h).
  destruct (Qeq_bool h label); simpl; [by eexists|].
  intros H. destruct (IH H) as [k ->]. by eexists.
Qed.

(** On a unique index, a label is found where it stands. *)
Lemma get_loc_unique (index : list Q) (label x : Q) (k : nat) :
  is_unique index = true → index !! k = Some x → Qeq_bool x label = true →
  get_loc index label = Some k.
Proof.
  revert k. induction index as [|h index IH]; intros k; simpl; [done|].
  intros [Hh Hu]%andb_true_iff Hk Hx. destruct k as [|k]; simpl in Hk.
  - injection Hk as ->. by rewrite Hx.
  - destruct (Qeq_bool h label) eqn:E.
    + exfalso. apply negb_true_iff in Hh.
      assert (Qmem h index = true); [|congruence].
      apply Qmem_true. exists x. split; [by eapply list_elem_of_lookup_2|].
      eapply Qeq_bool_trans; [exact E|]. by rewrite Qeq_bool_sym.
    + by rewrite (IH k Hu Hk Hx).
Qed.

Lemma omap_Forall2 {A B} (f : A → option B) (l : list A) :
  Forall (λ x, is_Some (f x)) l → Forall2 (λ x y, f x = Some y) l (omap f l).
Proof.
  induction 1 as [|x l [y Hy] _ IH]; simpl; [constructor|].
  rewrite Hy. by constructor.
Qed.

Lemma index_equals_lookup (a b : list Q) (k : nat) (y : Q) :
  index_equals a b = true → b !! k = Some y →
  ∃ x, a !! k = Some x ∧ Qeq_bool x y = true.
Proof.
  revert b k. induction a as [|x a IH]; intros [|y' b] k; simpl; try done.
  intros [Hxy Hab]%andb_true_iff. destruct k as [|k]; simpl.
  - intros [= ->]. by exists x.
  - by apply IH.
Qed.

(** The positions to which an operand is reindexed are those of the joined
    labels in its own index. *)
Lemma reindex_positions_spec (index joined : list Q) :
  is_unique index = true →
  Forall (λ l, Qmem l index = true) joined →
  Forall2 (λ l k, get_loc index l = Some k) joined (reindex_positions index joined).
Proof.
  intros Hu Hj. unfold reindex_positions.
  destruct (index_equals index joined) eqn:E.
  - apply Forall2_same_length_lookup_2.
    + rewrite length_seq. symmetry. by apply index_equals_length.
    + intros i l k Hl [-> _]%lookup_seq. simpl.
      destruct (index_equals_lookup _ _ _ _ E Hl) as (x & Hx & Hxl).
      by eapply get_loc_unique.
  - apply omap_Forall2. eapply Forall_impl; [exact Hj|].
    intros l Hl. by apply get_loc_is_Some.
Qed.

(** ** The intersection of two indexes *)

Lemma elem_of_intersection (a b : list Q) (x : Q) :
  x ∈ intersection a b ↔ x ∈ a ∧ Qmem x b = true.
Proof.
  unfold intersection. rewrite list_elem_of_filter, Is_true_true. tauto.
Qed.

Lemma Qmem_intersection_l (a b : list Q) (x : Q) :
  Qmem x (intersection a b) = true → Qmem x a = true.
Proof.
  intros (y & [Hy _]%elem_of_intersection & Hxy)%Qmem_true.
  apply Qmem_true. by exists y.
Qed.

Lemma is_unique_intersection (a b : list Q) :
  is_unique a = true → is_unique (intersection a b) = true.
Proof.
  unfold intersection. induction a as [|x a IH]; simpl; [done|].
  intros [Hx Hu]%andb_true_iff. rewrite filter_cons.
  destruct (decide (Is_true (Qmem x b))); [|by apply IH].
  simpl. rewrite (IH Hu), andb_true_r.
  apply negb_true_iff in Hx. apply negb_true_iff.
  destruct (Qmem x (filter _ a)) eqn:E; [|done].
  apply (Qmem_intersection_l a b) in E. congruence.
Qed.

Lemma intersection_equal (a b : list Q) :
  index_equals a b = true → intersection a b = a.
Proof.
  intros H. unfold intersection.
  assert (Hall : Forall (λ x, Is_true (Qmem x b)) a).
  { apply Forall_lookup. intros k x Hx. apply Is_true_true.
    rewrite index_equals_sym in H.
    destruct (index_equals_lookup _ _ _ _ H Hx) as (y & Hy & Hyx).
    apply Qmem_true. exists y. split; [by eapply list_elem_of_lookup_2|].
    by rewrite Qeq_bool_sym. }
  clear H. induction Hall as [|x a Hx _ IH]; [done|].
  rewrite filter_cons. destruct (decide _); [|done]. by rewrite IH.
Qed.

Lemma join_inner_unique (a b : list Q) :
  is_unique a = true → is_unique b = true →
  join_inner a b = inr (intersection a b).
Proof.
  intros Ha Hb. unfold join_inner. destruct (index_equals a b) eqn:E.
  - by rewrite intersection_equal.
  - by rewrite Ha, Hb.
Qed.

(** ** Reindexing an operand to joined labels *)

Lemma positions_bounds (index joined : list Q) (pos : list nat) :
  Forall2 (λ l k, get_loc index l = Some k) joined pos →
  Forall (λ k, k < length index) pos.
Proof.
  induction 1 as [|l k joined pos Hk _ IH]; constructor; [|done].
  by eapply get_loc_lt.
Qed.

Lemma take_at_Forall {A} (P : A → Prop) (l : list A) (pos : list nat) :
  Forall P l → Forall P (take_at l pos).
Proof.
  intros H. unfold take_at. apply Forall_forall. intros x Hx.
  apply list_elem_of_omap in Hx as (i & _ & Hi).
  rewrite Forall_forall in H. apply H. by eapply list_elem_of_lookup_2.
Qed.

Section Reindexed.

Variables (d : DataArray) (idx joined_lat joined_x : list Q) (pr pc : list nat).

Hypothesis Hwf : wf_dataarray d.
Hypothesis Hidx : xindex d = Some idx.
Hypothesis Hpr : Forall2 (λ l k, get_loc (lat d) l = Some k) joined_lat pr.
Hypothesis Hpc : Forall2 (λ l k, get_loc idx l = Some k) joined_x pc.

Lemma reindexed_shape :
  length (values (reindexed d pr pc)) = length joined_lat ∧
  Forall (λ row, length row = length joined_x) (values (reindexed d pr pc)) ∧
  map_Forall (λ _ c, length c = length joined_x) (xcoords (reindexed d pr pc)).
Proof.
  destruct Hwf as (Hl & idx' & Hi & Hv & Hc).
  rewrite Hidx in Hi. injection Hi as <-.
  pose proof (positions_bounds _ _ _ Hpr) as Bpr.
  pose proof (positions_bounds _ _ _ Hpc) as Bpc.
  pose proof (Forall2_length _ _ _ Hpr) as Lpr.
  pose proof (Forall2_length _ _ _ Hpc) as Lpc.
  unfold reindexed, isel_columns, isel_rows. simpl. split; [|split].
  - rewrite length_map, take_at_length; [lia|]. by rewrite Hl.
  - change (Forall (λ row, length row = length joined_x)
              ((λ row, take_at row pc) <$> take_at (values d) pr)).
    apply Forall_fmap. eapply Forall_impl; [apply take_at_Forall, Hv|].
    intros row Hrow. simpl. rewrite take_at_length; [lia|]. by rewrite Hrow.
  - apply map_Forall_fmap. intros k c Hk. simpl.
    rewrite take_at_length; [lia|]. by rewrite (Hc k c Hk).
Qed.

Lemma reindexed_cell (i j : nat) (la lo : Q) :
  joined_lat !! i = Some la → joined_x !! j = Some lo →
  ∃ x, cell_at d la lo = Some x ∧ cell (reindexed d pr pc) i j = Some x.
Proof.
  intros Hi Hj.
  destruct Hwf as (Hl & idx' & Hi' & Hv & Hc).
  rewrite Hidx in Hi'. injection Hi' as <-.
  pose proof (positions_bounds _ _ _ Hpr) as Bpr.
  pose proof (positions_bounds _ _ _ Hpc) as Bpc.
  destruct (Forall2_lookup_l _ _ _ _ _ Hpr Hi) as (k & Hk & Hlk).
  destruct (Forall2_lookup_l _ _ _ _ _ Hpc Hj) as (kx & Hkx & Hlkx).
  assert (Hkb : k < length (values d)) by (rewrite Hl; by eapply get_loc_lt).
  destruct (lookup_lt_is_Some_2 _ _ Hkb) as [row Hrow].
  assert (Hlen : length row = length idx).
  { rewrite Forall_lookup in Hv. by eapply Hv. }
  assert (Hkxb : kx < length row) by (rewrite Hlen; by eapply get_loc_lt).
  destruct (lookup_lt_is_Some_2 _ _ Hkxb) as [x Hx].
  exists x. split.
  - unfold cell_at, cell. rewrite Hlk, Hidx. simpl. rewrite Hlkx. simpl.
    rewrite Hrow. simpl. exact Hx.
  - unfold cell, reindexed, isel_columns, isel_rows. simpl.
    change (map (λ row, take_at row pc) (take_at (values d) pr))
      with ((λ row, take_at row pc) <$> take_at (values d) pr).
    rewrite list_lookup_fmap, (take_at_lookup _ _ _ _ ltac:(by rewrite Hl) Hk), Hrow.
    simpl. rewrite (take_at_lookup _ _ _ _ ltac:(by rewrite Hlen) Hkx). exact Hx.
Qed.

End Reindexed.

(** ** Binary operations under the inner join *)

Lemma intersection_Qmem_l (a b : list Q) :
  Forall (λ l, Qmem l a = true) (intersection a b).
Proof.
  apply Forall_forall. intros x [Hx _]%elem_of_intersection. by apply Qmem_elem.
Qed.

Lemma intersection_Qmem_r (a b : list Q) :
  Forall (λ l, Qmem l b = true) (intersection a b).
Proof.
  apply Forall_forall. by intros x [_ Hx]%elem_of_intersection.
Qed.

(** On operands with duplicate-free indexes a binary operation never
    raises: the result lives on the labels common to both, and each of its
    cells combines the two cells that bear its labels. *)
Lemma da_binop_inner (f : float → float → float) (a b : DataArray) (ia ib : list Q) :
  wf_dataarray a → wf_dataarray b → xdim a = xdim b →
  xindex a = Some ia → xindex b = Some ib →
  is_unique (lat a) = true → is_unique (lat b) = true →
  is_unique ia = true → is_unique ib = true →
  ∃ out, da_binop f a b = inr out ∧
    wf_dataarray out ∧ xdim out = xdim a ∧
    lat out = intersection (lat a) (lat b) ∧
    xindex out = Some (intersection ia ib) ∧
    ∀ i j la lo,
      lat out !! i = Some la → intersection ia ib !! j = Some lo →
      ∃ x y, cell_at a la lo = Some x ∧ cell_at b la lo = Some y ∧
             cell out i j = Some (f x y).
Proof.
  intros Wa Wb Hd Hia Hib Ula Ulb Uia Uib.
  unfold da_binop. rewrite (proj2 (String.eqb_eq _ _) Hd). cbn [negb].
  rewrite Hia, Hib, !join_inner_unique by done. cbn [rbind]. cbv zeta.
  set (jl := intersection (lat a) (lat b)). set (jx := intersection ia ib).
  assert (Pla := reindex_positions_spec (lat a) jl Ula (intersection_Qmem_l _ _)).
  assert (Plb := reindex_positions_spec (lat b) jl Ulb (intersection_Qmem_r _ _)).
  assert (Pxa := reindex_positions_spec ia jx Uia (intersection_Qmem_l _ _)).
  assert (Pxb := reindex_positions_spec ib jx Uib (intersection_Qmem_r _ _)).
  destruct (reindexed_shape a ia jl jx _ _ Wa Hia Pla Pxa) as (Sa1 & Sa2 & Sa3).
  destruct (reindexed_shape b ib jl jx _ _ Wb Hib Plb Pxb) as (Sb1 & Sb2 & Sb3).
  eexists. split; [reflexivity|].
  assert (Hx : ∀ m : gmap string (list Q), (<[xdim a := jx]> m) !! xdim a = Some jx)
    by (intros m; apply lookup_insert_eq).
  split; [|split; [done|split; [done|split; [apply Hx|]]]].
  - split; [cbn [values lat]; rewrite length_zip_with, Sa1, Sb1; lia|].
    exists jx. split; [apply Hx|]. split.
    + by apply zip_rows_lengths.
    + apply map_Forall_insert_2; [done|]. by apply merge_coords_lengths.
  - intros i j la lo Hi Hj. simpl in Hi.
    destruct (reindexed_cell a ia jl jx _ _ Wa Hia Pla Pxa i j la lo Hi Hj) as (x & Hx1 & Hx2).
    destruct (reindexed_cell b ib jl jx _ _ Wb Hib Plb Pxb i j la lo Hi Hj) as (y & Hy1 & Hy2).
    exists x, y. split; [done|]. split; [done|].
    unfold cell. cbn [values]. by apply cell_zip_with.
Qed.

Lemma get_loc_Qeq (index : list Q) (l l' : Q) :
  Qeq_bool l l' = true → get_loc index l = get_loc index l'.
Proof.
  intros H. induction index as [|h index IH]; simpl; [done|].
  rewrite IH. destruct (Qeq_bool h l) eqn:E, (Qeq_bool h l') eqn:E'; try done.
  - by rewrite (Qeq_bool_trans _ _ _ E H) in E'.
  - rewrite Qeq_bool_sym in H. by rewrite (Qeq_bool_trans _ _ _ E' H) in E.
Qed.

Lemma cell_at_Qeq (d : DataArray) (la la' lo lo' : Q) :
  Qeq_bool la la' = true → Qeq_bool lo lo' = true →
  cell_at d la lo = cell_at d la' lo'.
Proof.
  intros Ha Ho. unfold cell_at. rewrite (get_loc_Qeq _ _ _ Ha).
  destruct (get_loc (lat d) la'); [|done]. simpl.
  destruct (xindex d); [|done]. simpl. by rewrite (get_loc_Qeq _ _ _ Ho).
Qed.

Lemma cell_da_map (f : float → float) (d : DataArray) (i j : nat) :
  cell (da_map f d) i j = f <$> cell d i j.
Proof.
  unfold cell, da_map. cbn [values].
  change (map (map f) (values d)) with (map f <$> values d).
  rewrite list_lookup_fmap. destruct (values d !! i) as [row|]; [|done]. simpl.
  change (map f row) with (f <$> row). by rewrite list_lookup_fmap.
Qed.

Lemma cell_at_da_map (f : float → float) (d : DataArray) (la lo : Q) :
  cell_at (da_map f d) la lo = f <$> cell_at d la lo.
Proof.
  unfold cell_at. change (lat (da_map f d)) with (lat d).
  change (xindex (da_map f d)) with (xindex d).
  destruct (get_loc (lat d) la); [|done]. simpl.
  destruct (xindex d) as [idx|]; [|done]. simpl.
  destruct (get_loc idx lo); [|done]. simpl. apply cell_da_map.
Qed.

Lemma cell_at_response (np_exp : float → float) (c : DataArray) (la lo : Q) :
  cell_at (response np_exp c) la lo = response_cell np_exp <$> cell_at c la lo.
Proof.
  unfold response. rewrite !cell_at_da_map.
  by destruct (cell_at c la lo).
Qed.

(** A cell read by position is the cell read by its labels, on unique
    indexes. *)
Lemma cell_at_position (d : DataArray) (idx : list Q) (i j : nat) (la lo : Q) :
  xindex d = Some idx → is_unique (lat d) = true → is_unique idx = true →
  lat d !! i = Some la → idx !! j = Some lo →
  cell_at d la lo = cell d i j.
Proof.
  intros Hi Ul Ux Hla Hlo. unfold cell_at.
  rewrite (get_loc_unique _ _ _ _ Ul Hla (Qeq_bool_refl la)), Hi. simpl.
  by rewrite (get_loc_unique _ _ _ _ Ux Hlo (Qeq_bool_refl lo)).
Qed.

(** C4, as the code has it. On rasters whose coordinate arrays have no
    repeated label, [mortality] never raises, whether or not the three
    grids agree: it returns a raster on the labels common to the three
    inputs (in the order of the rate raster), and the value at each such
    pair of labels is the formula applied to the three cells that bear these
    labels. No cell is interpolated, none is broadcast; labels that are not
    common to the three inputs are silently left out. *)
Theorem mortality_inner_join (np_exp : float → float) (s : State)
    (pm25 b population : nat) (c r p : DataArray) (ic ir ip : list Q) :
  heap s !! pm25 = Some c → heap s !! b = Some r → heap s !! population = Some p →
  raster c → raster r → raster p →
  xindex c = Some ic → xindex r = Some ir → xindex p = Some ip →
  is_unique (lat c) = true → is_unique (lat r) = true → is_unique (lat p) = true →
  is_unique ic = true → is_unique ir = true → is_unique ip = true →
  ∃ (a : nat) (s' : State) (out : DataArray),
    mortality np_exp pm25 b population s = (inr a, s') ∧
    heap s' !! a = Some out ∧
    raster out ∧
    lat out = intersection (intersection (lat r) (lat c)) (lat p) ∧
    xindex out = Some (intersection (intersection ir ic) ip) ∧
    ∀ i j la lo,
      lat out !! i = Some la →
      intersection (intersection ir ic) ip !! j = Some lo →
      ∃ x y z,
        cell_at c la lo = Some x ∧ cell_at r la lo = Some y ∧
        cell_at p la lo = Some z ∧
        cell out i j = Some (y * response_cell np_exp x * z)%float.
Proof.
  intros Hc Hr Hp [Wc Dc] [Wr Dr] [Wp Dp] Ic Ir Ip Ulc Ulr Ulp Uic Uir Uip.
  assert (Wresp : wf_dataarray (response np_exp c))
    by (unfold response; by do 3 apply wf_da_map).
  destruct (da_binop_inner PrimFloat.mul r (response np_exp c) ir ic
              Wr Wresp (eq_trans Dr (eq_sym Dc)) Ir Ic Ulr Ulc Uir Uic)
    as (scaled & Hscaled & Wscaled & Dscaled & Lscaled & Iscaled & Cscaled).
  change (lat (response np_exp c)) with (lat c) in Lscaled.
  assert (Uls : is_unique (lat scaled) = true)
    by (rewrite Lscaled; by apply is_unique_intersection).
  assert (Uis : is_unique (intersection ir ic) = true)
    by (by apply is_unique_intersection).
  destruct (da_binop_inner PrimFloat.mul scaled p _ ip
              Wscaled Wp (eq_trans Dscaled (eq_trans Dr (eq_sym Dp)))
              Iscaled Ip Uls Ulp Uis Uip)
    as (product & Hproduct & Wproduct & Dproduct & Lproduct & Iproduct & Cproduct).
  eexists _, _, product. split.
  { eapply mortality_eval; eauto. congruence. }
  split; [apply lookup_insert_eq|].
  split; [split; [done|congruence]|].
  split; [by rewrite Lproduct, Lscaled|]. split; [done|].
  intros i j la lo Hi Hj.
  destruct (Cproduct i j la lo Hi Hj) as (w & z & Hw & Hz & Hout).
  (* the cell of the intermediate product that bears these labels *)
  assert (Hla : la ∈ lat scaled).
  { rewrite Lproduct in Hi. apply list_elem_of_lookup_2 in Hi.
    by apply elem_of_intersection in Hi as [? _]. }
  assert (Hlo : lo ∈ intersection ir ic).
  { apply list_elem_of_lookup_2 in Hj. by apply elem_of_intersection in Hj as [? _]. }
  apply list_elem_of_lookup_1 in Hla as [i' Hi'].
  apply list_elem_of_lookup_1 in Hlo as [j' Hj'].
  destruct (Cscaled i' j' la lo Hi' Hj') as (y & v & Hy & Hv & Hcell).
  rewrite (cell_at_position scaled _ i' j' la lo Iscaled Uls Uis Hi' Hj'), Hcell in Hw.
  injection Hw as <-.
  rewrite cell_at_response in Hv.
  destruct (cell_at c la lo) as [x|] eqn:Hx; [|done]. injection Hv as <-.
  by exists x, y, z.
Qed.

(** ** [sorted] *)

Lemma insert_sorted_Permutation (x : Q) (l : list Q) : insert_sorted x l ≡ₚ x :: l.
Proof.
  induction l as [|y l IH]; simpl; [done|].
  destruct (Qltb y x); [|done]. rewrite IH. apply Permutation_swap.
Qed.

Lemma sorted_Permutation (l : list Q) : sorted l ≡ₚ l.
Proof.
  induction l as [|x l IH]; simpl; [done|].
  by rewrite insert_sorted_Permutation, IH.
Qed.

Lemma insert_sorted_StronglySorted (x : Q) (l : list Q) :
  StronglySorted Qle l → StronglySorted Qle (insert_sorted x l).
Proof.
  induction 1 as [|y l Hs IH Hy]; simpl; [repeat constructor|].
  destruct (Qltb y x) eqn:E.
  - constructor; [done|].
    rewrite insert_sorted_Permutation. constructor; [|done].
    apply Qltb_lt in E. by apply Qlt_le_weak.
  - apply Qltb_ge in E. constructor; [by constructor|].
    constructor; [done|]. eapply Forall_impl; [exact Hy|].
    intros z Hz. simpl in Hz. by eapply Qle_trans.
Qed.

Lemma sorted_StronglySorted (l : list Q) : StronglySorted Qle (sorted l).
Proof.
  induction l as [|x l IH]; simpl; [constructor|].
  by apply insert_sorted_StronglySorted.
Qed.

(** Sorting a list that is already in ascending order returns it. *)
Lemma sorted_ascending (l : list Q) : StronglySorted Qle l → sorted l = l.
Proof.
  induction 1 as [|x l Hs IH Hx]; simpl; [done|]. rewrite IH.
  destruct Hx as [|y l Hy _]; simpl; [done|].
  by rewrite (proj2 (Qltb_ge _ _) Hy).
Qed.

Lemma sorted_idempotent (l : list Q) : sorted (sorted l) = sorted l.
Proof. apply sorted_ascending, sorted_StronglySorted. Qed.

(** ** Unique indexes *)

Lemma Qmem_Permutation (x : Q) (l l' : list Q) : l ≡ₚ l' → Qmem x l = Qmem x l'.
Proof.
  intros H. destruct (Qmem x l) eqn:E, (Qmem x l') eqn:E'; try done.
  - apply Qmem_true in E as (y & Hy & Hxy). rewrite H in Hy.
    assert (Qmem x l' = true) by (apply Qmem_true; eauto). congruence.
  - apply Qmem_true in E' as (y & Hy & Hxy). rewrite <- H in Hy.
    assert (Qmem x l = true) by (apply Qmem_true; eauto). congruence.
Qed.

Lemma is_unique_Permutation (l l' : list Q) : l ≡ₚ l' → is_unique l = is_unique l'.
Proof.
  induction 1 as [|x l l' H IH|x y l|l l' l'' _ IH1 _ IH2]; simpl.
  - done.
  - by rewrite IH, (Qmem_Permutation x l l' H).
  - rewrite (Qeq_bool_sym y x).
    destruct (Qeq_bool x y), (Qmem x l), (Qmem y l), (is_unique l); done.
  - congruence.
Qed.

Lemma is_unique_NoDup (l : list Q) : is_unique l = true → NoDup l.
Proof.
  induction l as [|x l IH]; simpl; [constructor|].
  intros [Hx Hu]%andb_true_iff. constructor; [|by apply IH].
  intros Hin. apply Qmem_elem in Hin. apply negb_true_iff in Hx. congruence.
Qed.

(** On a unique index, a label that stands in the index is found at its
    own position, and nowhere else. *)
Lemma get_loc_elem (index : list Q) (l : Q) (k : nat) :
  is_unique index = true → l ∈ index →
  get_loc index l = Some k ↔ index !! k = Some l.
Proof.
  intros Hu [k0 Hk0]%list_elem_of_lookup_1.
  pose proof (get_loc_unique _ _ _ _ Hu Hk0 (Qeq_bool_refl l)) as H0.
  split.
  - intros H. rewrite H0 in H. by injection H as <-.
  - intros H. rewrite H0. f_equal.
    by eapply NoDup_lookup; [apply is_unique_NoDup, Hu| |].
Qed.

Lemma sorted_strict (l : list Q) :
  is_unique l = true → StronglySorted Qlt (sorted l).
Proof.
  intros Hu. rewrite (is_unique_Permutation _ _ (symmetry (sorted_Permutation l))) in Hu.
  induction (sorted_StronglySorted l) as [|x l' Hs IH Hx]; [constructor|].
  simpl in Hu. apply andb_true_iff in Hu as [Hx' Hu]. apply negb_true_iff in Hx'.
  constructor; [by apply IH|].
  apply Forall_forall. intros y Hy. rewrite Forall_forall in Hx.
  destruct (Qle_lt_or_eq _ _ (Hx y Hy)) as [|Heq]; [done|].
  exfalso. assert (Qmem x l' = true); [|congruence].
  apply Qmem_true. exists y. split; [done|]. by apply Qeq_bool_iff.
Qed.

(** ** The positions at which [sel] takes the sorted labels *)

Lemma omap_Forall2_strong {A B} (f : A → option B) (P : A → B → Prop) (l : list A) :
  Forall (λ x, ∃ y, f x = Some y ∧ P x y) l → Forall2 P l (omap f l).
Proof.
  induction 1 as [|x l (y & Hy & HP) _ IH]; simpl; [constructor|].
  rewrite Hy. by constructor.
Qed.

Lemma sort_positions_spec (index : list Q) :
  is_unique index = true →
  Forall2 (λ l k, index !! k = Some l ∧ get_loc index l = Some k)
    (sorted index) (sort_positions index).
Proof.
  intros Hu. unfold sort_positions. apply omap_Forall2_strong.
  apply Forall_forall. intros l Hl. rewrite sorted_Permutation in Hl.
  apply list_elem_of_lookup_1 in Hl as [k Hk]. exists k.
  by rewrite (get_loc_unique _ _ _ _ Hu Hk (Qeq_bool_refl l)).
Qed.

Lemma take_at_cons {A} (l : list A) (k : nat) (pos : list nat) :
  take_at l (k :: pos)
  = match l !! k with Some x => x :: take_at l pos | None => take_at l pos end.
Proof. reflexivity. Qed.

Lemma take_at_positions {A} (l ls : list A) (pos : list nat) :
  Forall2 (λ x k, l !! k = Some x) ls pos → take_at l pos = ls.
Proof.
  induction 1 as [|x k ls pos Hk _ IH]; [done|].
  by rewrite take_at_cons, Hk, IH.
Qed.

Lemma take_at_sort_positions (index : list Q) :
  is_unique index = true → take_at index (sort_positions index) = sorted index.
Proof.
  intros Hu. apply take_at_positions.
  eapply Forall2_impl; [apply sort_positions_spec, Hu|]. by intros l k [? _].
Qed.

Lemma sort_positions_length (index : list Q) :
  is_unique index = true → length (sort_positions index) = length index.
Proof.
  intros Hu. rewrite <- (Forall2_length _ _ _ (sort_positions_spec index Hu)).
  by rewrite sorted_Permutation.
Qed.

(** The positions are a permutation of the columns. *)
Lemma sort_positions_Permutation (index : list Q) :
  is_unique index = true → sort_positions index ≡ₚ seq 0 (length index).
Proof.
  intros Hu. pose proof (sort_positions_spec index Hu) as HF.
  pose proof (is_unique_NoDup _ Hu) as Hnd.
  assert (Hnds : NoDup (sorted index)) by (by rewrite sorted_Permutation).
  apply NoDup_Permutation; [|apply NoDup_seq|].
  - apply NoDup_alt. intros i j k Hi Hj.
    destruct (Forall2_lookup_r _ _ _ _ _ HF Hi) as (l1 & Hl1 & Hk1 & _).
    destruct (Forall2_lookup_r _ _ _ _ _ HF Hj) as (l2 & Hl2 & Hk2 & _).
    rewrite Hk1 in Hk2. injection Hk2 as <-.
    by eapply NoDup_lookup.
  - intros k. rewrite elem_of_seq. split.
    + intros [j Hj]%list_elem_of_lookup_1.
      destruct (Forall2_lookup_r _ _ _ _ _ HF Hj) as (l & _ & Hk & _).
      apply lookup_lt_Some in Hk. lia.
    + intros [_ Hk]. simpl in Hk.
      destruct (lookup_lt_is_Some_2 _ _ Hk) as [l Hl].
      assert (Hin : l ∈ sorted index)
        by (rewrite sorted_Permutation; by eapply list_elem_of_lookup_2).
      apply list_elem_of_lookup_1 in Hin as [j Hj].
      destruct (Forall2_lookup_l _ _ _ _ _ HF Hj) as (k' & Hk' & Hl' & _).
      assert (k' = k) as -> by exact (NoDup_lookup index k' k l Hnd Hl' Hl).
      by eapply list_elem_of_lookup_2.
Qed.

Lemma rmapM_positions (index labels : list Q) (pos : list nat) (e : exn) :
  Forall2 (λ l k, get_loc index l = Some k) labels pos →
  rmapM (λ l, match get_loc index l with Some i => inr i | None => inl e end) labels
  = inr pos.
Proof.
  induction 1 as [|l k labels pos Hk _ IH]; simpl; [done|].
  by rewrite Hk, IH.
Qed.

Lemma get_indexer_sorted (index : list Q) :
  is_unique index = true →
  get_indexer index (sorted index) = inr (sort_positions index).
Proof.
  intros Hu. unfold get_indexer. rewrite Hu. apply rmapM_positions.
  eapply Forall2_impl; [apply sort_positions_spec, Hu|]. by intros l k [_ ?].
Qed.

(** ** [fix_lon] *)

Lemma fix_lon_eval (s : State) (ds : nat) (d : DataArray) (lons : list Q) :
  heap s !! ds = Some d → xdim d = "lon" → xcoords d !! "lon" = Some lons →
  is_unique (map adjust_lon lons) = true →
  let h' := <[ds := with_adjusted d lons]> (heap s) in
  fix_lon ds s
  = (inr (fresh (dom h')),
     mkState (<[fresh (dom h') := normalized d lons]> h') (env s) (written s)).
Proof.
  intros Hd Hx Hl Hu.
  unfold fix_lon, mbind, M_bind, bind, deref, lift, alloc, store.
  rewrite Hd. unfold getitem at 1. unfold lon_name. simpl. rewrite Hl.
  unfold setitem. simpl. unfold xindex. rewrite Hx, Hl, length_map, Nat.eqb_refl.
  simpl. unfold swap_dims. simpl. rewrite lookup_insert_eq.
  unfold getitem. simpl. rewrite lookup_insert_eq.
  unfold sel. simpl. unfold xindex. simpl. rewrite lookup_insert_eq.
  rewrite get_indexer_sorted by done. simpl.
  unfold drop. simpl. rewrite lookup_fmap, lookup_insert_ne, Hl by done. simpl.
  unfold rename. simpl.
  rewrite lookup_delete_ne, lookup_fmap, lookup_insert_eq by done. simpl.
  rewrite lookup_delete_eq. unfold with_adjusted, normalized. by rewrite Hx.
Qed.

Lemma Permutation_seq_bounds (pos : list nat) (n : nat) :
  pos ≡ₚ seq 0 n → Forall (λ k, k < n) pos.
Proof.
  intros H. apply Forall_forall. intros k Hk. rewrite H in Hk.
  apply elem_of_seq in Hk. lia.
Qed.

(** The object [fix_lon] returns is well formed. *)
Lemma normalized_wf (d : DataArray) (lons : list Q) :
  wf_dataarray d → xindex d = Some lons →
  is_unique (map adjust_lon lons) = true →
  wf_dataarray (normalized d lons).
Proof.
  intros (Hl & idx & Hi & Hv & Hc) Hx Hu.
  rewrite Hx in Hi. injection Hi as <-.
  set (adj := map adjust_lon lons) in *.
  assert (Hn : length adj = length lons) by apply length_map.
  pose proof (sort_positions_Permutation adj Hu) as Hperm.
  pose proof (Permutation_seq_bounds _ _ Hperm) as Hb.
  pose proof (sort_positions_length adj Hu) as Hlen.
  unfold normalized. fold adj. cbv zeta.
  split; [cbn [values lat]; by rewrite length_map|].
  exists (take_at adj (sort_positions adj)).
  split; [apply lookup_insert_eq|].
  rewrite (take_at_length adj) by done. cbn [values xcoords]. split.
  - change (map (λ row, take_at row (sort_positions adj)) (values d))
      with ((λ row, take_at row (sort_positions adj)) <$> values d).
    apply Forall_fmap. eapply Forall_impl; [exact Hv|].
    intros row Hrow. simpl. apply take_at_length. by rewrite Hrow, <- Hn.
  - apply map_Forall_insert_2; [by apply take_at_length|].
    do 2 apply map_Forall_delete. apply map_Forall_fmap.
    apply map_Forall_insert_2.
    + simpl. by apply take_at_length.
    + intros k c Hk. simpl. apply take_at_length. by rewrite (Hc k c Hk), <- Hn.
Qed.

(** X22. [fix_lon] relabels, it does not interpolate. On every raster on
    which it returns (no two longitudes adjust to the same value) the
    result has the latitudes and the cell count of the input and strictly
    ascending longitudes, and its columns are the input's columns permuted:
    the column now labelled [lon'] holds, row by row, the values of the
    input column whose longitude adjusts to [lon']. *)
Theorem fix_lon_relabels (s : State) (ds : nat) (d : DataArray) (lons : list Q) :
  heap s !! ds = Some d → raster d → xindex d = Some lons →
  is_unique (map adjust_lon lons) = true →
  ∃ (a : nat) (s' : State) (out : DataArray) (lons' : list Q),
    fix_lon ds s = (inr a, s') ∧ heap s' !! a = Some out ∧
    raster out ∧ lat out = lat d ∧ xindex out = Some lons' ∧
    StronglySorted Qlt lons' ∧
    length lons' = length lons ∧ length (values out) = length (values d) ∧
    ∃ pos : list nat, pos ≡ₚ seq 0 (length lons) ∧
      ∀ j j0, pos !! j = Some j0 →
        lons' !! j = adjust_lon <$> lons !! j0 ∧
        ∀ i, cell out i j = cell d i j0.
Proof.
  intros Hd [Wd Dd] Hx Hu.
  assert (Hl : xcoords d !! "lon" = Some lons) by (by rewrite <- Dd).
  pose proof (fix_lon_eval s ds d lons Hd Dd Hl Hu) as Hrun. cbv zeta in Hrun.
  set (adj := map adjust_lon lons) in *.
  assert (Hn : length adj = length lons) by apply length_map.
  pose proof (sort_positions_Permutation adj Hu) as Hperm.
  pose proof (Permutation_seq_bounds _ _ Hperm) as Hb.
  pose proof (take_at_sort_positions adj Hu) as Htake.
  eexists _, _, (normalized d lons), (sorted adj).
  split; [exact Hrun|]. split; [apply lookup_insert_eq|].
  split; [split; [by apply normalized_wf|done]|].
  split; [done|].
  split; [unfold xindex, normalized; cbn [xdim xcoords]; fold adj;
          by rewrite lookup_insert_eq, Htake|].
  split; [by apply sorted_strict|].
  split; [by rewrite sorted_Permutation|].
  split; [unfold normalized; cbn [values]; by rewrite length_map|].
  exists (sort_positions adj). split; [by rewrite Hperm, Hn|].
  intros j j0 Hj. split.
  - rewrite <- Htake, (take_at_lookup adj _ j j0 Hb Hj).
    apply list_lookup_fmap.
  - intros i. unfold cell, normalized. cbn [values]. fold adj.
    change (map (λ row, take_at row (sort_positions adj)) (values d))
      with ((λ row, take_at row (sort_positions adj)) <$> values d).
    rewrite list_lookup_fmap.
    destruct (values d !! i) as [row|] eqn:Hrow; [|done]. simpl.
    apply take_at_lookup; [|done].
    destruct Wd as (_ & idx & Hi & Hv & _). rewrite Hx in Hi. injection Hi as <-.
    rewrite Forall_lookup in Hv. by rewrite (Hv i row Hrow), <- Hn.
Qed.

Lemma adjust_lon_fixed (x : Q) : (x <= 180)%Q → adjust_lon x = x.
Proof. intros H. unfold adjust_lon. by rewrite (proj2 (Qltb_ge _ _) H). Qed.

Lemma adjust_lon_le (x : Q) : (x <= 540)%Q → (adjust_lon x <= 180)%Q.
Proof.
  intros H. unfold adjust_lon. destruct (Qltb 180 x) eqn:E.
  - lra.
  - by apply Qltb_ge in E.
Qed.

Lemma map_adjust_lon_fixed (l : list Q) :
  Forall (λ x, (x <= 180)%Q) l → map adjust_lon l = l.
Proof.
  induction 1 as [|x l Hx _ IH]; simpl; [done|].
  by rewrite adjust_lon_fixed, IH.
Qed.

(** On an index that is unique and ascending, the sort positions are the
    positions themselves. *)
Lemma sort_positions_ascending (l : list Q) :
  is_unique l = true → StronglySorted Qle l →
  sort_positions l = seq 0 (length l).
Proof.
  intros Hu Hs. pose proof (sort_positions_spec l Hu) as HF.
  rewrite (sorted_ascending l Hs) in HF.
  pose proof (is_unique_NoDup _ Hu) as Hnd.
  apply list_eq_same_length with (length l).
  - apply length_seq.
  - by rewrite <- (Forall2_length _ _ _ HF).
  - intros i x y Hi Hx Hy. apply lookup_seq in Hy as [-> _]. simpl.
    destruct (Forall2_lookup_r _ _ _ _ _ HF Hx) as (lbl & Hl & Hk & _).
    exact (NoDup_lookup l x i lbl Hnd Hk Hl).
Qed.

(** C5. The meridian 180 is not brought into the range: the comparison of
    [fix_lon] is [lon > 180], so a longitude of exactly 180 is kept. On
    every raster that has the longitude 180 and on which the call returns,
    the result has the longitude 180 too, and so its longitudes do not all
    lie in [-180, 180), nor within (-180, 180) as the docstring of the
    function has it. *)
Theorem fix_lon_keeps_180 (s : State) (ds : nat) (d : DataArray) (lons : list Q) :
  heap s !! ds = Some d → raster d → xindex d = Some lons →
  is_unique (map adjust_lon lons) = true →
  Exists (λ x, (x == 180)%Q) lons →
  ∃ (a : nat) (s' : State) (out : DataArray) (lons' : list Q),
    fix_lon ds s = (inr a, s') ∧ heap s' !! a = Some out ∧
    xindex out = Some lons' ∧
    Exists (λ x, (x == 180)%Q) lons' ∧
    ¬ Forall (λ x, (-180 <= x)%Q ∧ (x < 180)%Q) lons'.
Proof.
  intros Hd [Wd Dd] Hx Hu H180.
  assert (Hl : xcoords d !! "lon" = Some lons) by (by rewrite <- Dd).
  pose proof (fix_lon_eval s ds d lons Hd Dd Hl Hu) as Hrun. cbv zeta in Hrun.
  set (adj := map adjust_lon lons) in *.
  pose proof (take_at_sort_positions adj Hu) as Htake.
  assert (Hex : Exists (λ x, (x == 180)%Q) (sorted adj)).
  { apply Exists_exists in H180 as (x & Hin & Heq).
    apply Exists_exists. exists x. split; [|done].
    rewrite sorted_Permutation. unfold adj.
    rewrite <- (adjust_lon_fixed x) by (rewrite Heq; apply Qle_refl).
    change (map adjust_lon lons) with (adjust_lon <$> lons).
    by apply list_elem_of_fmap_2. }
  eexists _, _, (normalized d lons), (sorted adj).
  split; [exact Hrun|]. split; [apply lookup_insert_eq|].
  split; [unfold xindex, normalized; cbn [xdim xcoords]; fold adj;
          by rewrite lookup_insert_eq, Htake|].
  split; [exact Hex|].
  intros Hall. apply Exists_exists in Hex as (x & Hin & Heq).
  rewrite Forall_forall in Hall. destruct (Hall x Hin) as [_ Hlt].
  rewrite Heq in Hlt. by apply (Qlt_irrefl 180).
Qed.

(** Twice [fix_lon], on longitudes that one subtraction of 360 brings to
    180 or below. (The second call is made on the object the first one
    returned, which it leaves with one more coordinate; the equality is
    with that object as it was returned.) *)
Lemma fix_lon_twice (s : State) (ds : nat) (d : DataArray) (lons : list Q) :
  heap s !! ds = Some d → raster d → xindex d = Some lons →
  Forall (λ x, (x <= 540)%Q) lons →
  is_unique (map adjust_lon lons) = true →
  ∃ (a1 a2 : nat) (s1 s2 : State) (once : DataArray),
    fix_lon ds s = (inr a1, s1) ∧ heap s1 !! a1 = Some once ∧
    fix_lon a1 s1 = (inr a2, s2) ∧ heap s2 !! a2 = Some once.
Proof.
  intros Hd [Wd Dd] Hx Hrange Hu.
  assert (Hl : xcoords d !! "lon" = Some lons) by (by rewrite <- Dd).
  pose proof (fix_lon_eval s ds d lons Hd Dd Hl Hu) as Hrun1. cbv zeta in Hrun1.
  pose proof (normalized_wf d lons Wd Hx Hu) as Wonce.
  set (once := normalized d lons) in *.
  set (adj := map adjust_lon lons) in *.
  pose proof (take_at_sort_positions adj Hu) as Htake.
  assert (Hl1 : xcoords once !! "lon" = Some (sorted adj)).
  { unfold once, normalized. cbn [xcoords]. fold adj.
    by rewrite lookup_insert_eq, Htake. }
  assert (Hfix : map adjust_lon (sorted adj) = sorted adj).
  { apply map_adjust_lon_fixed, Forall_forall. intros x Hx'.
    rewrite sorted_Permutation in Hx'.
    apply list_elem_of_fmap in Hx' as (x0 & -> & Hx0).
    rewrite Forall_forall in Hrange. by apply adjust_lon_le, Hrange. }
  assert (Hu1 : is_unique (sorted adj) = true)
    by (by rewrite (is_unique_Permutation _ _ (sorted_Permutation adj))).
  set (s1 := mkState _ _ _) in Hrun1.
  assert (Hd1 : heap s1 !! fresh (dom (<[ds:=with_adjusted d lons]> (heap s))) = Some once)
    by apply lookup_insert_eq.
  pose proof (fix_lon_eval s1 _ once (sorted adj) Hd1 eq_refl Hl1
                ltac:(by rewrite Hfix)) as Hrun2.
  cbv zeta in Hrun2.
  eexists _, _, s1, _, once.
  split; [exact Hrun1|]. split; [exact Hd1|]. split; [exact Hrun2|].
  cbn [heap]. rewrite lookup_insert_eq. f_equal.
  (* the second result is the first *)
  unfold normalized. rewrite Hfix.
  rewrite (sort_positions_ascending _ Hu1 (sorted_StronglySorted adj)).
  destruct Wonce as (Hlen & idx & Hi & Hv & Hc).
  unfold xindex in Hi. change (xdim once) with "lon" in Hi.
  rewrite Hl1 in Hi. injection Hi as <-.
  rewrite take_at_seq, (take_at_rows_seq _ _ Hv).
  rewrite (take_at_coords_seq (<["_longitude_adjusted" := sorted adj]> (xcoords once)))
    by (by apply map_Forall_insert_2).
  assert (Hnone : xcoords once !! "_longitude_adjusted" = None).
  { unfold once, normalized. cbn [xcoords].
    by rewrite lookup_insert_ne, lookup_delete_eq. }
  rewrite delete_insert_ne, delete_insert_eq by done.
  rewrite (delete_id (delete "lon" (xcoords once)) "_longitude_adjusted")
    by (by rewrite lookup_delete_ne).
  rewrite insert_delete_eq, (insert_id _ _ _ Hl1).
  reflexivity.
Qed.

(** On the longitudes of one convention, two longitudes that adjust to the
    same value are the same longitude. *)
Lemma adjust_lon_injective (x y : Q) :
  (0 <= x)%Q ∧ (x < 360)%Q → (0 <= y)%Q ∧ (y < 360)%Q →
  (adjust_lon x == adjust_lon y)%Q → (x == y)%Q.
Proof.
  intros [Hx0 Hx1] [Hy0 Hy1]. unfold adjust_lon.
  destruct (Qltb 180 x) eqn:Ex, (Qltb 180 y) eqn:Ey; intros H;
    try apply Qltb_lt in Ex; try apply Qltb_lt in Ey;
    try apply Qltb_ge in Ex; try apply Qltb_ge in Ey; lra.
Qed.

(** A raster of either convention whose longitudes are distinct has no two
    longitudes on one meridian: [fix_lon] returns on it. *)
Lemma conventions_distinct_meridians (lons : list Q) :
  Forall (λ x, (0 <= x)%Q ∧ (x < 360)%Q) lons ∨
  Forall (λ x, (-180 <= x)%Q ∧ (x < 180)%Q) lons →
  is_unique lons = true → is_unique (map adjust_lon lons) = true.
Proof.
  intros [H|H] Hu.
  - induction H as [|x l Hx Hl IH]; [done|].
    simpl in *. apply andb_true_iff in Hu as [Hm Hu].
    rewrite IH by done. rewrite andb_true_r. apply negb_true_iff.
    apply negb_true_iff in Hm.
    destruct (Qmem (adjust_lon x) (map adjust_lon l)) eqn:E; [|done].
    apply Qmem_true in E as (y' & Hy' & Heq).
    change (map adjust_lon l) with (adjust_lon <$> l) in Hy'.
    apply list_elem_of_fmap in Hy' as (y & -> & Hy).
    rewrite Forall_forall in Hl. apply Qeq_bool_iff in Heq.
    apply (adjust_lon_injective x y Hx (Hl y Hy)) in Heq.
    assert (Qmem x l = true) as Hc; [|congruence].
    apply Qmem_true. exists y. split; [done|]. by apply Qeq_bool_iff.
  - rewrite map_adjust_lon_fixed; [done|].
    eapply Forall_impl; [exact H|]. intros x [_ Hx]. simpl. by apply Qlt_le_weak.
Qed.

(** C9. Normalizing is idempotent on the rasters of the two conventions.
    For every raster whose longitudes lie in [0, 360), in [-180, 180) or
    are a mix of both (anywhere in [-180, 360)), and on which [fix_lon]
    returns (no two longitudes on one meridian, which every raster of
    either convention with distinct longitudes satisfies,
    [conventions_distinct_meridians]), normalizing the result of [fix_lon]
    again returns a raster equal to that result. *)
Theorem fix_lon_idempotent (s : State) (ds : nat) (d : DataArray) (lons : list Q) :
  heap s !! ds = Some d → raster d → xindex d = Some lons →
  Forall (λ x, (-180 <= x)%Q ∧ (x < 360)%Q) lons →
  is_unique (map adjust_lon lons) = true →
  ∃ (a1 a2 : nat) (s1 s2 : State) (once : DataArray),
    fix_lon ds s = (inr a1, s1) ∧ heap s1 !! a1 = Some once ∧
    fix_lon a1 s1 = (inr a2, s2) ∧ heap s2 !! a2 = Some once.
Proof.
  intros Hd Hr Hx Hrange Hu.
  apply (fix_lon_twice s ds d lons Hd Hr Hx); [|exact Hu].
  eapply Forall_impl; [exact Hrange|]. intros x [_ H]. simpl. lra.
Qed.

(** ** [sum_within_country] *)

Lemma rmapM_inr {A B} (f : A → result B) (g : A → B) (l : list A) :
  Forall (λ x, f x = inr (g x)) l → rmapM f l = inr (map g l).
Proof.
  induction 1 as [|x l Hx _ IH]; simpl; [done|]. by rewrite Hx, IH.
Qed.

Lemma length_concat_uniform {A} (ls : list (list A)) (n : nat) :
  Forall (λ l, length l = n) ls → length (concat ls) = length ls * n.
Proof.
  induction 1 as [|l ls Hl _ IH]; simpl; [done|].
  rewrite length_app, IH, Hl. lia.
Qed.

Lemma lookup_concat_uniform {A} (ls : list (list A)) (n i j : nat) :
  Forall (λ l, length l = n) ls → j < n →
  concat ls !! (i * n + j) = (l ← ls !! i ; l !! j).
Proof.
  intros H Hj. revert i. induction H as [|l ls Hl _ IH]; intros i; simpl.
  - by rewrite !lookup_nil.
  - destruct i as [|i]; simpl.
    + rewrite lookup_app_l by lia. done.
    + rewrite lookup_app_r by lia.
      replace (n + i * n + j - length l) with (i * n + j) by lia. apply IH.
Qed.

Lemma cell_centers_rows (lats lons : list Q) :
  Forall (λ l, length l = length lons) (meshgrid lats lons).
Proof.
  apply Forall_forall. intros l Hl. unfold meshgrid in Hl.
  apply list_elem_of_fmap in Hl as (la & -> & _). apply length_map.
Qed.

Lemma length_cell_centers (lats lons : list Q) :
  length (cell_centers lats lons) = length lats * length lons.
Proof.
  unfold cell_centers. rewrite (length_concat_uniform _ _ (cell_centers_rows lats lons)).
  unfold meshgrid. by rewrite length_map.
Qed.

(** The center of the cell in row [i], column [j], at its row-major
    position. *)
Lemma cell_centers_lookup (lats lons : list Q) (i j : nat) (la lo : Q) :
  lats !! i = Some la → lons !! j = Some lo →
  cell_centers lats lons !! (i * length lons + j) = Some (lo, la).
Proof.
  intros Hi Hj. unfold cell_centers.
  rewrite (lookup_concat_uniform _ _ _ _ (cell_centers_rows lats lons))
    by (by eapply lookup_lt_Some).
  unfold meshgrid.
  change (map (λ la, map (λ lo, (lo, la)) lons) lats)
    with ((λ la, map (λ lo, (lo, la)) lons) <$> lats).
  rewrite list_lookup_fmap, Hi. simpl.
  change (map (λ lo0, (lo0, la)) lons) with ((λ lo0, (lo0, la)) <$> lons).
  by rewrite list_lookup_fmap, Hj.
Qed.

Section Aggregation.

Variables (d : DataArray) (lons : list Q).

Hypothesis Hwf : wf_dataarray d.
Hypothesis Hlon : xcoords d !! "lon" = Some lons.

Lemma rows_have_lons : Forall (λ row, length row = length lons) (values d).
Proof.
  destruct Hwf as (_ & idx & _ & Hv & Hc).
  by rewrite (Hc "lon" lons Hlon).
Qed.

Lemma length_ravel : length (ravel (values d)) = length (lat d) * length lons.
Proof.
  unfold ravel. rewrite (length_concat_uniform _ _ rows_have_lons).
  destruct Hwf as (-> & _). done.
Qed.

(** The value of the cell in row [i], column [j], at its row-major
    position. *)
Lemma ravel_lookup (i j : nat) :
  j < length lons → ravel (values d) !! (i * length lons + j) = cell d i j.
Proof.
  intros Hj. unfold ravel, cell. apply lookup_concat_uniform; [apply rows_have_lons|done].
Qed.

Lemma inside_country_lookup (g : Geometry) (i j : nat) (la lo : Q) :
  lat d !! i = Some la → lons !! j = Some lo →
  inside_country d lons g !! (i * length lons + j) = Some (contains g (lo, la)).
Proof.
  intros Hi Hj. unfold inside_country.
  change (map (contains g) (cell_centers (lat d) lons))
    with (contains g <$> cell_centers (lat d) lons).
  rewrite list_lookup_fmap.
  pose proof (cell_centers_lookup _ _ _ _ _ _ Hi Hj) as Hc.
  unfold Point in *. by rewrite Hc.
Qed.

(** One turn of the loop, on a grid with at least one cell. *)
Lemma country_sum_eval (g : Geometry) (r : ShapeRecord) (name : string) :
  lat d ≠ [] → lons ≠ [] → NAME r = Some name →
  country_sum (lat d) lons (values d) g r
  = inr (name, nansum (inside_values d lons g)).
Proof.
  intros Hlat Hlons Hname. unfold country_sum. unfold NAME in Hname. rewrite Hname.
  cbv zeta. fold (inside_country d lons g). unfold boolean_index.
  assert (Hlen : length (inside_country d lons g) = length (ravel (values d))).
  { unfold inside_country. by rewrite length_map, length_cell_centers, length_ravel. }
  destruct (inside_country d lons g) as [|m mask] eqn:E.
  - exfalso. rewrite length_ravel in Hlen. simpl in Hlen.
    destruct (lat d), lons; simpl in *; try done.
  - rewrite Hlen, Nat.eqb_refl. unfold inside_values. by rewrite E.
Qed.

(** The whole function: it reads the records from the shapefile, pairs them
    with the geometries it was given, and returns one entry per pair. The
    state is left as it was. *)
Lemma sum_within_country_eval (w : World) (s : State) (data : nat)
    (countries : list Geometry) (recs : list ShapeRecord) :
  natural_earth w = Some recs → heap s !! data = Some d →
  lat d ≠ [] → lons ≠ [] →
  Forall (λ r, is_Some (NAME r)) (take (length countries) recs) →
  sum_within_country w data countries s
  = (inr (map (λ ca, (default "" (NAME (snd ca)), nansum (inside_values d lons (fst ca))))
            (zip countries recs)), s).
Proof.
  intros Hw Hd Hlat Hlons Hnames.
  unfold sum_within_country, mbind, M_bind, bind, deref, lift.
  rewrite Hd, Hw. unfold getitem. simpl. rewrite Hlon. f_equal.
  apply rmapM_inr. apply Forall_forall. intros [g r] Hin. simpl.
  assert (Hr : is_Some (NAME r)).
  { apply list_elem_of_lookup_1 in Hin as [k Hk].
    apply lookup_zip_with_Some in Hk as (g' & r' & [= <- <-] & Hg & Hr).
    rewrite Forall_lookup in Hnames. apply (Hnames k).
    rewrite lookup_take_lt; [done|]. by eapply lookup_lt_Some. }
  destruct Hr as [name Hname]. rewrite Hname. simpl.
  by apply country_sum_eval.
Qed.

End Aggregation.

Lemma lookup_map {A B} (f : A → B) (l : list A) (i : nat) :
  map f l !! i = f <$> l !! i.
Proof. exact (list_lookup_fmap f l i). Qed.

Lemma zip_take_min {A B} (l : list A) (k : list B) :
  zip (take (length l `min` length k) l) (take (length l `min` length k) k) = zip l k.
Proof.
  revert k. induction l as [|x l IH]; intros [|y k]; simpl; try done.
  f_equal. apply IH.
Qed.

Lemma take_take_min {A B} (l : list A) (k : list B) :
  take (length (take (length l `min` length k) l)) (take (length l `min` length k) k)
  = take (length l) k.
Proof.
  revert k. induction l as [|x l IH]; intros [|y k]; simpl; try done.
  f_equal. apply IH.
Qed.

(** C10. The names of the output are those of the records that the function
    itself reads from the Natural Earth shapefile, taken in the order of
    that file and paired by position with the geometries of the caller, who
    supplies no record; the output has
    [min (len geometries) (len records)] entries. *)
Theorem sum_within_country_names (w : World) (s : State) (data : nat) (d : DataArray)
    (countries : list Geometry) (recs : list ShapeRecord) (lons : list Q) :
  natural_earth w = Some recs → heap s !! data = Some d →
  wf_dataarray d → xcoords d !! "lon" = Some lons →
  lat d ≠ [] → lons ≠ [] →
  Forall (λ r, is_Some (NAME r)) (take (length countries) recs) →
  ∃ series : Series,
    sum_within_country w data countries s = (inr series, s) ∧
    length series = length countries `min` length recs ∧
    Some <$> (fst <$> series) = NAME <$> take (length countries) recs.
Proof.
  intros Hw Hd Wd Hlon Hlat Hlons Hnames.
  eexists. split; [by eapply sum_within_country_eval|]. split.
  - by rewrite length_map, length_zip_with.
  - clear -Hnames. revert recs Hnames.
    induction countries as [|g gs IH]; intros [|r rs] Hn; simpl; try done.
    simpl in Hn. apply Forall_cons in Hn as [[name Hname] Hn].
    rewrite Hname. simpl. f_equal. by apply IH.
Qed.

(** C3, as the code has it. When the geometries of the caller and the
    records of the shapefile differ in length, the function does not fail on
    that account and raises no alignment error: it pairs them by position
    up to the length of the shorter sequence, and returns what it returns on
    the two sequences cut to that length. *)
Theorem sum_within_country_truncates (w : World) (s : State) (data : nat) (d : DataArray)
    (countries : list Geometry) (recs : list ShapeRecord) (lons : list Q) :
  natural_earth w = Some recs → heap s !! data = Some d →
  wf_dataarray d → xcoords d !! "lon" = Some lons →
  lat d ≠ [] → lons ≠ [] →
  Forall (λ r, is_Some (NAME r)) (take (length countries) recs) →
  length countries ≠ length recs →
  let n := length countries `min` length recs in
  ∃ series : Series,
    sum_within_country w data countries s = (inr series, s) ∧
    length series = n ∧
    sum_within_country (mkWorld (rasters w) (Some (take n recs))) data
      (take n countries) s = (inr series, s).
Proof.
  intros Hw Hd Wd Hlon Hlat Hlons Hnames _ n.
  eexists. split; [by eapply sum_within_country_eval|]. split.
  - by rewrite length_map, length_zip_with.
  - rewrite (sum_within_country_eval d lons Wd Hlon
               (mkWorld (rasters w) (Some (take n recs))) s data
               (take n countries) (take n recs) eq_refl Hd Hlat Hlons).
    + unfold n. by rewrite zip_take_min.
    + unfold n. rewrite take_take_min. exact Hnames.
Qed.

(** C2, as the code has it. A cell's value enters the sum of a country
    exactly when the cell center lies in the interior of the country's
    geometry (shapely's [contains]); a cell center on the boundary is not
    contained and its value is left out. The sum of the [k]-th country is
    the NaN-as-zero sum of the values selected, in row-major order, by the
    mask that holds this test for every cell. *)
Theorem sum_within_country_interior (w : World) (s : State) (data : nat) (d : DataArray)
    (countries : list Geometry) (recs : list ShapeRecord) (lons : list Q)
    (k : nat) (g : Geometry) (r : ShapeRecord) (name : string) :
  natural_earth w = Some recs → heap s !! data = Some d →
  wf_dataarray d → xcoords d !! "lon" = Some lons →
  lat d ≠ [] → lons ≠ [] →
  Forall (λ r, is_Some (NAME r)) (take (length countries) recs) →
  countries !! k = Some g → recs !! k = Some r → NAME r = Some name →
  ∃ series : Series,
    sum_within_country w data countries s = (inr series, s) ∧
    series !! k
    = Some (name, nansum (mask_take (ravel (values d)) (inside_country d lons g))) ∧
    ∀ i j la lo v,
      lat d !! i = Some la → lons !! j = Some lo → cell d i j = Some v →
      ravel (values d) !! (i * length lons + j) = Some v ∧
      inside_country d lons g !! (i * length lons + j)
      = Some (is_interior (locate g (lo, la))) ∧
      (locate g (lo, la) = Boundary →
       inside_country d lons g !! (i * length lons + j) = Some false).
Proof.
  intros Hw Hd Wd Hlon Hlat Hlons Hnames Hg Hr Hname.
  eexists. split; [by eapply sum_within_country_eval|]. split.
  - unfold Series. rewrite lookup_map.
    assert (Hz : zip countries recs !! k = Some (g, r))
      by (apply lookup_zip_with_Some; eauto).
    rewrite Hz. simpl. by rewrite Hname.
  - intros i j la lo v Hi Hj Hv.
    pose proof (inside_country_lookup d lons g i j la lo Hi Hj) as Hm.
    split; [|split].
    + rewrite (ravel_lookup d lons Wd Hlon) by (by eapply lookup_lt_Some). done.
    + exact Hm.
    + intros Hb. rewrite Hm. unfold contains. by rewrite Hb.
Qed.

(** ** NaN-as-zero accumulation *)

Lemma is_zero_spec (x : float) :
  is_zero x = true ↔ ∃ sg, Prim2SF x = S754_zero sg.
Proof.
  unfold is_zero. rewrite FloatAxioms.eqb_spec. change (Prim2SF zero) with (S754_zero false).
  destruct (Prim2SF x) as [sg|sg| |sg m e]; simpl.
  - split; [eauto|done].
  - split; [by destruct sg|by intros [? ?]].
  - split; [done|by intros [? ?]].
  - split; [by destruct sg|by intros [? ?]].
Qed.




Lemma zero_add_same (x : float) : same_number (0 + x)%float x.
Proof.
  pose proof (add_spec 0 x) as H. change (Prim2SF 0) with (S754_zero false) in H.
  destruct (Prim2SF x) as [sg|sg| |sg m e] eqn:E.
  - right. split; apply is_zero_spec; [|eauto].
    rewrite H. destruct sg; simpl; eauto.
  - left. apply Prim2SF_inj. by rewrite H, E.
  - left. apply Prim2SF_inj. by rewrite H, E.
  - left. apply Prim2SF_inj. by rewrite H, E.
Qed.




(** *** The order in which [np.sum] adds *)



(** With the length of the array for fuel the splitting never runs out: any
    two amounts that reach the length give the same sum. *)
Lemma pairwise_sum_fuel (f1 f2 : nat) (a : list float) :
  (length a <= f1)%nat → (length a <= f2)%nat → pairwise_sum f1 a = pairwise_sum f2 a.
Proof.
  revert f2 a. induction f1 as [|f1 IH]; intros [|f2] a H1 H2; try done.
  - assert (E : length a = 0%nat) by lia. apply nil_length_inv in E as ->. done.
  - assert (E : length a = 0%nat) by lia. apply nil_length_inv in E as ->. done.
  - cbn [pairwise_sum]. destruct (length a <? 8)%nat eqn:E8; [done|].
    destruct (length a <=? 128)%nat eqn:E128; [done|].
    apply Nat.ltb_ge in E8. apply Nat.leb_gt in E128.
    set (n := length a) in *. set (q := n / 2).
    pose proof (Nat.Div0.mul_div_le n 2) as Hq. fold q in Hq.
    pose proof (Nat.mul_succ_div_gt n 2 ltac:(done)) as Hq'. fold q in Hq'.
    pose proof (Nat.mod_upper_bound q 8 ltac:(done)) as Hm.
    pose proof (Nat.Div0.mod_le q 8) as Hm'.
    f_equal; apply IH; rewrite ?length_take, ?length_skipn; fold n; lia.
Qed.







(** *** NaN counts as 0.0 *)







(** ** The samples are rasters *)

Lemma wf_dataarrayb_true (d : DataArray) : wf_dataarrayb d = true → wf_dataarray d.
Proof.
  unfold wf_dataarrayb. intros [Hl H]%andb_true_iff.
  destruct (xindex d) as [idx|] eqn:E; [|done].
  apply andb_true_iff in H as [Hv Hc]. apply Nat.eqb_eq in Hl.
  split; [done|]. exists idx. split; [done|]. split.
  - apply Forall_forall. intros row Hrow. rewrite forallb_forall in Hv.
    apply Nat.eqb_eq, Hv. by apply list_elem_of_In.
  - intros k c Hk. rewrite forallb_forall in Hc.
    apply Nat.eqb_eq, (Hc (k, c)), list_elem_of_In. by apply elem_of_map_to_list.
Qed.

Lemma raster_check (d : DataArray) :
  wf_dataarrayb d = true → xdim d = "lon" → raster d.
Proof. intros H ?. split; [by apply wf_dataarrayb_true|done]. Qed.

(** ** C1: the scenario of the specification *)

Lemma mortality_cellwise_witness :
  ∃ (a : nat) (s' : State) (out : DataArray),
    mortality exp_series 0 1 2 aligned_state = (inr a, s') ∧
    heap s' !! a = Some out ∧
    raster out ∧ lat out = lat sample_rate ∧ xindex out = xindex sample_rate ∧
    ∀ i j x y z,
      cell sample_concentration i j = Some x → cell sample_rate i j = Some y →
      cell sample_population i j = Some z →
      cell out i j = Some (y * response_cell exp_series x * z)%float.
Proof.
  apply (mortality_cellwise exp_series aligned_state 0 1 2
           sample_concentration sample_rate sample_population).
  - reflexivity.
  - reflexivity.
  - reflexivity.
  - by apply raster_check.
  - by apply raster_check.
  - by apply raster_check.
  - split; [reflexivity|]. by exists [0; 1]%Q, [0; 1]%Q.
  - split; [reflexivity|]. by exists [0; 1]%Q, [0; 1]%Q.
Defined.

(** On the scenario, the mortality at the cell with concentration 10 is
    [0.01 * (1 - exp(-1.1 * 10)) * 1000], and the object returned is a new
    one. *)
Example mortality_scenario :
  ∀ np_exp : float → float,
    (mortality np_exp 0 1 2 aligned_state).1 = inr 3 ∧
    (out ← heap (mortality np_exp 0 1 2 aligned_state).2 !! 3 ; cell out 0 0)
    = Some (one_percent * (1 - np_exp (minus_k * 10)) * 1000)%float.
Proof. intros np_exp. split; reflexivity. Qed.

(** ** C4: rasters on different longitudes *)

(** The rate raster has longitudes [0, 2], the two others [0, 1]: the call
    returns a raster on the single common longitude 0 and raises nothing. *)
Lemma mortality_misaligned_returns :
  index_equals [0; 2]%Q [0; 1]%Q = false ∧
  (mortality exp_series 0 1 2 misaligned_state).1 = inr 3 ∧
  (xindex <$> heap (mortality exp_series 0 1 2 misaligned_state).2 !! 3)
  = Some (Some [0%Q]) ∧
  (values <$> heap (mortality exp_series 0 1 2 misaligned_state).2 !! 3)
  = Some [[(one_percent * response_cell exp_series 10 * 1000)%float];
          [(one_percent * response_cell exp_series 0 * 1000)%float]].
Proof. repeat split; reflexivity. Qed.

Lemma mortality_inner_join_witness :
  ∃ (a : nat) (s' : State) (out : DataArray),
    mortality exp_series 0 1 2 misaligned_state = (inr a, s') ∧
    heap s' !! a = Some out ∧
    raster out ∧
    lat out = intersection (intersection [0; 1]%Q [0; 1]%Q) [0; 1]%Q ∧
    xindex out = Some (intersection (intersection [0; 2]%Q [0; 1]%Q) [0; 1]%Q) ∧
    ∀ i j la lo,
      lat out !! i = Some la →
      intersection (intersection [0; 2]%Q [0; 1]%Q) [0; 1]%Q !! j = Some lo →
      ∃ x y z,
        cell_at sample_concentration la lo = Some x ∧
        cell_at shifted_rate la lo = Some y ∧
        cell_at sample_population la lo = Some z ∧
        cell out i j = Some (y * response_cell exp_series x * z)%float.
Proof.
  apply (mortality_inner_join exp_series misaligned_state 0 1 2
           sample_concentration shifted_rate sample_population
           [0; 1]%Q [0; 2]%Q [0; 1]%Q);
    try reflexivity; by apply raster_check.
Defined.

(** ** C5, C8, C9: [fix_lon] on samples *)

(** Outside the two conventions, a longitude beyond a single turn: 600
    becomes 240, which is not below 180. *)
Example fix_lon_600_out_of_range :
  (fix_lon 0 (heap_of [grid_600])).1 = inr 1 ∧
  (xindex <$> heap (fix_lon 0 (heap_of [grid_600])).2 !! 1) = Some (Some [0; 240]%Q) ∧
  ¬ (240 < 180)%Q.
Proof. repeat split; try reflexivity. by intros H. Qed.

(** The meridian 180 itself is left at 180, on a grid in the 0 to 360
    convention. *)
Example fix_lon_180_stays :
  (xindex <$> heap (fix_lon 0 (heap_of [grid_0_360])).2 !! 1)
  = Some (Some [-90; 0; 90; 180]%Q).
Proof. reflexivity. Qed.

(** Two longitudes of one meridian, -170 and 190: the call raises. *)
Example fix_lon_same_meridian_raises :
  (fix_lon 0 (heap_of [mkDataArray [0]%Q "lon" {[ "lon" := [-170; 190]%Q ]}
                         [[1; 2]]%float])).1
  = inl (InvalidIndexError "Reindexing only valid with uniquely valued Index objects").
Proof. reflexivity. Qed.

Lemma fix_lon_relabels_witness :
  ∃ (a : nat) (s' : State) (out : DataArray) (lons' : list Q),
    fix_lon 0 (heap_of [grid_0_360]) = (inr a, s') ∧ heap s' !! a = Some out ∧
    raster out ∧ lat out = lat grid_0_360 ∧ xindex out = Some lons' ∧
    StronglySorted Qlt lons' ∧
    length lons' = length [0; 90; 180; 270]%Q ∧
    length (values out) = length (values grid_0_360) ∧
    ∃ pos : list nat, pos ≡ₚ seq 0 (length [0; 90; 180; 270]%Q) ∧
      ∀ j j0, pos !! j = Some j0 →
        lons' !! j = adjust_lon <$> [0; 90; 180; 270]%Q !! j0 ∧
        ∀ i, cell out i j = cell grid_0_360 i j0.
Proof.
  apply (fix_lon_relabels (heap_of [grid_0_360]) 0 grid_0_360 [0; 90; 180; 270]%Q).
  - reflexivity.
  - by apply raster_check.
  - reflexivity.
  - reflexivity.
Defined.

Lemma fix_lon_keeps_180_witness :
  ∃ (a : nat) (s' : State) (out : DataArray) (lons' : list Q),
    fix_lon 0 (heap_of [grid_0_360]) = (inr a, s') ∧ heap s' !! a = Some out ∧
    xindex out = Some lons' ∧
    Exists (λ x, (x == 180)%Q) lons' ∧
    ¬ Forall (λ x, (-180 <= x)%Q ∧ (x < 180)%Q) lons'.
Proof.
  apply (fix_lon_keeps_180 (heap_of [grid_0_360]) 0 grid_0_360 [0; 90; 180; 270]%Q).
  - reflexivity.
  - by apply raster_check.
  - reflexivity.
  - reflexivity.
  - do 2 apply Exists_cons_tl. apply Exists_cons_hd. reflexivity.
Defined.

(** C8. Whatever the raster, and whether the call returns or raises later
    on, after [fix_lon] the object that was passed in carries the adjusted
    longitudes as a coordinate ['_longitude_adjusted']: the first statement
    assigned it on the caller's object, before the function rebound its own
    name. The input is changed unless it already had that very
    coordinate. *)
Theorem fix_lon_mutates_argument (s : State) (ds : nat) (d : DataArray) (lons : list Q) :
  heap s !! ds = Some d → wf_dataarray d → xcoords d !! "lon" = Some lons →
  heap (fix_lon ds s).2 !! ds = Some (with_adjusted d lons) ∧
  (xcoords d !! "_longitude_adjusted" ≠ Some (map adjust_lon lons) →
   with_adjusted d lons ≠ d).
Proof.
  intros Hd (_ & idx & Hi & _ & Hc) Hl. split.
  - assert (Hlen : length (map adjust_lon lons) = length idx)
      by (by rewrite length_map, (Hc "lon" lons Hl)).
    unfold fix_lon, mbind, M_bind, bind, deref, lift, alloc, store.
    rewrite Hd. unfold getitem at 1. unfold lon_name. simpl. rewrite Hl.
    unfold setitem. simpl. rewrite Hi, Hlen, Nat.eqb_refl. fold (with_adjusted d lons).
    repeat match goal with
           | |- context [match ?r with inl _ => _ | inr _ => _ end] =>
               destruct r; cbn [snd heap]
           end;
      try apply lookup_insert_eq.
    rewrite lookup_insert_ne; [apply lookup_insert_eq|].
    intros Heq.
    pose proof (is_fresh (dom (<[ds:=with_adjusted d lons]> (heap s)))) as Hf.
    rewrite Heq in Hf. apply Hf. rewrite dom_insert_L. set_solver.
  - intros Hne Heq. apply Hne.
    rewrite <- Heq at 1. unfold with_adjusted. cbn [xcoords]. apply lookup_insert_eq.
Qed.

Lemma fix_lon_mutates_argument_witness :
  heap (fix_lon 0 (heap_of [grid_0_360])).2 !! 0
  = Some (with_adjusted grid_0_360 [0; 90; 180; 270]%Q) ∧
  (xcoords grid_0_360 !! "_longitude_adjusted"
   ≠ Some (map adjust_lon [0; 90; 180; 270]%Q) →
   with_adjusted grid_0_360 [0; 90; 180; 270]%Q ≠ grid_0_360).
Proof.
  apply (fix_lon_mutates_argument (heap_of [grid_0_360]) 0 grid_0_360 [0; 90; 180; 270]%Q).
  - reflexivity.
  - by apply wf_dataarrayb_true.
  - reflexivity.
Defined.

(** On the sample: the input had no such coordinate, and has it after the
    call. *)
Example fix_lon_argument_sample :
  xcoords grid_0_360 !! "_longitude_adjusted" = None ∧
  (xcoords <$> heap (fix_lon 0 (heap_of [grid_0_360])).2 !! 0)
  = Some {[ "lon" := [0; 90; 180; 270]%Q;
            "_longitude_adjusted" := [0; 90; 180; -90]%Q ]}.
Proof. split; reflexivity. Qed.

(** Outside the two conventions: normalizing twice a raster with the
    longitude 600, the first call gives 240, the second -120. *)
Example fix_lon_twice_600 :
  (fix_lon 0 (heap_of [grid_600])).1 = inr 1 ∧
  (xindex <$> heap (fix_lon 0 (heap_of [grid_600])).2 !! 1) = Some (Some [0; 240]%Q) ∧
  (fix_lon 1 (fix_lon 0 (heap_of [grid_600])).2).1 = inr 2 ∧
  (xindex <$> heap (fix_lon 1 (fix_lon 0 (heap_of [grid_600])).2).2 !! 2)
  = Some (Some [-120; 0]%Q).
Proof. repeat split; reflexivity. Qed.

Lemma fix_lon_idempotent_witness :
  ∃ (a1 a2 : nat) (s1 s2 : State) (once : DataArray),
    fix_lon 0 (heap_of [grid_0_360]) = (inr a1, s1) ∧ heap s1 !! a1 = Some once ∧
    fix_lon a1 s1 = (inr a2, s2) ∧ heap s2 !! a2 = Some once.
Proof.
  apply (fix_lon_idempotent (heap_of [grid_0_360]) 0 grid_0_360 [0; 90; 180; 270]%Q).
  - reflexivity.
  - by apply raster_check.
  - reflexivity.
  - repeat constructor; by vm_compute.
  - reflexivity.
Defined.

(** ** C2, C3, C6, C10: [sum_within_country] on samples *)

(** The cell center (1, 0) lies on the lower edge of the square: closed
    containment holds, the mask of the function is [False] there, and the
    value 5 of that cell is not in the sum, which is 7. *)
Lemma sum_within_country_boundary_excluded :
  covers square (1, 0)%Q = true ∧
  locate square (1, 0)%Q = Boundary ∧
  inside_country edge_grid [1]%Q square = [false; true] ∧
  (sum_within_country one_country 0 [square] (heap_of [edge_grid])).1
  = inr [("Squareland", 7%float)].
Proof. repeat split; reflexivity. Qed.

Lemma sum_within_country_interior_witness :
  ∃ series : Series,
    sum_within_country one_country 0 [square] (heap_of [edge_grid])
    = (inr series, heap_of [edge_grid]) ∧
    series !! 0
    = Some ("Squareland",
            nansum (mask_take (ravel (values edge_grid))
                      (inside_country edge_grid [1]%Q square))) ∧
    ∀ i j la lo v,
      lat edge_grid !! i = Some la → [1]%Q !! j = Some lo →
      cell edge_grid i j = Some v →
      ravel (values edge_grid) !! (i * length [1]%Q + j) = Some v ∧
      inside_country edge_grid [1]%Q square !! (i * length [1]%Q + j)
      = Some (is_interior (locate square (lo, la))) ∧
      (locate square (lo, la) = Boundary →
       inside_country edge_grid [1]%Q square !! (i * length [1]%Q + j) = Some false).
Proof.
  apply (sum_within_country_interior one_country (heap_of [edge_grid]) 0 edge_grid
           [square] [squareland] [1]%Q 0 square squareland "Squareland");
    try reflexivity; try done.
  - by apply wf_dataarrayb_true.
  - repeat constructor. by eexists.
Defined.

(** Two geometries and a shapefile with one record: the call returns one
    entry and raises nothing. *)
Lemma sum_within_country_lengths_differ :
  length [square; square] ≠ length [squareland] ∧
  (sum_within_country one_country 0 [square; square] (heap_of [edge_grid])).1
  = inr [("Squareland", 7%float)].
Proof. split; [by vm_compute|reflexivity]. Qed.

Lemma sum_within_country_truncates_witness :
  ∃ series : Series,
    sum_within_country one_country 0 [square; square] (heap_of [edge_grid])
    = (inr series, heap_of [edge_grid]) ∧
    length series = 1 ∧
    sum_within_country (mkWorld (rasters one_country) (Some (take 1 [squareland]))) 0
      (take 1 [square; square]) (heap_of [edge_grid])
    = (inr series, heap_of [edge_grid]).
Proof.
  apply (sum_within_country_truncates one_country (heap_of [edge_grid]) 0 edge_grid
           [square; square] [squareland] [1]%Q);
    try reflexivity; try done.
  - by apply wf_dataarrayb_true.
  - repeat constructor. by eexists.
Defined.

Lemma sum_within_country_names_witness :
  ∃ series : Series,
    sum_within_country complete_world 0 [west; middle; square]
      (heap_of [grid_west [[1; 2]; [3; 4]]%float])
    = (inr series, heap_of [grid_west [[1; 2]; [3; 4]]%float]) ∧
    length series = 2 ∧
    Some <$> (fst <$> series) = [Some "West"; Some "Middle"].
Proof.
  apply (sum_within_country_names complete_world
           (heap_of [grid_west [[1; 2]; [3; 4]]%float]) 0
           (grid_west [[1; 2]; [3; 4]]%float)
           [west; middle; square] two_countries [0; 270]%Q);
    try reflexivity; try done.
  - by apply wf_dataarrayb_true.
  - repeat constructor; by eexists.
Defined.


(** The order in which numpy adds. Eight values go into eight accumulators
    that are added in pairs: the seven 1.0 are not lost against 1e16 as
    they are when added to it one by one. A sum of negative zeros is +0.0,
    since the reduction starts from +0.0. With nine values, one of them
    NaN, replacing the NaN by 0.0 and leaving it out give sums that differ
    in the last place. *)
Example np_sum_pairwise :
  np_sum [1e16; 1; 1; 1; 1; 1; 1; 1]%float = 10000000000000006%float ∧
  fold_left PrimFloat.add [1; 1; 1; 1; 1; 1; 1]%float 1e16%float = 1e16%float ∧
  np_sum (1e16 :: repeat 1 299)%float = 10000000000000290%float.
Proof. repeat split; by vm_compute. Qed.

Example np_sum_negative_zeros :
  Prim2SF (np_sum [-0; -0]%float) = S754_zero false.
Proof. by vm_compute. Qed.

Example nansum_nine_values :
  nansum [1e16; nan; 1; 1; 1; 1; 1; 1; 1]%float = 10000000000000008%float ∧
  np_sum (non_nan [1e16; nan; 1; 1; 1; 1; 1; 1; 1]%float) = 10000000000000006%float.
Proof. split; by vm_compute. Qed.



(** ** What the cells leave unassigned *)

Section Unbound.

Variable x : string.

Lemma unbound_bind {A B} (m : M A) (k : A → M B) :
  leaves_unbound x m → (∀ a, leaves_unbound x (k a)) → leaves_unbound x (m ≫= k).
Proof.
  intros Hm Hk s Hs. unfold mbind, M_bind, bind.
  specialize (Hm s Hs). destruct (m s) as [[e|a] s']; simpl in *; [done|].
  by apply Hk.
Qed.

Lemma unbound_try_except (body handler : M unit) :
  leaves_unbound x body → leaves_unbound x handler →
  leaves_unbound x (try_except body handler).
Proof.
  intros Hb Hh s Hs. unfold try_except. specialize (Hb s Hs).
  destruct (body s) as [[e|[]] s']; simpl in *; [|done].
  destruct e; try by apply Hh. done.
Qed.

Lemma unbound_same_env {A} (m : M A) :
  (∀ s, env (m s).2 = env s) → leaves_unbound x m.
Proof. intros H s Hs. unfold unbound in *. by rewrite H. Qed.

Lemma unbound_ret {A} (a : A) : leaves_unbound x (ret a).
Proof. by apply unbound_same_env. Qed.

Lemma unbound_mret {A} (a : A) : leaves_unbound x (mret a : M A).
Proof. by apply unbound_same_env. Qed.

Lemma unbound_raise {A} (e : exn) : leaves_unbound x (raise e : M A).
Proof. by apply unbound_same_env. Qed.

Lemma unbound_lift {A} (r : result A) : leaves_unbound x (lift r).
Proof. by apply unbound_same_env. Qed.

Lemma unbound_deref (a : nat) : leaves_unbound x (deref a).
Proof. apply unbound_same_env. intros s. unfold deref. by destruct (heap s !! a). Qed.

Lemma unbound_store (a : nat) (d : DataArray) : leaves_unbound x (store a d).
Proof. by apply unbound_same_env. Qed.

Lemma unbound_alloc (d : DataArray) : leaves_unbound x (alloc d).
Proof. by apply unbound_same_env. Qed.

Lemma unbound_write_file (path : string) (sr : Series) : leaves_unbound x (write_file path sr).
Proof. by apply unbound_same_env. Qed.

Lemma unbound_name (y : string) : leaves_unbound x (name y).
Proof. apply unbound_same_env. intros s. unfold name. by destruct (env s !! y). Qed.

Lemma unbound_assign (y : string) (v : pyval) : x ≠ y → leaves_unbound x (assign y v).
Proof. intros Hxy s Hs. unfold unbound, assign. simpl. by rewrite lookup_insert_ne. Qed.

Lemma unbound_name_arr (y : string) : leaves_unbound x (name_arr y).
Proof.
  apply unbound_bind; [apply unbound_name|].
  intros []; first [apply unbound_ret | apply unbound_raise].
Qed.

Lemma unbound_fix_lon (ds : nat) : leaves_unbound x (fix_lon ds).
Proof.
  unfold fix_lon.
  repeat first [  apply unbound_deref | apply unbound_lift
               | apply unbound_store | apply unbound_alloc
               | apply unbound_bind; [|intros ?] ].
Qed.

Lemma unbound_open_raster (w : World) (file var : string) :
  leaves_unbound x (open_raster w file var).
Proof.
  unfold open_raster. destruct (rasters w !! _); [apply unbound_alloc|apply unbound_raise].
Qed.

Lemma unbound_copy_coord (a b : nat) (coord : string) : leaves_unbound x (copy_coord a b coord).
Proof.
  unfold copy_coord.
  repeat first [  apply unbound_deref | apply unbound_lift
               | apply unbound_store
               | apply unbound_bind; [|intros ?] ].
Qed.

Lemma unbound_refix (y : string) : x ≠ y → leaves_unbound x (refix y).
Proof.
  intros H. unfold refix.
  repeat first [  apply unbound_name_arr
               | apply unbound_fix_lon | by apply unbound_assign
               | apply unbound_bind; [|intros ?] ].
Qed.

Lemma unbound_load_into (w : World) (y file var : string) :
  x ≠ y → leaves_unbound x (load_into w y file var).
Proof.
  intros H. unfold load_into.
  apply unbound_bind; [apply unbound_open_raster|]. intros a. by apply unbound_assign.
Qed.

Lemma unbound_mortality (np_exp : float → float) (pm25 b population : nat) :
  leaves_unbound x (mortality np_exp pm25 b population).
Proof.
  unfold mortality.
  repeat first [  apply unbound_deref | apply unbound_lift
               | apply unbound_store | apply unbound_alloc | apply unbound_mret
               | apply unbound_bind; [|intros ?] ].
Qed.

Lemma unbound_assign_mortality (np_exp : float → float) (y pm25 pop : string) :
  x ≠ y → leaves_unbound x (assign_mortality np_exp y pm25 pop).
Proof.
  intros H. unfold assign_mortality.
  repeat first [  apply unbound_name_arr
               | apply unbound_mortality | by apply unbound_assign
               | apply unbound_bind; [|intros ?] ].
Qed.

Lemma unbound_assign_difference (y l r : string) :
  x ≠ y → leaves_unbound x (assign_difference y l r).
Proof.
  intros H. unfold assign_difference.
  repeat first [  apply unbound_name_arr
               | apply unbound_deref | apply unbound_lift | apply unbound_alloc
               | by apply unbound_assign
               | apply unbound_bind; [|intros ?] ].
Qed.

End Unbound.

Lemma cell_10_leaves_2000 (w : World) :
  leaves_unbound "baseline_pm25_2000" (cell_10 w).
Proof.
  unfold cell_10.
  repeat first [  apply unbound_try_except
               | by apply unbound_load_into | by apply unbound_refix
               | by apply unbound_assign | apply unbound_ret
               | apply unbound_bind; [|intros ?] ].
Qed.

Lemma cell_12_leaves_2000 (w : World) :
  leaves_unbound "baseline_pm25_2000" (cell_12 w).
Proof.
  unfold cell_12. cbn [foldr].
  repeat first [  apply unbound_try_except
               | by apply unbound_load_into | by apply unbound_refix
               | by apply unbound_assign | apply unbound_ret | apply unbound_mret
               | apply unbound_open_raster | apply unbound_deref | apply unbound_alloc
               | apply unbound_name_arr | apply unbound_copy_coord
               | apply unbound_bind; [|intros ?] ].
Qed.

Lemma cell_14_leaves_2000 (np_exp : float → float) :
  leaves_unbound "baseline_pm25_2000" (cell_14 np_exp).
Proof.
  unfold cell_14.
  repeat first [ by apply unbound_assign_mortality | by apply unbound_assign_difference
               | apply unbound_bind; [|intros ?] ].
Qed.

(** ** C7: the pipeline when the rasters of a year are not there *)

(** Cell 15 begins with the mortality of 2000, whatever else it is to do:
    when [baseline_pm25_2000] was never assigned it raises [NameError], and
    the part of the cell that handles 2100 is not reached. *)
Lemma cell_15_without_2000 (np_exp : float → float) (s : State) :
  unbound "baseline_pm25_2000" s →
  cell_15 np_exp s = (inl (NameError "baseline_pm25_2000"), s).
Proof.
  intros H. unfold cell_15, assign_mortality, name_arr, name, mbind, M_bind, bind.
  unfold unbound in H. by rewrite H.
Qed.

(** Cell 11 catches the failed load and assigns nothing. *)
Lemma cell_11_without_2000 (w : World) (s : State) :
  rasters w !! (path_join data_dir "CESM_09x125_PM25_2000_Baseline.nc", "pm25") = None →
  cell_11 w s = (inr tt, s).
Proof.
  intros H. unfold cell_11, try_except, load_into, open_raster, mbind, M_bind, bind, raise.
  by rewrite H.
Qed.

Lemma run_each_cons (c : M unit) (cells : list (M unit)) (s : State) :
  run_each (c :: cells) s
  = ((c s).1 :: (run_each cells (c s).2).1, (run_each cells (c s).2).2).
Proof.
  cbn [run_each]. destruct (c s) as [r s']. cbn [fst snd].
  by destruct (run_each cells s') as [rs s''].
Qed.

(** What the fifth cell returns when every cell is executed. *)
Lemma run_each_fifth (c0 c1 c2 c3 c4 : M unit) (cells : list (M unit)) (s : State) :
  (run_each (c0 :: c1 :: c2 :: c3 :: c4 :: cells) s).1 !! 4
  = Some (c4 (c3 (c2 (c1 (c0 s).2).2).2).2).1.
Proof. by rewrite !run_each_cons. Qed.

(** C7. Whenever the PM2.5 baseline file of 2000 is not there, whatever else
    is, the pipeline raises: "Run All" from a fresh kernel never completes,
    and when the cells are executed one after the other regardless, cell 15
    (the fifth) raises [NameError: baseline_pm25_2000], before it reaches
    its own statements for 2100. The year is not skipped. *)
Theorem pipeline_raises_without_2000 (np_exp : float → float) (w : World) :
  rasters w !! (path_join data_dir "CESM_09x125_PM25_2000_Baseline.nc", "pm25") = None →
  (∃ e s', run_all (pipeline np_exp w) initial_state = (inl e, s')) ∧
  (run_each (pipeline np_exp w) initial_state).1 !! 4
  = Some (inl (NameError "baseline_pm25_2000")).
Proof.
  intros Hfile.
  assert (H0 : unbound "baseline_pm25_2000" initial_state) by done.
  pose proof (cell_10_leaves_2000 w _ H0) as H1.
  destruct (cell_10 w initial_state) as [r1 s1] eqn:E1. simpl in H1.
  pose proof (cell_11_without_2000 w s1 Hfile) as E2.
  pose proof (cell_12_leaves_2000 w _ H1) as H3.
  destruct (cell_12 w s1) as [r3 s3] eqn:E3. simpl in H3.
  pose proof (cell_14_leaves_2000 np_exp _ H3) as H4.
  destruct (cell_14 np_exp s3) as [r4 s4] eqn:E4. simpl in H4.
  pose proof (cell_15_without_2000 np_exp s4 H4) as E5.
  split.
  - unfold pipeline, run_all, mbind, M_bind, bind. rewrite E1.
    destruct r1 as [e|[]]; [by eauto|]. rewrite E2, E3.
    destruct r3 as [e|[]]; [by eauto|]. rewrite E4.
    destruct r4 as [e|[]]; [by eauto|]. rewrite E5. by eauto.
  - unfold pipeline. rewrite run_each_fifth, E1. cbn [snd].
    rewrite E2. cbn [snd]. rewrite E3. cbn [snd]. rewrite E4. cbn [snd].
    by rewrite E5.
Qed.

Lemma pipeline_raises_without_2000_witness :
  (∃ e s', run_all (pipeline exp_series world_without_2000) initial_state = (inl e, s')) ∧
  (run_each (pipeline exp_series world_without_2000) initial_state).1 !! 4
  = Some (inl (NameError "baseline_pm25_2000")).
Proof.
  apply (pipeline_raises_without_2000 exp_series world_without_2000).
  reflexivity.
Defined.

(** The run in full on the sample world without the baseline of 2000: "Run
    All" stops in cell 15; with every cell executed, cells 15 and 19 raise,
    the three files of 2050 are the only ones written, and nothing is
    produced for 2100, whose rasters are all available. *)
Example pipeline_without_2000_run :
  (run_all (pipeline exp_series world_without_2000) initial_state).1
  = inl (NameError "baseline_pm25_2000") ∧
  (run_each (pipeline exp_series world_without_2000) initial_state).1
  = [inr tt; inr tt; inr tt; inr tt; inl (NameError "baseline_pm25_2000");
     inr tt; inr tt; inl (NameError "baseline_mortality_2000")] ∧
  files_written (run_each (pipeline exp_series world_without_2000) initial_state).2
  = ["./smoke_data/results/total_smoke_deaths.csv";
     "./smoke_data/results/nofire_smoke_deaths.csv";
     "./smoke_data/results/fire_smoke_deaths.csv"] ∧
  env (run_each (pipeline exp_series world_without_2000) initial_state).2
    !! "difference_mortality_2100" = None.
Proof. repeat split; by vm_compute. Qed.

(** The sibling path: with the baseline of 2100 absent instead, the handler
    of cell 10 assigns [None], the later cells test it, no cell raises, and
    the files of 2000 and 2050 and their difference are written. *)
Example pipeline_without_2100_run :
  (run_each (pipeline exp_series world_without_2100) initial_state).1
  = [inr tt; inr tt; inr tt; inr tt; inr tt; inr tt; inr tt; inr tt] ∧
  files_written (run_each (pipeline exp_series world_without_2100) initial_state).2
  = ["./smoke_data/results/total_smoke_deaths.csv";
     "./smoke_data/results/nofire_smoke_deaths.csv";
     "./smoke_data/results/fire_smoke_deaths.csv";
     "./smoke_data/results/total_smoke_deaths_2000.csv";
     "./smoke_data/results/nofire_smoke_deaths_2000.csv";
     "./smoke_data/results/fire_smoke_deaths_2000.csv";
     "./smoke_data/results/fire_smoke_deaths_change_2000_2050.csv"] ∧
  env (run_each (pipeline exp_series world_without_2100) initial_state).2
    !! "difference_mortality_2100" = Some PyNone.
Proof. repeat split; by vm_compute. Qed.

(** With every file there, the twelve files are written. *)
Example pipeline_complete_run :
  (run_all (pipeline exp_series complete_world) initial_state).1 = inr tt ∧
  length (written (run_all (pipeline exp_series complete_world) initial_state).2) = 12.
Proof. split; by vm_compute. Qed.

(** * Further properties of the functions *)

(** ** [fix_lon]: errors, and what the call leaves alone *)

(** X1. On an object that has neither a coordinate nor a dimension named
    ['lon'] (the name is fixed in the function, whatever the data calls its
    longitudes), [fix_lon] raises [KeyError: 'lon'] at its first statement,
    and nothing has been changed. *)
Theorem fix_lon_without_lon (s : State) (ds : nat) (d : DataArray) :
  heap s !! ds = Some d → xcoords d !! "lon" = None → xdim d ≠ "lon" →
  fix_lon ds s = (inl (KeyError "lon"), s).
Proof.
  intros Hd Hl Hx. unfold fix_lon, mbind, M_bind, bind, deref, lift.
  assert (E : String.eqb "lon" (xdim d) = false)
    by (apply String.eqb_neq; intros H; by apply Hx).
  rewrite Hd. unfold getitem, lon_name. by rewrite Hl, E.
Qed.

Lemma fix_lon_without_lon_witness :
  fix_lon 0 (heap_of [grid_longitude])
  = (inl (KeyError "lon"), heap_of [grid_longitude]).
Proof.
  apply (fix_lon_without_lon (heap_of [grid_longitude]) 0 grid_longitude);
    [reflexivity | reflexivity | discriminate].
Defined.

Lemma is_unique_false_get_indexer (index labels : list Q) :
  is_unique index = false →
  get_indexer index labels
  = inl (InvalidIndexError "Reindexing only valid with uniquely valued Index objects").
Proof. intros H. unfold get_indexer. by rewrite H. Qed.

(** X2. When two longitudes of the input adjust to the same value (a grid
    that has both 0 and 360, or both -170 and 190), the selection by sorted
    labels is refused: [fix_lon] raises [InvalidIndexError]. No object is
    created, and the caller's object keeps the coordinate that the first
    statement gave it. *)
Theorem fix_lon_same_meridian (s : State) (ds : nat) (d : DataArray) (lons : list Q) :
  heap s !! ds = Some d → raster d → xindex d = Some lons →
  is_unique (map adjust_lon lons) = false →
  fix_lon ds s
  = (inl (InvalidIndexError "Reindexing only valid with uniquely valued Index objects"),
     mkState (<[ds := with_adjusted d lons]> (heap s)) (env s) (written s)).
Proof.
  intros Hd [Wd Dd] Hx Hu.
  assert (Hl : xcoords d !! "lon" = Some lons) by (by rewrite <- Dd).
  unfold fix_lon, mbind, M_bind, bind, deref, lift, alloc, store.
  rewrite Hd. unfold getitem at 1. unfold lon_name. simpl. rewrite Hl.
  unfold setitem. simpl. unfold xindex. rewrite Dd, Hl, length_map, Nat.eqb_refl.
  simpl. unfold swap_dims. simpl. rewrite lookup_insert_eq.
  unfold getitem. simpl. rewrite lookup_insert_eq.
  unfold sel. simpl. unfold xindex. simpl. rewrite lookup_insert_eq.
  rewrite is_unique_false_get_indexer by done. simpl.
  unfold with_adjusted. by rewrite Dd.
Qed.

Lemma fix_lon_same_meridian_witness :
  fix_lon 0 (heap_of [grid_cyclic])
  = (inl (InvalidIndexError "Reindexing only valid with uniquely valued Index objects"),
     mkState (<[0 := with_adjusted grid_cyclic [0; 180; 360]%Q]> (heap (heap_of [grid_cyclic])))
       (env (heap_of [grid_cyclic])) (written (heap_of [grid_cyclic]))).
Proof.
  apply (fix_lon_same_meridian (heap_of [grid_cyclic]) 0 grid_cyclic [0; 180; 360]%Q).
  - reflexivity.
  - by apply raster_check.
  - reflexivity.
  - reflexivity.
Defined.

Lemma adjust_lon_from_0_360 (x : Q) :
  (0 <= x)%Q → (x <= 360)%Q → (-180 < adjust_lon x)%Q ∧ (adjust_lon x <= 180)%Q.
Proof.
  intros H1 H2. unfold adjust_lon. destruct (Qltb 180 x) eqn:E.
  - apply Qltb_lt in E. split; lra.
  - apply Qltb_ge in E. split; lra.
Qed.

(** X3. On a raster in the 0 to 360 convention (every longitude in
    [0, 360], no two on one meridian) [fix_lon] returns a raster whose
    longitudes are the adjusted longitudes of the input in strictly
    ascending order, all in (-180, 180]: the meridian 180 itself is kept at
    +180, it is not moved to -180. *)
Theorem fix_lon_from_0_360 (s : State) (ds : nat) (d : DataArray) (lons : list Q) :
  heap s !! ds = Some d → raster d → xindex d = Some lons →
  Forall (λ x, (0 <= x)%Q ∧ (x <= 360)%Q) lons →
  is_unique (map adjust_lon lons) = true →
  ∃ (a : nat) (s' : State) (out : DataArray) (lons' : list Q),
    fix_lon ds s = (inr a, s') ∧ heap s' !! a = Some out ∧
    xindex out = Some lons' ∧
    lons' ≡ₚ map adjust_lon lons ∧
    StronglySorted Qlt lons' ∧
    Forall (λ x, (-180 < x)%Q ∧ (x <= 180)%Q) lons' ∧
    (180%Q ∈ lons → 180%Q ∈ lons').
Proof.
  intros Hd [Wd Dd] Hx Hrange Hu.
  assert (Hl : xcoords d !! "lon" = Some lons) by (by rewrite <- Dd).
  pose proof (fix_lon_eval s ds d lons Hd Dd Hl Hu) as Hrun. cbv zeta in Hrun.
  set (adj := map adjust_lon lons) in *.
  pose proof (take_at_sort_positions adj Hu) as Htake.
  eexists _, _, (normalized d lons), (sorted adj).
  split; [exact Hrun|]. split; [apply lookup_insert_eq|].
  split; [unfold xindex, normalized; cbn [xdim xcoords]; fold adj;
          by rewrite lookup_insert_eq, Htake|].
  split; [apply sorted_Permutation|].
  split; [by apply sorted_strict|].
  split.
  - apply Forall_forall. intros x Hx'. rewrite sorted_Permutation in Hx'.
    apply list_elem_of_fmap in Hx' as (x0 & -> & Hx0).
    rewrite Forall_forall in Hrange. destruct (Hrange x0 Hx0) as [? ?].
    by apply adjust_lon_from_0_360.
  - intros H180. rewrite sorted_Permutation. unfold adj.
    apply list_elem_of_fmap. exists 180%Q. split; [reflexivity|done].
Qed.

Lemma fix_lon_from_0_360_witness :
  ∃ (a : nat) (s' : State) (out : DataArray) (lons' : list Q),
    fix_lon 0 (heap_of [grid_0_360]) = (inr a, s') ∧ heap s' !! a = Some out ∧
    xindex out = Some lons' ∧
    lons' ≡ₚ map adjust_lon [0; 90; 180; 270]%Q ∧
    StronglySorted Qlt lons' ∧
    Forall (λ x, (-180 < x)%Q ∧ (x <= 180)%Q) lons' ∧
    (180%Q ∈ [0; 90; 180; 270]%Q → 180%Q ∈ lons').
Proof.
  apply (fix_lon_from_0_360 (heap_of [grid_0_360]) 0 grid_0_360 [0; 90; 180; 270]%Q).
  - reflexivity.
  - by apply raster_check.
  - reflexivity.
  - repeat constructor; by vm_compute.
  - reflexivity.
Defined.

Lemma Qmem_false_lt (x : Q) (l : list Q) :
  Forall (Qlt x) l → Qmem x l = false.
Proof.
  induction 1 as [|y l Hy _ IH]; simpl; [done|].
  rewrite IH, orb_false_r. destruct (Qeq_bool x y) eqn:E; [|done].
  apply Qeq_bool_iff in E. lra.
Qed.

Lemma strictly_ascending_unique (l : list Q) :
  StronglySorted Qlt l → is_unique l = true.
Proof.
  induction 1 as [|x l _ IH Hx]; simpl; [done|].
  by rewrite (Qmem_false_lt x l Hx), IH.
Qed.

Lemma strictly_ascending_le (l : list Q) :
  StronglySorted Qlt l → StronglySorted Qle l.
Proof.
  induction 1 as [|x l _ IH Hx]; constructor; [done|].
  eapply Forall_impl; [exact Hx|]. intros y Hy. simpl in *. lra.
Qed.

(** What [fix_lon] returns on an object whose longitudes need no change. *)
Lemma normalized_ascending (d : DataArray) (lons : list Q) :
  raster d → xindex d = Some lons →
  Forall (λ x, (x <= 180)%Q) lons → StronglySorted Qlt lons →
  normalized d lons
  = mkDataArray (lat d) (xdim d) (delete "_longitude_adjusted" (xcoords d)) (values d).
Proof.
  intros [Wd Dd] Hx Hrange Hs.
  assert (Hl : xcoords d !! "lon" = Some lons) by (by rewrite <- Dd).
  pose proof (strictly_ascending_unique lons Hs) as Hu.
  unfold normalized. rewrite (map_adjust_lon_fixed lons Hrange).
  rewrite (sort_positions_ascending lons Hu (strictly_ascending_le lons Hs)).
  destruct Wd as (Hlen & idx & Hi & Hv & Hc).
  rewrite Hx in Hi. injection Hi as <-.
  rewrite take_at_seq, (take_at_rows_seq _ _ Hv).
  rewrite (take_at_coords_seq (<["_longitude_adjusted" := lons]> (xcoords d)))
    by (by apply map_Forall_insert_2).
  rewrite Dd. f_equal.
  rewrite delete_insert_ne, delete_insert_eq by done.
  rewrite (delete_delete (xcoords d)), insert_delete_eq.
  apply insert_id. by rewrite lookup_delete_ne.
Qed.

(** X4. On a raster that is normalized already (longitudes strictly
    ascending, none above 180) [fix_lon] changes neither a coordinate nor a
    value: it returns, as a new object, a raster equal to its input. *)
Theorem fix_lon_normalized_input (s : State) (ds : nat) (d : DataArray) (lons : list Q) :
  heap s !! ds = Some d → raster d → xindex d = Some lons →
  Forall (λ x, (x <= 180)%Q) lons → StronglySorted Qlt lons →
  xcoords d !! "_longitude_adjusted" = None →
  ∃ (a : nat) (s' : State),
    fix_lon ds s = (inr a, s') ∧ heap s !! a = None ∧ heap s' !! a = Some d.
Proof.
  intros Hd Rd Hx Hrange Hs Hnone.
  pose proof Rd as [Wd Dd].
  assert (Hl : xcoords d !! "lon" = Some lons) by (by rewrite <- Dd).
  assert (Hu : is_unique (map adjust_lon lons) = true).
  { rewrite (map_adjust_lon_fixed lons Hrange). by apply strictly_ascending_unique. }
  pose proof (fix_lon_eval s ds d lons Hd Dd Hl Hu) as Hrun. cbv zeta in Hrun.
  eexists _, _. split; [exact Hrun|].
  pose proof (is_fresh (dom (<[ds:=with_adjusted d lons]> (heap s)))) as Hf.
  split.
  - apply not_elem_of_dom. intros Hin. apply Hf. rewrite dom_insert_L. set_solver.
  - cbn [heap]. rewrite lookup_insert_eq. f_equal.
    rewrite (normalized_ascending d lons Rd Hx Hrange Hs).
    rewrite delete_id by done. by destruct d.
Qed.

Lemma fix_lon_normalized_input_witness :
  ∃ (a : nat) (s' : State),
    fix_lon 0 (heap_of [grid_centered]) = (inr a, s') ∧
    heap (heap_of [grid_centered]) !! a = None ∧ heap s' !! a = Some grid_centered.
Proof.
  apply (fix_lon_normalized_input (heap_of [grid_centered]) 0 grid_centered
           [-90; 0; 90; 180]%Q).
  - reflexivity.
  - by apply raster_check.
  - reflexivity.
  - repeat constructor; by vm_compute.
  - repeat constructor; by vm_compute.
  - reflexivity.
Defined.

Lemma normalized_with_adjusted (d : DataArray) (lons : list Q) :
  normalized (with_adjusted d lons) lons = normalized d lons.
Proof.
  unfold normalized, with_adjusted. cbn [lat xcoords values].
  by rewrite insert_insert_eq.
Qed.

(** X5. The coordinate that [fix_lon] leaves on its argument does not
    disturb a later call: called a second time on the same object, it
    returns a second new raster equal to the first. *)
Theorem fix_lon_again_on_argument (s : State) (ds : nat) (d : DataArray) (lons : list Q) :
  heap s !! ds = Some d → raster d → xindex d = Some lons →
  is_unique (map adjust_lon lons) = true →
  ∃ (a1 a2 : nat) (s1 s2 : State) (out : DataArray),
    fix_lon ds s = (inr a1, s1) ∧ fix_lon ds s1 = (inr a2, s2) ∧
    a1 ≠ a2 ∧ heap s2 !! a1 = Some out ∧ heap s2 !! a2 = Some out.
Proof.
  intros Hd [Wd Dd] Hx Hu.
  assert (Hl : xcoords d !! "lon" = Some lons) by (by rewrite <- Dd).
  pose proof (fix_lon_eval s ds d lons Hd Dd Hl Hu) as Hrun1. cbv zeta in Hrun1.
  set (h1 := <[ds := with_adjusted d lons]> (heap s)) in *.
  set (a1 := fresh (dom h1)) in *.
  set (s1 := mkState _ _ _) in Hrun1.
  assert (Ha1 : a1 ≠ ds).
  { intros Heq. pose proof (is_fresh (dom h1)) as Hf. fold a1 in Hf.
    rewrite Heq in Hf. apply Hf. unfold h1. rewrite dom_insert_L. set_solver. }
  assert (Hd1 : heap s1 !! ds = Some (with_adjusted d lons)).
  { unfold s1. cbn [heap]. rewrite lookup_insert_ne by done. apply lookup_insert_eq. }
  assert (Hl1 : xcoords (with_adjusted d lons) !! "lon" = Some lons).
  { unfold with_adjusted. cbn [xcoords]. by rewrite lookup_insert_ne. }
  pose proof (fix_lon_eval s1 ds (with_adjusted d lons) lons Hd1 Dd Hl1 Hu) as Hrun2.
  cbv zeta in Hrun2.
  set (h2 := <[ds := with_adjusted (with_adjusted d lons) lons]> (heap s1)) in *.
  set (a2 := fresh (dom h2)) in *.
  assert (Ha2 : a1 ≠ a2).
  { intros Heq. pose proof (is_fresh (dom h2)) as Hf. fold a2 in Hf.
    rewrite <- Heq in Hf. apply Hf. unfold h2, s1. cbn [heap].
    rewrite !dom_insert_L. set_solver. }
  eexists a1, a2, s1, _, (normalized d lons).
  split; [exact Hrun1|]. split; [exact Hrun2|]. split; [done|].
  cbn [heap]. split.
  - rewrite lookup_insert_ne by done. unfold h2.
    rewrite lookup_insert_ne by done. unfold s1. cbn [heap]. apply lookup_insert_eq.
  - rewrite lookup_insert_eq. by rewrite normalized_with_adjusted.
Qed.

Lemma fix_lon_again_on_argument_witness :
  ∃ (a1 a2 : nat) (s1 s2 : State) (out : DataArray),
    fix_lon 0 (heap_of [grid_0_360]) = (inr a1, s1) ∧ fix_lon 0 s1 = (inr a2, s2) ∧
    a1 ≠ a2 ∧ heap s2 !! a1 = Some out ∧ heap s2 !! a2 = Some out.
Proof.
  apply (fix_lon_again_on_argument (heap_of [grid_0_360]) 0 grid_0_360 [0; 90; 180; 270]%Q).
  - reflexivity.
  - by apply raster_check.
  - reflexivity.
  - reflexivity.
Defined.

(** ** What a call leaves as it was *)

Lemma confined_bind {A B} (own : list nat) (m : M A) (k : A → M B) :
  confined own m → (∀ a, confined own (k a)) → confined own (m ≫= k).
Proof.
  intros Hm Hk s. unfold mbind, M_bind, bind.
  destruct (Hm s) as (He & Hw & Hh).
  destruct (m s) as [[e|a] s']; simpl in *; [done|].
  destruct (Hk a s') as (He' & Hw' & Hh').
  split; [congruence|]. split; [congruence|].
  intros b Hb Hsome. rewrite Hh' by (by rewrite ?Hh). by apply Hh.
Qed.

Lemma confined_pure {A} (own : list nat) (m : M A) :
  (∀ s, (m s).2 = s) → confined own m.
Proof. intros H s. by rewrite H. Qed.

Lemma confined_lift {A} (own : list nat) (r : result A) : confined own (lift r).
Proof. by apply confined_pure. Qed.

Lemma confined_ret {A} (own : list nat) (a : A) : confined own (mret a : M A).
Proof. by apply confined_pure. Qed.

Lemma confined_deref (own : list nat) (a : nat) : confined own (deref a).
Proof. apply confined_pure. intros s. unfold deref. by destruct (heap s !! a). Qed.

Lemma confined_alloc (own : list nat) (d : DataArray) : confined own (alloc d).
Proof.
  intros s. unfold alloc. cbn [snd env written heap]. repeat split.
  intros a _ [d' Hd']. rewrite lookup_insert_ne; [done|].
  intros <-. pose proof (is_fresh (dom (heap s))) as Hf.
  apply Hf. apply elem_of_dom. by eexists.
Qed.

Lemma confined_store (own : list nat) (a : nat) (d : DataArray) :
  a ∈ own → confined own (store a d).
Proof.
  intros Ha s. unfold store. cbn [snd env written heap]. repeat split.
  intros b Hb _. rewrite lookup_insert_ne; [done|]. by intros <-.
Qed.

Lemma fix_lon_confined (ds : nat) : confined [ds] (fix_lon ds).
Proof.
  unfold fix_lon.
  repeat first [ apply confined_deref | apply confined_lift | apply confined_alloc
               | apply confined_store; constructor
               | apply confined_bind; [|intros ?] ].
Qed.

(** The object that [fix_lon] returns is a new one. *)
Lemma fix_lon_returns_new (s : State) (ds a : nat) :
  (fix_lon ds s).1 = inr a → heap s !! a = None ∧ is_Some (heap (fix_lon ds s).2 !! a).
Proof.
  unfold fix_lon, mbind, M_bind, bind, deref, lift, alloc, store.
  destruct (heap s !! ds) as [d|]; [|done].
  repeat match goal with
         | |- context [match ?r with inl _ => _ | inr _ => _ end] =>
             destruct r; cbn [fst snd heap]; try done
         end.
  intros [= <-]. split; [|rewrite lookup_insert_eq; by eexists].
  apply not_elem_of_dom. intros Hin.
  match type of Hin with fresh ?X ∈ _ => apply (is_fresh X) end.
  apply dom_insert_subseteq, Hin.
Qed.

(** X6. Apart from the coordinate it adds to its argument, [fix_lon]
    touches nothing: whether it returns or raises, the variables of the
    notebook, the files written and every other object are as they were, and
    the object it returns is a new one, at an address where there was
    none. *)
Theorem fix_lon_touches_nothing_else (s : State) (ds : nat) :
  env (fix_lon ds s).2 = env s ∧ written (fix_lon ds s).2 = written s ∧
  (∀ a, a ≠ ds → is_Some (heap s !! a) → heap (fix_lon ds s).2 !! a = heap s !! a) ∧
  (∀ a, (fix_lon ds s).1 = inr a → heap s !! a = None ∧ is_Some (heap (fix_lon ds s).2 !! a)).
Proof.
  destruct (fix_lon_confined ds s) as (He & Hw & Hh).
  split; [done|]. split; [done|]. split.
  - intros a Ha. apply Hh. by intros ->%list_elem_of_singleton.
  - apply fix_lon_returns_new.
Qed.

(** ** [sum_within_country]: errors, and its use in the notebook *)

Lemma sum_within_country_pure (w : World) (data : nat) (countries : list Geometry)
    (s : State) :
  (sum_within_country w data countries s).2 = s.
Proof.
  unfold sum_within_country, mbind, M_bind, bind, deref, lift.
  destruct (heap s !! data) as [d|]; [|done].
  destruct (natural_earth w) as [rs|]; [|done].
  by repeat match goal with
            | |- context [match ?r with inl _ => _ | inr _ => _ end] =>
                destruct r; cbn [fst snd]
            end.
Qed.

(** X7. [sum_within_country] changes nothing: whether it returns or raises,
    the raster it was given and every other object, the variables of the
    notebook and the files written are as they were. *)
Theorem sum_within_country_leaves_state (w : World) (data : nat)
    (countries : list Geometry) (s : State) :
  heap (sum_within_country w data countries s).2 = heap s ∧
  env (sum_within_country w data countries s).2 = env s ∧
  written (sum_within_country w data countries s).2 = written s.
Proof. by rewrite sum_within_country_pure. Qed.

Lemma rmapM_raises {A B} (f : A → result B) (e : exn) (l : list A) :
  Forall (λ x, f x = inl e ∨ ∃ b, f x = inr b) l →
  Exists (λ x, f x = inl e) l →
  rmapM f l = inl e.
Proof.
  induction 1 as [|x l Hx _ IH]; intros Hex; [by apply Exists_nil in Hex|].
  simpl. destruct Hx as [Hx|[b Hx]]; rewrite Hx; simpl; [done|].
  apply Exists_cons in Hex as [Hex|Hex]; [congruence|].
  by rewrite IH.
Qed.

(** X8. The name of a country is read from the attribute ['NAME'] of its
    record. When a record that is paired with a geometry has no such
    attribute, the call raises [KeyError: 'NAME'] and returns no sum at
    all, also for the countries before it. *)
Theorem sum_within_country_without_name (w : World) (s : State) (data : nat)
    (d : DataArray) (countries : list Geometry) (recs : list ShapeRecord)
    (lons : list Q) (k : nat) (g : Geometry) (r : ShapeRecord) :
  natural_earth w = Some recs → heap s !! data = Some d →
  wf_dataarray d → xcoords d !! "lon" = Some lons →
  lat d ≠ [] → lons ≠ [] →
  countries !! k = Some g → recs !! k = Some r → NAME r = None →
  sum_within_country w data countries s = (inl (KeyError "NAME"), s).
Proof.
  intros Hw Hd Wd Hlon Hlat Hlons Hg Hr Hname.
  unfold sum_within_country, mbind, M_bind, bind, deref, lift.
  rewrite Hd, Hw. unfold getitem. simpl. rewrite Hlon. f_equal.
  apply rmapM_raises.
  - apply Forall_forall. intros [g' r'] _. simpl.
    destruct (NAME r') as [name|] eqn:E.
    + right. eexists. by apply country_sum_eval.
    + left. unfold country_sum. unfold NAME in E. by rewrite E.
  - apply Exists_exists. exists (g, r). split.
    + apply list_elem_of_lookup. exists k. apply lookup_zip_with_Some. eauto.
    + simpl. unfold country_sum. unfold NAME in Hname. by rewrite Hname.
Qed.

Lemma sum_within_country_without_name_witness :
  sum_within_country (mkWorld ∅ (Some [squareland; nameless])) 0 [square; square]
    (heap_of [edge_grid])
  = (inl (KeyError "NAME"), heap_of [edge_grid]).
Proof.
  apply (sum_within_country_without_name (mkWorld ∅ (Some [squareland; nameless]))
           (heap_of [edge_grid]) 0 edge_grid [square; square] [squareland; nameless]
           [1]%Q 1 square nameless);
    try reflexivity; try done.
  by apply wf_dataarrayb_true.
Defined.

Lemma cell_centers_no_columns (lats : list Q) : cell_centers lats [] = [].
Proof. induction lats as [|la lats IH]; [done|]. exact IH. Qed.

(** X9. On a raster without cells (no latitude or no longitude, which is
    what arithmetic on rasters with no label in common returns) the mask of
    a country is an empty array, which numpy takes for an array of floats
    and refuses as an index: with at least one country to sum, the call
    raises [IndexError]. *)
Theorem sum_within_country_empty_grid (w : World) (s : State) (data : nat)
    (d : DataArray) (g : Geometry) (gs : list Geometry)
    (r : ShapeRecord) (rs : list ShapeRecord) (lons : list Q) (name : string) :
  natural_earth w = Some (r :: rs) → heap s !! data = Some d →
  xcoords d !! "lon" = Some lons → lat d = [] ∨ lons = [] →
  NAME r = Some name →
  sum_within_country w data (g :: gs) s
  = (inl (IndexError "arrays used as indices must be of integer (or boolean) type"), s).
Proof.
  intros Hw Hd Hlon Hempty Hname.
  unfold sum_within_country, mbind, M_bind, bind, deref, lift.
  rewrite Hd, Hw. unfold getitem. simpl. rewrite Hlon. f_equal.
  unfold country_sum. unfold NAME in Hname. rewrite Hname. cbv zeta.
  assert (Hc : cell_centers (lat d) lons = []).
  { destruct Hempty as [->| ->]; [done|apply cell_centers_no_columns]. }
  by rewrite Hc.
Qed.

Lemma sum_within_country_empty_grid_witness :
  sum_within_country one_country 0 [square] (heap_of [grid_no_columns])
  = (inl (IndexError "arrays used as indices must be of integer (or boolean) type"),
     heap_of [grid_no_columns]).
Proof.
  apply (sum_within_country_empty_grid one_country (heap_of [grid_no_columns]) 0
           grid_no_columns square [] squareland [] []%Q "Squareland");
    try reflexivity.
  by right.
Defined.

(** X10. In the notebook the geometries come from the same shapefile as the
    records (cell 17): after that cell, [sum_within_country] on the variable
    [countries] returns one entry for every record of the file, none is cut
    off, and the entry of a record bears its name and the sum over the
    cells inside its own geometry. *)
Theorem sum_within_country_after_cell_17 (w : World) (s : State) (data : nat)
    (d : DataArray) (recs : list ShapeRecord) (lons : list Q) :
  natural_earth w = Some recs → heap s !! data = Some d →
  wf_dataarray d → xcoords d !! "lon" = Some lons →
  lat d ≠ [] → lons ≠ [] →
  Forall (λ r, is_Some (NAME r)) recs →
  ∃ (s' : State) (countries : list Geometry) (series : Series),
    cell_17 w s = (inr tt, s') ∧
    env s' !! "countries" = Some (PyGeometries countries) ∧
    sum_within_country w data countries s' = (inr series, s') ∧
    length series = length recs ∧
    ∀ k r, recs !! k = Some r →
      ∃ name, NAME r = Some name ∧
        series !! k = Some (name, nansum (inside_values d lons (geometry r))).
Proof.
  intros Hw Hd Wd Hlon Hlat Hlons Hnames.
  eexists _, (geometry <$> recs), _. split.
  { unfold cell_17, try_except. rewrite Hw. reflexivity. }
  cbn [env heap]. split.
  { rewrite lookup_insert_ne by done. apply lookup_insert_eq. }
  split.
  { eapply sum_within_country_eval; eauto.
    rewrite length_fmap, firstn_all. exact Hnames. }
  split.
  { by rewrite length_map, length_zip_with, length_fmap, Nat.min_id. }
  intros k r Hr.
  rewrite Forall_lookup in Hnames. destruct (Hnames k r Hr) as [name Hname].
  exists name. split; [done|].
  unfold Series. rewrite lookup_map.
  assert (Hz : zip (geometry <$> recs) recs !! k = Some (geometry r, r)).
  { apply lookup_zip_with_Some. exists (geometry r), r.
    split; [done|]. split; [|done]. by rewrite list_lookup_fmap, Hr. }
  rewrite Hz. simpl. by rewrite Hname.
Qed.

Lemma sum_within_country_after_cell_17_witness :
  ∃ (s' : State) (countries : list Geometry) (series : Series),
    cell_17 complete_world (heap_of [grid_west [[1; 2]; [3; 4]]%float]) = (inr tt, s') ∧
    env s' !! "countries" = Some (PyGeometries countries) ∧
    sum_within_country complete_world 0 countries s' = (inr series, s') ∧
    length series = length two_countries ∧
    ∀ k r, two_countries !! k = Some r →
      ∃ name, NAME r = Some name ∧
        series !! k
        = Some (name, nansum (inside_values (grid_west [[1; 2]; [3; 4]]%float)
                                [0; 270]%Q (geometry r))).
Proof.
  apply (sum_within_country_after_cell_17 complete_world
           (heap_of [grid_west [[1; 2]; [3; 4]]%float]) 0
           (grid_west [[1; 2]; [3; 4]]%float) two_countries [0; 270]%Q);
    try reflexivity; try done.
  - by apply wf_dataarrayb_true.
  - repeat constructor; by eexists.
Defined.

(** ** [mortality]: what it leaves alone, missing values, no smoke *)

Lemma mortality_confined (np_exp : float → float) (pm25 b population : nat) :
  confined [] (mortality np_exp pm25 b population).
Proof.
  unfold mortality.
  apply confined_bind; [apply confined_deref|intros vb].
  apply confined_bind; [apply confined_deref|intros vpm25]. cbv zeta.
  apply confined_bind; [apply confined_lift|intros scaled].
  apply confined_bind; [apply confined_deref|intros vpop].
  apply confined_bind; [apply confined_lift|intros product].
  (* the object allocated is the only one written to *)
  intros s. unfold mbind, M_bind, bind, alloc, lift, store, mret, M_ret, ret.
  cbn [fst snd].
  assert (Hfresh : ∀ a, is_Some (heap s !! a) → fresh (dom (heap s)) ≠ a).
  { intros a [d Hd] Heq. apply (is_fresh (dom (heap s))). rewrite Heq.
    apply elem_of_dom. by eexists. }
  destruct (getitem product "lon") as [e|lon]; cbn [fst snd env written heap].
  { repeat split. intros a _ Ha. by rewrite lookup_insert_ne by (by apply Hfresh). }
  destruct (setitem product "lon" lon) as [e|reassigned]; cbn [fst snd env written heap].
  { repeat split. intros a _ Ha. by rewrite lookup_insert_ne by (by apply Hfresh). }
  repeat split. intros a _ Ha. by rewrite !lookup_insert_ne by (by apply Hfresh).
Qed.

(** X11. [mortality] works on new objects only: whether it returns or
    raises, its three arguments and every other object, the variables of
    the notebook and the files written are as they were, and the raster it
    returns is at an address where there was none. *)
Theorem mortality_touches_nothing (np_exp : float → float) (s : State)
    (pm25 b population : nat) :
  env (mortality np_exp pm25 b population s).2 = env s ∧
  written (mortality np_exp pm25 b population s).2 = written s ∧
  (∀ a, is_Some (heap s !! a) →
        heap (mortality np_exp pm25 b population s).2 !! a = heap s !! a) ∧
  (∀ a, (mortality np_exp pm25 b population s).1 = inr a →
        heap s !! a = None ∧ is_Some (heap (mortality np_exp pm25 b population s).2 !! a)).
Proof.
  destruct (mortality_confined np_exp pm25 b population s) as (He & Hw & Hh).
  split; [done|]. split; [done|]. split.
  - intros a. apply Hh. apply not_elem_of_nil.
  - unfold mortality, mbind, M_bind, bind, deref, lift, alloc, store, mret, M_ret, ret.
    repeat match goal with
           | |- context [match heap s !! ?a with Some _ => _ | None => _ end] =>
               destruct (heap s !! a); cbn [fst snd heap]; try done
           | |- context [match ?r with inl _ => _ | inr _ => _ end] =>
               destruct r; cbn [fst snd heap]; try done
           end.
    intros a [= <-]. split; [|rewrite lookup_insert_eq; by eexists].
    apply not_elem_of_dom, is_fresh.
Qed.

(** The function on aligned rasters, cell by cell. *)
Lemma mortality_on_grid (np_exp : float → float) (s : State)
    (pm25 b population : nat) (c r p : DataArray) :
  heap s !! pm25 = Some c → heap s !! b = Some r → heap s !! population = Some p →
  raster c → raster r → raster p →
  same_grid c r → same_grid r p →
  ∃ (a : nat) (s' : State) (out : DataArray),
    mortality np_exp pm25 b population s = (inr a, s') ∧
    heap s' !! a = Some out ∧
    ∀ i j x y z,
      cell c i j = Some x → cell r i j = Some y → cell p i j = Some z →
      cell out i j = Some (y * response_cell np_exp x * z)%float.
Proof.
  intros Hc Hr Hp [Wc Dc] [Wr Dr] [Wp Dp] Gcr Grp.
  apply same_grid_sym in Gcr.
  destruct Gcr as (Lrc & ir & ic & Ir & Ic & Xrc).
  destruct Grp as (Lrp & ir' & ip & Ir' & Ip & Xrp).
  rewrite Ir in Ir'. injection Ir' as <-.
  assert (Wresp : wf_dataarray (response np_exp c))
    by (unfold response; by do 3 apply wf_da_map).
  assert (Hscaled := da_binop_same_grid PrimFloat.mul r (response np_exp c) ir ic
                       Wr Wresp (eq_trans Dr (eq_sym Dc)) Ir Ic Lrc Xrc).
  assert (Wscaled := wf_binop_same_grid PrimFloat.mul r (response np_exp c) ir ic
                       Wr Wresp Ir Ic Lrc Xrc).
  set (scaled := mkDataArray _ _ _ _) in Hscaled, Wscaled.
  assert (Iscaled : xindex scaled = Some ir) by apply lookup_insert_eq.
  assert (Hproduct := da_binop_same_grid PrimFloat.mul scaled p ir ip
                        Wscaled Wp (eq_trans Dr (eq_sym Dp)) Iscaled Ip Lrp Xrp).
  set (product := mkDataArray _ _ _ _) in Hproduct.
  assert (Iproduct : xindex product = Some ir) by apply lookup_insert_eq.
  eexists _, _, product. split.
  { eapply mortality_eval; eauto. }
  split; [apply lookup_insert_eq|].
  intros i j x y z Hx Hy Hz. unfold cell, product, scaled. cbn [values].
  apply cell_zip_with; [|exact Hz]. apply cell_zip_with; [exact Hy|].
  rewrite response_values. by apply cell_map.
Qed.

(** *** Not-a-number and zero in binary64 *)

Lemma is_nan_spec (x : float) : is_nan x = true ↔ Prim2SF x = S754_nan.
Proof.
  unfold is_nan. rewrite FloatAxioms.eqb_spec.
  destruct (Prim2SF x) as [sg|sg| |sg m e]; simpl.
  - split; done.
  - split; [by destruct sg|done].
  - split; done.
  - unfold SFeqb, SFcompare. rewrite Z.compare_refl, Pos.compare_cont_refl.
    split; [by destruct sg|done].
Qed.

Lemma mul_nan_l (x y : float) : is_nan x = true → is_nan (x * y)%float = true.
Proof.
  rewrite !is_nan_spec, mul_spec. by intros ->.
Qed.

Lemma mul_nan_r (x y : float) : is_nan y = true → is_nan (x * y)%float = true.
Proof.
  rewrite !is_nan_spec, mul_spec. intros ->. by destruct (Prim2SF x).
Qed.

Lemma sub_nan_r (x y : float) : is_nan y = true → is_nan (x - y)%float = true.
Proof.
  rewrite !is_nan_spec, sub_spec. intros ->. by destruct (Prim2SF x).
Qed.

Lemma is_zero_cases (x : float) : is_zero x = true → x = 0%float ∨ x = (-0)%float.
Proof.
  intros [sg Hsg]%is_zero_spec.
  destruct sg; [right|left]; apply Prim2SF_inj; by rewrite Hsg.
Qed.

Lemma is_finite_spec (x : float) :
  is_finite x = true →
  (∃ sg, Prim2SF x = S754_zero sg) ∨ (∃ sg m e, Prim2SF x = S754_finite sg m e).
Proof.
  unfold is_finite. rewrite negb_true_iff, orb_false_iff. intros [Hnan Hinf].
  destruct (Prim2SF x) as [sg|sg| |sg m e] eqn:E; eauto.
  - exfalso. unfold is_infinity in Hinf.
    rewrite FloatAxioms.eqb_spec, abs_spec, E in Hinf. by vm_compute in Hinf.
  - exfalso. apply not_true_iff_false in Hnan. by apply Hnan, is_nan_spec.
Qed.

Lemma mul_zero_r (x y : float) :
  is_finite x = true → is_zero y = true → is_zero (x * y)%float = true.
Proof.
  intros Hx [sy Hy]%is_zero_spec. apply is_zero_spec. rewrite mul_spec, Hy.
  destruct (is_finite_spec x Hx) as [[sx ->]|(sx & m & e & ->)]; simpl; eauto.
Qed.

Lemma mul_zero_l (x y : float) :
  is_zero x = true → is_finite y = true → is_zero (x * y)%float = true.
Proof.
  intros [sx Hx]%is_zero_spec Hy. apply is_zero_spec. rewrite mul_spec, Hx.
  destruct (is_finite_spec y Hy) as [[sy ->]|(sy & m & e & ->)]; simpl; eauto.
Qed.

(** X12. Missing values propagate: at a cell where the rate or the
    population is NaN, or where the exponential of the concentration term
    is NaN, the mortality that [mortality] returns on aligned rasters is
    NaN. *)
Theorem mortality_nan_propagates (np_exp : float → float) (s : State)
    (pm25 b population : nat) (c r p : DataArray) :
  heap s !! pm25 = Some c → heap s !! b = Some r → heap s !! population = Some p →
  raster c → raster r → raster p →
  same_grid c r → same_grid r p →
  ∃ (a : nat) (s' : State) (out : DataArray),
    mortality np_exp pm25 b population s = (inr a, s') ∧
    heap s' !! a = Some out ∧
    ∀ i j x y z,
      cell c i j = Some x → cell r i j = Some y → cell p i j = Some z →
      is_nan y = true ∨ is_nan z = true ∨ is_nan (np_exp (minus_k * x)%float) = true →
      ∃ v, cell out i j = Some v ∧ is_nan v = true.
Proof.
  intros Hc Hr Hp Rc Rr Rp Gcr Grp.
  destruct (mortality_on_grid np_exp s pm25 b population c r p)
    as (a & s' & out & Hrun & Hout & Hcell); try done.
  exists a, s', out. split; [done|]. split; [done|].
  intros i j x y z Hx Hy Hz Hnan. eexists. split; [by apply Hcell|].
  destruct Hnan as [Hn|[Hn|Hn]].
  - by apply mul_nan_l, mul_nan_l.
  - by apply mul_nan_r.
  - apply mul_nan_l, mul_nan_r. unfold response_cell. by apply sub_nan_r.
Qed.

Lemma mortality_nan_propagates_witness :
  ∃ (a : nat) (s' : State) (out : DataArray),
    mortality exp_series 0 1 2 gap_state = (inr a, s') ∧
    heap s' !! a = Some out ∧
    ∀ i j x y z,
      cell sample_concentration i j = Some x → cell sample_rate i j = Some y →
      cell missing_population i j = Some z →
      is_nan y = true ∨ is_nan z = true ∨ is_nan (exp_series (minus_k * x)%float) = true →
      ∃ v, cell out i j = Some v ∧ is_nan v = true.
Proof.
  apply (mortality_nan_propagates exp_series gap_state 0 1 2
           sample_concentration sample_rate missing_population).
  - reflexivity.
  - reflexivity.
  - reflexivity.
  - by apply raster_check.
  - by apply raster_check.
  - by apply raster_check.
  - split; [reflexivity|]. by exists [0; 1]%Q, [0; 1]%Q.
  - split; [reflexivity|]. by exists [0; 1]%Q, [0; 1]%Q.
Defined.

(** X13. No smoke, no smoke deaths: with an exponential that is exact at
    zero ([exp(0) = 1], as every libm has it), at a cell where the
    concentration is zero and the rate and the population are finite, the
    mortality is zero. *)
Theorem mortality_zero_concentration (np_exp : float → float) (s : State)
    (pm25 b population : nat) (c r p : DataArray) :
  np_exp 0%float = 1%float → np_exp (-0)%float = 1%float →
  heap s !! pm25 = Some c → heap s !! b = Some r → heap s !! population = Some p →
  raster c → raster r → raster p →
  same_grid c r → same_grid r p →
  ∃ (a : nat) (s' : State) (out : DataArray),
    mortality np_exp pm25 b population s = (inr a, s') ∧
    heap s' !! a = Some out ∧
    ∀ i j x y z,
      cell c i j = Some x → cell r i j = Some y → cell p i j = Some z →
      is_zero x = true → is_finite y = true → is_finite z = true →
      ∃ v, cell out i j = Some v ∧ is_zero v = true.
Proof.
  intros Hexp Hexp' Hc Hr Hp Rc Rr Rp Gcr Grp.
  destruct (mortality_on_grid np_exp s pm25 b population c r p)
    as (a & s' & out & Hrun & Hout & Hcell); try done.
  exists a, s', out. split; [done|]. split; [done|].
  intros i j x y z Hx Hy Hz Zx Fy Fz. eexists. split; [by apply Hcell|].
  assert (Hresp : response_cell np_exp x = 0%float).
  { unfold response_cell.
    destruct (is_zero_cases x Zx) as [-> | ->].
    - change (minus_k * 0)%float with (-0)%float. by rewrite Hexp'.
    - change (minus_k * -0)%float with 0%float. by rewrite Hexp. }
  rewrite Hresp. apply mul_zero_l; [|done]. by apply mul_zero_r.
Qed.

Lemma mortality_zero_concentration_witness :
  ∃ (a : nat) (s' : State) (out : DataArray),
    mortality exp_series 0 1 2 aligned_state = (inr a, s') ∧
    heap s' !! a = Some out ∧
    ∀ i j x y z,
      cell sample_concentration i j = Some x → cell sample_rate i j = Some y →
      cell sample_population i j = Some z →
      is_zero x = true → is_finite y = true → is_finite z = true →
      ∃ v, cell out i j = Some v ∧ is_zero v = true.
Proof.
  apply (mortality_zero_concentration exp_series aligned_state 0 1 2
           sample_concentration sample_rate sample_population).
  - by vm_compute.
  - by vm_compute.
  - reflexivity.
  - reflexivity.
  - reflexivity.
  - by apply raster_check.
  - by apply raster_check.
  - by apply raster_check.
  - split; [reflexivity|]. by exists [0; 1]%Q, [0; 1]%Q.
  - split; [reflexivity|]. by exists [0; 1]%Q, [0; 1]%Q.
Defined.

(** ** Invariants of the variables and of the files written *)

Section Keeps.

Variable Q : gmap string pyval → list (string * Series) → Prop.

Lemma keeps_bind {A B} (m : M A) (k : A → M B) :
  keeps Q m → (∀ a, keeps Q (k a)) → keeps Q (m ≫= k).
Proof.
  intros Hm Hk s Hs. unfold mbind, M_bind, bind.
  specialize (Hm s Hs). destruct (m s) as [[e|a] s']; simpl in *; [done|].
  by apply Hk.
Qed.

Lemma keeps_try_except (body handler : M unit) :
  keeps Q body → keeps Q handler → keeps Q (try_except body handler).
Proof.
  intros Hb Hh s Hs. unfold try_except. specialize (Hb s Hs).
  destruct (body s) as [[e|[]] s']; simpl in *; [|done].
  destruct e; try by apply Hh. done.
Qed.

Lemma keeps_confined {A} (own : list nat) (m : M A) : confined own m → keeps Q m.
Proof. intros H s Hs. destruct (H s) as (-> & -> & _). done. Qed.

Lemma keeps_pure {A} (m : M A) : (∀ s, (m s).2 = s) → keeps Q m.
Proof. intros H s Hs. by rewrite H. Qed.

Lemma keeps_ret {A} (a : A) : keeps Q (ret a).
Proof. by apply keeps_pure. Qed.

Lemma keeps_mret {A} (a : A) : keeps Q (mret a : M A).
Proof. by apply keeps_pure. Qed.

Lemma keeps_raise {A} (e : exn) : keeps Q (raise e : M A).
Proof. by apply keeps_pure. Qed.

Lemma keeps_lift {A} (r : result A) : keeps Q (lift r).
Proof. by apply keeps_pure. Qed.

Lemma keeps_deref (a : nat) : keeps Q (deref a).
Proof. apply keeps_pure. intros s. unfold deref. by destruct (heap s !! a). Qed.

Lemma keeps_name (y : string) : keeps Q (name y).
Proof. apply keeps_pure. intros s. unfold name. by destruct (env s !! y). Qed.

Lemma keeps_store (a : nat) (d : DataArray) : keeps Q (store a d).
Proof. by intros s Hs. Qed.

Lemma keeps_alloc (d : DataArray) : keeps Q (alloc d).
Proof. by intros s Hs. Qed.

Lemma keeps_fix_lon (ds : nat) : keeps Q (fix_lon ds).
Proof. eapply keeps_confined, fix_lon_confined. Qed.

Lemma keeps_mortality (np_exp : float → float) (pm25 b population : nat) :
  keeps Q (mortality np_exp pm25 b population).
Proof. eapply keeps_confined, mortality_confined. Qed.

Lemma keeps_sum_within_country (w : World) (data : nat) (countries : list Geometry) :
  keeps Q (sum_within_country w data countries).
Proof.
  intros s Hs.
  by rewrite sum_within_country_pure.
Qed.

Lemma keeps_assign (y : string) (v : pyval) :
  (∀ e wr, Q e wr → Q (<[y := v]> e) wr) → keeps Q (assign y v).
Proof. intros H s Hs. by apply H. Qed.

Lemma keeps_write_file (path : string) (sr : Series) :
  (∀ e wr, Q e wr → Q e (wr ++ [(path, sr)])) → keeps Q (write_file path sr).
Proof. intros H s Hs. by apply H. Qed.

Lemma keeps_run_all (cells : list (M unit)) :
  Forall (keeps Q) cells → keeps Q (run_all cells).
Proof.
  induction 1 as [|c cells Hc _ IH]; simpl; [apply keeps_ret|].
  apply keeps_bind; [done|]. by intros [].
Qed.

Lemma keeps_run_each (cells : list (M unit)) (s : State) :
  Forall (keeps Q) cells → Q (env s) (written s) →
  Q (env (run_each cells s).2) (written (run_each cells s).2).
Proof.
  intros H. revert s. induction H as [|c cells Hc _ IH]; intros s Hs; [done|].
  rewrite run_each_cons. cbn [snd]. by apply IH, Hc.
Qed.

End Keeps.

(** One step of the proof that a cell keeps an invariant: the cell is taken
    apart down to the assignments and the writes, which [tac] settles. *)
Ltac keeps_step tac :=
  lazymatch goal with
  | |- keeps _ (try_except _ _) => apply keeps_try_except
  | |- keeps _ (mbind _ _) => apply keeps_bind; [|intros ?]
  | |- keeps _ (bind _ _) => apply keeps_bind; [|intros ?]
  | |- keeps _ (fix_lon _) => apply keeps_fix_lon
  | |- keeps _ (mortality _ _ _ _) => apply keeps_mortality
  | |- keeps _ (sum_within_country _ _ _) => apply keeps_sum_within_country
  | |- keeps _ (deref _) => apply keeps_deref
  | |- keeps _ (lift _) => apply keeps_lift
  | |- keeps _ (alloc _) => apply keeps_alloc
  | |- keeps _ (store _ _) => apply keeps_store
  | |- keeps _ (name _) => apply keeps_name
  | |- keeps _ (ret _) => apply keeps_ret
  | |- keeps _ (mret _) => apply keeps_mret
  | |- keeps _ (raise _) => apply keeps_raise
  | |- keeps _ (assign _ _) => apply keeps_assign; tac
  | |- keeps _ (write_file _ _) => apply keeps_write_file; tac
  | |- keeps _ (match ?v with _ => _ end) => destruct v
  end.

Ltac keeps_cell tac := cbn [foldr]; repeat keeps_step tac.

Lemma run_all_app (l1 l2 : list (M unit)) (s : State) :
  run_all (l1 ++ l2) s
  = match run_all l1 s with
    | (inl e, s') => (inl e, s')
    | (inr _, s') => run_all l2 s'
    end.
Proof.
  revert s. induction l1 as [|c l1 IH]; intros s; simpl; [done|].
  unfold mbind, M_bind, bind. destruct (c s) as [[e|[]] s']; [done|]. apply IH.
Qed.

Lemma run_each_app (l1 l2 : list (M unit)) (s : State) :
  run_each (l1 ++ l2) s
  = ((run_each l1 s).1 ++ (run_each l2 (run_each l1 s).2).1,
     (run_each l2 (run_each l1 s).2).2).
Proof.
  revert s. induction l1 as [|c l1 IH]; intros s; simpl.
  - by destruct (run_each l2 s).
  - destruct (c s) as [r s']. rewrite IH.
    destruct (run_each l1 s') as [rs s'']. simpl.
    by destruct (run_each l2 s'').
Qed.

Lemma length_run_each (l : list (M unit)) (s : State) :
  length (run_each l s).1 = length l.
Proof.
  revert s. induction l as [|c l IH]; intros s; [done|].
  rewrite run_each_cons. simpl. by rewrite IH.
Qed.

(** What the cell after the cells [l] returns when every cell is executed. *)
Lemma run_each_next (l : list (M unit)) (c : M unit) (rest : list (M unit)) (s : State) :
  (run_each (l ++ c :: rest) s).1 !! length l = Some (c (run_each l s).2).1.
Proof.
  rewrite run_each_app. cbn [fst].
  rewrite lookup_app_r by (by rewrite length_run_each).
  rewrite length_run_each, Nat.sub_diag, run_each_cons. reflexivity.
Qed.

(** ** The cells after the pipeline *)

Ltac unfold_cells :=
  unfold cell_10, cell_11, cell_12, cell_14, cell_15, cell_17, cell_18, cell_19,
    void, cell_21, load_into, refix, open_raster, copy_coord, assign_mortality,
    assign_difference, assign_sums, to_csv, assign_change, sum_difference, sum_of,
    name_arr, name_series, name_str, name_geometries, is_not_none.

Ltac before_cell_22_tac :=
  let e := fresh "e" in let wr := fresh "wr" in
  let H1 := fresh "H" in let H2 := fresh "H" in
  intros e wr [H1 H2];
  first
    [ by split
    | split;
      [ by rewrite lookup_insert_ne
      | first [ by rewrite lookup_insert_ne
              | right; rewrite lookup_insert_eq; by eexists ] ] ].

Lemma notebook_keeps_before_cell_22 (np_exp : float → float) (w : World) :
  Forall (keeps before_cell_22) (pipeline np_exp w ++ [void cell_21]).
Proof.
  unfold pipeline. simpl app.
  repeat apply Forall_cons_2; try apply Forall_nil_2;
    unfold_cells; keeps_cell before_cell_22_tac.
Qed.

Lemma cell_22_raises (s : State) :
  before_cell_22 (env s) (written s) →
  ∃ e, void cell_22 s = (inl e, s) ∧
       (e = NameError "difference_sums" ∨ e = NameError "difference_sums_2000").
Proof.
  intros [H1 H2]. unfold void, cell_22, sum_difference, sum_of, name_series, name,
    mbind, M_bind, bind, mret, M_ret, ret.
  destruct H2 as [H2|[sr H2]]; rewrite H2; cbn [fst snd]; [by eauto|].
  rewrite H1. by eauto.
Qed.

(** X14. Cell 22 reads a variable, [difference_sums], that no cell of the
    notebook assigns. Whatever the data, "Run All" from a fresh kernel ends
    in an exception no later than this cell, so that the cells after it
    (the maps) are not reached; and when every cell is executed in turn,
    cell 22 (the tenth of the cells that compute) raises [NameError], for
    [difference_sums] as soon as the sums of 2000 exist. *)
Theorem notebook_stops_at_cell_22 (np_exp : float → float) (w : World) :
  (∃ e s', run_all (notebook np_exp w) initial_state = (inl e, s')) ∧
  (∃ e, (run_each (notebook np_exp w) initial_state).1 !! 9 = Some (inl e) ∧
        (e = NameError "difference_sums" ∨ e = NameError "difference_sums_2000")) ∧
  ∀ s sr, env s !! "difference_sums" = None →
          env s !! "difference_sums_2000" = Some (PySeries sr) →
          cell_22 s = (inl (NameError "difference_sums"), s).
Proof.
  pose proof (notebook_keeps_before_cell_22 np_exp w) as Hk.
  assert (H0 : before_cell_22 (env initial_state) (written initial_state))
    by (split; [done|by left]).
  assert (Hnb : notebook np_exp w
                = (pipeline np_exp w ++ [void cell_21]) ++ [void cell_22])
    by (unfold notebook; by rewrite <- app_assoc).
  split; [|split].
  - rewrite Hnb, run_all_app.
    pose proof (keeps_run_all _ _ Hk initial_state H0) as H1.
    destruct (run_all _ initial_state) as [[e|[]] s1]; [by eauto|].
    cbn [snd] in H1. simpl run_all. unfold mbind, M_bind, bind.
    destruct (cell_22_raises s1 H1) as (e & -> & _). by eauto.
  - rewrite Hnb.
    pose proof (run_each_next (pipeline np_exp w ++ [void cell_21]) (void cell_22) []
                  initial_state) as Hnext.
    change (length (pipeline np_exp w ++ [void cell_21])) with 9 in Hnext.
    pose proof (keeps_run_each _ _ initial_state Hk H0) as H1.
    destruct (cell_22_raises _ H1) as (e & He & Hcases).
    exists e. split; [|done]. etrans; [exact Hnext|]. by rewrite He.
  - intros s sr H1 H2. unfold cell_22, sum_difference, sum_of, name_series, name,
      mbind, M_bind, bind, mret, M_ret, ret.
    by rewrite H2, H1.
Qed.

(** ** The pipeline when a file is not there *)

Ltac untouched_tac :=
  let e := fresh "e" in let wr := fresh "wr" in
  let H1 := fresh "H" in let H2 := fresh "H" in
  intros e wr [H1 H2]; split; [exact H1|];
  repeat (apply Forall_cons_1 in H2 as [? H2]);
  repeat (apply Forall_cons_2; [by rewrite lookup_insert_ne|]);
  apply Forall_nil_2.

Lemma untouched_lookup (xs : list string) (x : string) (s : State) :
  untouched xs (env s) (written s) → x ∈ xs → env s !! x = None.
Proof. intros [_ H] Hx. rewrite Forall_forall in H. by apply H. Qed.

(** A statement that needs an unassigned variable raises and changes
    nothing. *)
Lemma assign_mortality_unbound (np_exp : float → float) (x pm25 pop : string) (s : State) :
  env s !! "death_rate" = None ∨ env s !! pm25 = None →
  ∃ e, assign_mortality np_exp x pm25 pop s = (inl e, s).
Proof.
  intros H. unfold assign_mortality, name_arr, name, mbind, M_bind, bind, mret, M_ret, ret, raise.
  destruct (env s !! pm25) as [[]|] eqn:E1; try by eauto.
  destruct H as [H|H]; [|done]. rewrite H. by eauto.
Qed.

Lemma assign_sums_unbound (w : World) (x raster : string) (s : State) :
  env s !! raster = None →
  assign_sums w x raster s = (inl (NameError raster), s).
Proof.
  intros H. unfold assign_sums, name_arr, name, mbind, M_bind, bind. by rewrite H.
Qed.

Lemma bind_raises {A B} (m : M A) (k : A → M B) (e : exn) (s s' : State) :
  m s = (inl e, s') → (m ≫= k) s = (inl e, s').
Proof. intros H. unfold mbind, M_bind, bind. by rewrite H. Qed.

Lemma cell_12_without_death_rate (w : World) (s : State) :
  rasters w !! (path_join data_dir "death_rate.nc", "death_rate") = None →
  cell_12 w s = (inr tt, s).
Proof.
  intros H. unfold cell_12, try_except, open_raster, mbind, M_bind, bind, raise.
  by rewrite H.
Qed.

Lemma cell_10_keeps_no_rate (w : World) : keeps (untouched no_rate) (cell_10 w).
Proof. unfold_cells; keeps_cell untouched_tac. Qed.

Lemma cell_11_keeps_no_rate (w : World) : keeps (untouched no_rate) (cell_11 w).
Proof. unfold_cells; keeps_cell untouched_tac. Qed.

Lemma cell_17_keeps_no_rate (w : World) : keeps (untouched no_rate) (cell_17 w).
Proof. unfold_cells; keeps_cell untouched_tac. Qed.

Lemma cell_14_without_rate (np_exp : float → float) (s : State) :
  env s !! "death_rate" = None → ∃ e, cell_14 np_exp s = (inl e, s).
Proof.
  intros H. destruct (assign_mortality_unbound np_exp "baseline_mortality_2050"
    "baseline_pm25_2050" "population_2050" s (or_introl H)) as [e He].
  exists e. unfold cell_14. by apply bind_raises.
Qed.

Lemma cell_15_without_rate (np_exp : float → float) (s : State) :
  env s !! "death_rate" = None → ∃ e, cell_15 np_exp s = (inl e, s).
Proof.
  intros H. destruct (assign_mortality_unbound np_exp "baseline_mortality_2000"
    "baseline_pm25_2000" "population_2000" s (or_introl H)) as [e He].
  exists e. unfold cell_15. by apply bind_raises.
Qed.

Lemma cell_18_without_mortality (w : World) (s : State) :
  env s !! "baseline_mortality_2050" = None →
  cell_18 w s = (inl (NameError "baseline_mortality_2050"), s).
Proof. intros H. unfold cell_18. by apply bind_raises, assign_sums_unbound. Qed.

Lemma cell_19_without_mortality (w : World) (s : State) :
  env s !! "baseline_mortality_2000" = None →
  cell_19 w s = (inl (NameError "baseline_mortality_2000"), s).
Proof. intros H. unfold cell_19. by apply bind_raises, assign_sums_unbound. Qed.

Lemma keeps_unchanged {A} (Q : gmap string pyval → list (string * Series) → Prop) (m : M A) :
  (∀ s, Q (env s) (written s) → (m s).2 = s) → keeps Q m.
Proof. intros H s Hs. by rewrite H. Qed.

Lemma pipeline_keeps_no_rate (np_exp : float → float) (w : World) :
  rasters w !! (path_join data_dir "death_rate.nc", "death_rate") = None →
  Forall (keeps (untouched no_rate)) (pipeline np_exp w).
Proof.
  intros Hfile. unfold pipeline.
  repeat apply Forall_cons_2; try apply Forall_nil_2.
  - apply cell_10_keeps_no_rate.
  - apply cell_11_keeps_no_rate.
  - apply keeps_unchanged. intros s _. by rewrite cell_12_without_death_rate.
  - apply keeps_unchanged. intros s Hs.
    destruct (cell_14_without_rate np_exp s) as [e ->]; [|done].
    eapply untouched_lookup; [done|]. unfold no_rate. set_solver.
  - apply keeps_unchanged. intros s Hs.
    destruct (cell_15_without_rate np_exp s) as [e ->]; [|done].
    eapply untouched_lookup; [done|]. unfold no_rate. set_solver.
  - apply cell_17_keeps_no_rate.
  - apply keeps_unchanged. intros s Hs. rewrite cell_18_without_mortality; [done|].
    eapply untouched_lookup; [done|]. unfold no_rate. set_solver.
  - apply keeps_unchanged. intros s Hs. rewrite cell_19_without_mortality; [done|].
    eapply untouched_lookup; [done|]. unfold no_rate. set_solver.
Qed.

(** X15. The handler of cell 12 only prints. When the file of the death
    rates is not there, whatever else is, [death_rate] stays unassigned:
    "Run All" ends in an exception, and when every cell is executed in turn
    cell 14 (the fourth) raises and no CSV file at all is written, for no
    year. *)
Theorem pipeline_without_death_rate (np_exp : float → float) (w : World) :
  rasters w !! (path_join data_dir "death_rate.nc", "death_rate") = None →
  (∃ e s', run_all (pipeline np_exp w) initial_state = (inl e, s')) ∧
  (∃ e, (run_each (pipeline np_exp w) initial_state).1 !! 3 = Some (inl e)) ∧
  written (run_each (pipeline np_exp w) initial_state).2 = [].
Proof.
  intros Hfile.
  pose proof (pipeline_keeps_no_rate np_exp w Hfile) as Hk.
  assert (H0 : untouched no_rate (env initial_state) (written initial_state)).
  { split; [done|]. by repeat constructor. }
  assert (Hsplit : pipeline np_exp w
                   = [cell_10 w; cell_11 w; cell_12 w] ++ cell_14 np_exp
                     :: [cell_15 np_exp; cell_17 w; cell_18 w; cell_19 w]) by done.
  assert (Hk3 : Forall (keeps (untouched no_rate)) [cell_10 w; cell_11 w; cell_12 w]).
  { rewrite Hsplit in Hk. by apply Forall_app in Hk as [? _]. }
  split; [|split].
  - rewrite Hsplit, run_all_app.
    pose proof (keeps_run_all _ _ Hk3 initial_state H0) as H3.
    destruct (run_all _ initial_state) as [[e|[]] s3]; [by eauto|].
    cbn [snd] in H3. simpl run_all. unfold mbind, M_bind, bind.
    destruct (cell_14_without_rate np_exp s3) as [e ->]; [|by eauto].
    eapply untouched_lookup; [done|]. unfold no_rate. set_solver.
  - pose proof (keeps_run_each _ _ initial_state Hk3 H0) as H3.
    destruct (cell_14_without_rate np_exp (run_each [cell_10 w; cell_11 w; cell_12 w]
                                             initial_state).2) as [e He].
    { eapply untouched_lookup; [done|]. unfold no_rate. set_solver. }
    exists e. rewrite Hsplit.
    etrans; [exact (run_each_next [cell_10 w; cell_11 w; cell_12 w] (cell_14 np_exp) _
                      initial_state)|].
    by rewrite He.
  - by destruct (keeps_run_each _ _ initial_state Hk H0) as [? _].
Qed.

Lemma pipeline_without_death_rate_witness :
  (∃ e s', run_all (pipeline exp_series world_without_death_rate) initial_state = (inl e, s')) ∧
  (∃ e, (run_each (pipeline exp_series world_without_death_rate) initial_state).1 !! 3
        = Some (inl e)) ∧
  written (run_each (pipeline exp_series world_without_death_rate) initial_state).2 = [].
Proof.
  apply (pipeline_without_death_rate exp_series world_without_death_rate).
  reflexivity.
Defined.

(** *** The names of the files *)

(** Cell 11 opens the no-fire raster of 2000 under a name that differs, in
    the case of four letters, from the name in the list of cell 3. *)
Lemma nofire_2000_not_listed (w : World) :
  only_required_files w →
  rasters w !! (path_join data_dir "CESM_09x125_PM25_2000_Baseline_nofire.nc", "pm25") = None.
Proof.
  intros H.
  destruct (rasters w !! _) as [d|] eqn:E; [exfalso|done].
  apply H in E. cbn [fst] in E.
  apply (bool_decide_pack _) in E. by vm_compute in E.
Qed.

Lemma cell_10_keeps_no_nofire (w : World) : keeps (untouched no_nofire_2000) (cell_10 w).
Proof. unfold_cells; keeps_cell untouched_tac. Qed.

Lemma cell_12_keeps_no_nofire (w : World) : keeps (untouched no_nofire_2000) (cell_12 w).
Proof. unfold_cells; keeps_cell untouched_tac. Qed.

Lemma cell_14_keeps_no_nofire (np_exp : float → float) :
  keeps (untouched no_nofire_2000) (cell_14 np_exp).
Proof. unfold_cells; keeps_cell untouched_tac. Qed.

Lemma cell_17_keeps_no_nofire (w : World) : keeps (untouched no_nofire_2000) (cell_17 w).
Proof. unfold_cells; keeps_cell untouched_tac. Qed.

(** Cell 11 without the no-fire raster: the baseline may be bound, raw; the
    load that follows raises, and the handler prints. *)
Lemma cell_11_keeps_no_nofire (w : World) :
  rasters w !! (path_join data_dir "CESM_09x125_PM25_2000_Baseline_nofire.nc", "pm25") = None →
  keeps (untouched no_nofire_2000) (cell_11 w).
Proof.
  intros Hfile s Hs.
  unfold cell_11, try_except, load_into, open_raster, mbind, M_bind, bind, raise, alloc,
    assign, ret.
  rewrite Hfile. clear Hfile.
  destruct (rasters w !! _) as [d|]; cbn [fst snd env written heap]; [|exact Hs].
  revert Hs. generalize (env s) (written s). untouched_tac.
Qed.

(** Cell 15 without [nofire_pm25_2000]: its second statement raises. *)
Lemma cell_15_without_nofire (np_exp : float → float) (s : State) :
  untouched no_nofire_2000 (env s) (written s) →
  ∃ e s', cell_15 np_exp s = (inl e, s') ∧
          untouched no_nofire_2000 (env s') (written s').
Proof.
  intros Hs. unfold cell_15.
  assert (Hk : keeps (untouched no_nofire_2000)
                 (assign_mortality np_exp "baseline_mortality_2000" "baseline_pm25_2000"
                    "population_2000"))
    by (unfold_cells; keeps_cell untouched_tac).
  specialize (Hk s Hs). unfold mbind, M_bind, bind.
  destruct (assign_mortality np_exp "baseline_mortality_2000" _ _ s) as [[e|[]] s1];
    cbn [snd] in Hk; [by eauto|].
  destruct (assign_mortality_unbound np_exp "nofire_mortality_2000" "nofire_pm25_2000"
              "population_2000" s1) as [e ->]; [|by eauto].
  right. eapply untouched_lookup; [done|]. unfold no_nofire_2000. set_solver.
Qed.

(** Cell 19 without [nofire_mortality_2000]: its second statement raises,
    before anything is written. *)
Lemma cell_19_without_nofire (w : World) (s : State) :
  env s !! "nofire_mortality_2000" = None →
  ∃ e s', cell_19 w s = (inl e, s') ∧ written s' = written s.
Proof.
  intros Hs. unfold cell_19.
  assert (Hk : keeps (λ e wr, e !! "nofire_mortality_2000" = None ∧ wr = written s)
                 (assign_sums w "baseline_sums_2000" "baseline_mortality_2000")).
  { unfold_cells.
    keeps_cell ltac:(intros e wr [? ?]; split; [by rewrite lookup_insert_ne|done]). }
  specialize (Hk s (conj Hs eq_refl)). unfold mbind, M_bind, bind.
  destruct (assign_sums w "baseline_sums_2000" _ s) as [[e|[]] s1];
    cbn [snd] in Hk; destruct Hk as [Hk1 Hk2]; [by eauto|].
  rewrite (assign_sums_unbound w "nofire_sums_2000" "nofire_mortality_2000" s1 Hk1).
  by eauto.
Qed.

(** Cell 18 from a state where nothing was written: it writes the files of
    2050, in order, as far as it gets, and assigns no mortality. *)
Lemma cell_18_writes_2050 (w : World) (s : State) :
  untouched no_nofire_2000 (env s) (written s) →
  files_written (cell_18 w s).2 `prefix_of` files_2050 ∧
  env (cell_18 w s).2 !! "nofire_mortality_2000" = None.
Proof.
  intros Hs. unfold cell_18.
  assert (Hk : ∀ x raster, x ≠ "nofire_pm25_2000" → x ≠ "nofire_mortality_2000" →
                 keeps (untouched no_nofire_2000) (assign_sums w x raster)).
  { intros x raster H1 H2. unfold_cells. keeps_cell untouched_tac. }
  unfold files_written, mbind, M_bind, bind.
  pose proof (Hk "baseline_sums_2050" "baseline_mortality_2050" ltac:(done) ltac:(done) s Hs) as H1.
  destruct (assign_sums w "baseline_sums_2050" _ s) as [[e|[]] s1]; cbn [snd] in *.
  { destruct H1 as [-> H1]. split; [by eexists|].
    eapply Forall_forall in H1; [exact H1|]. unfold no_nofire_2000. set_solver. }
  pose proof (Hk "nofire_sums_2050" "nofire_mortality_2050" ltac:(done) ltac:(done) s1 H1) as H2.
  destruct (assign_sums w "nofire_sums_2050" _ s1) as [[e|[]] s2]; cbn [snd] in *.
  { destruct H2 as [-> H2]. split; [by eexists|].
    eapply Forall_forall in H2; [exact H2|]. unfold no_nofire_2000. set_solver. }
  pose proof (Hk "difference_sums_2050" "difference_mortality_2050" ltac:(done) ltac:(done) s2 H2)
    as H3.
  destruct (assign_sums w "difference_sums_2050" _ s2) as [[e|[]] s3]; cbn [snd] in *.
  { destruct H3 as [-> H3]. split; [by eexists|].
    eapply Forall_forall in H3; [exact H3|]. unfold no_nofire_2000. set_solver. }
  destruct H3 as [Hw3 H3].
  assert (Hn : env s3 !! "nofire_mortality_2000" = None).
  { eapply Forall_forall in H3; [exact H3|]. unfold no_nofire_2000. set_solver. }
  unfold to_csv, name_series, name_str, name, assign, write_file,
    mbind, M_bind, bind, mret, M_ret, ret, raise.
  cbn [env written heap fst snd].
  repeat first
    [ rewrite lookup_insert_eq
    | rewrite lookup_insert_ne by done
    | progress cbn [env written heap fst snd]
    | match goal with
      | |- context [match env s3 !! ?x with _ => _ end] =>
          destruct (env s3 !! x) as [[]|]
      end ].
  all: rewrite ?Hw3; cbn [map app fst]; split; [unfold files_2050; by eexists|done].
Qed.

(** X16. The no-fire raster of 2000 is opened as
    [CESM_09x125_PM25_2000_Baseline_nofire.nc], and listed in cell 3 as
    [CESM_09x125_PM25_2000_BaseLine_NoFire.nc]. With a data directory that
    holds the files under the names of the list (and a file system that
    tells the two names apart) the load fails in cell 11, whose handler
    prints: "Run All" ends in an exception, cell 15 (the fifth cell)
    raises, and the only files that can be written are those of 2050;
    nothing is written for 2000 or 2100, nor any change between years. *)
Theorem pipeline_with_listed_files (np_exp : float → float) (w : World) :
  only_required_files w →
  (∃ e s', run_all (pipeline np_exp w) initial_state = (inl e, s')) ∧
  (∃ e, (run_each (pipeline np_exp w) initial_state).1 !! 4 = Some (inl e)) ∧
  files_written (run_each (pipeline np_exp w) initial_state).2 `prefix_of` files_2050.
Proof.
  intros Hfiles. pose proof (nofire_2000_not_listed w Hfiles) as Hfile.
  assert (H0 : untouched no_nofire_2000 (env initial_state) (written initial_state)).
  { split; [done|]. by repeat constructor. }
  assert (Hsplit : pipeline np_exp w
                   = [cell_10 w; cell_11 w; cell_12 w; cell_14 np_exp] ++ cell_15 np_exp
                     :: [cell_17 w; cell_18 w; cell_19 w]) by done.
  assert (Hk4 : Forall (keeps (untouched no_nofire_2000))
                  [cell_10 w; cell_11 w; cell_12 w; cell_14 np_exp]).
  { repeat apply Forall_cons_2; try apply Forall_nil_2.
    - apply cell_10_keeps_no_nofire.
    - by apply cell_11_keeps_no_nofire.
    - apply cell_12_keeps_no_nofire.
    - apply cell_14_keeps_no_nofire. }
  split; [|split].
  - rewrite Hsplit, run_all_app.
    pose proof (keeps_run_all _ _ Hk4 initial_state H0) as H4.
    destruct (run_all _ initial_state) as [[e|[]] s4]; [by eauto|].
    cbn [snd] in H4. simpl run_all. unfold mbind, M_bind, bind.
    destruct (cell_15_without_nofire np_exp s4 H4) as (e & s5 & -> & _). by eauto.
  - pose proof (keeps_run_each _ _ initial_state Hk4 H0) as H4.
    destruct (cell_15_without_nofire np_exp _ H4) as (e & s5 & He & _).
    exists e. rewrite Hsplit.
    etrans; [exact (run_each_next [cell_10 w; cell_11 w; cell_12 w; cell_14 np_exp]
                      (cell_15 np_exp) _ initial_state)|].
    by rewrite He.
  - rewrite Hsplit, run_each_app. cbn [snd].
    pose proof (keeps_run_each _ _ initial_state Hk4 H0) as H4.
    set (s4 := (run_each _ initial_state).2) in *.
    rewrite !run_each_cons. cbn [snd run_each].
    destruct (cell_15_without_nofire np_exp s4 H4) as (e & s5 & -> & H5). cbn [snd].
    pose proof (cell_17_keeps_no_nofire w s5 H5) as H6.
    set (s6 := (cell_17 w s5).2) in *.
    destruct (cell_18_writes_2050 w s6 H6) as [H7 H7'].
    set (s7 := (cell_18 w s6).2) in *.
    destruct (cell_19_without_nofire w s7 H7') as (e' & s8 & -> & Hw).
    cbn [snd]. unfold files_written in *. by rewrite Hw.
Qed.

Lemma pipeline_with_listed_files_witness :
  (∃ e s', run_all (pipeline exp_series listed_world) initial_state = (inl e, s')) ∧
  (∃ e, (run_each (pipeline exp_series listed_world) initial_state).1 !! 4 = Some (inl e)) ∧
  files_written (run_each (pipeline exp_series listed_world) initial_state).2
    `prefix_of` files_2050.
Proof.
  apply (pipeline_with_listed_files exp_series listed_world).
  unfold only_required_files. apply (bool_decide_unpack _). by vm_compute.
Defined.

(** ** Cell 10: the missing year that is handled *)

(** [Stuck] marks what no run reaches; on an object that has an index for
    its columns [fix_lon] is not stuck. *)
Lemma fix_lon_not_stuck (s : State) (ds : nat) (d : DataArray) (msg : string) :
  heap s !! ds = Some d → is_Some (xindex d) →
  (fix_lon ds s).1 ≠ inl (Stuck msg).
Proof.
  intros Hd [idx Hi].
  unfold fix_lon, mbind, M_bind, bind, deref, lift, alloc, store.
  rewrite Hd. unfold getitem at 1. unfold lon_name.
  change (String.eqb "lon" "lat") with false. cbv iota.
  destruct (xcoords d !! "lon") as [lon|] eqn:El.
  2: { destruct (String.eqb "lon" (xdim d)) eqn:Ex; [|done].
       apply String.eqb_eq in Ex. unfold xindex in Hi. rewrite <- Ex in Hi. congruence. }
  clear El. simpl.
  unfold setitem. simpl. rewrite Hi.
  destruct (_ =? _)%nat; [|done]. cbn [fst snd].
  unfold swap_dims. cbn [xdim xcoords]. rewrite lookup_insert_eq.
  destruct (String.eqb (xdim d) "lon"); [|done]. cbn [fst snd].
  unfold getitem. simpl. rewrite lookup_insert_eq.
  unfold sel. cbn [xdim]. simpl String.eqb. unfold xindex. cbn [xdim xcoords].
  rewrite lookup_insert_eq. unfold get_indexer.
  destruct (is_unique (map adjust_lon lon)); [|done].
  match goal with |- context [rmapM ?f ?l] => destruct (rmapM f l) as [e|pos] eqn:E end.
  { cbn [rbind fst snd]. intros [= Heq]. subst e. revert E.
    generalize (sorted (map adjust_lon lon)). intros l. induction l as [|x l IH]; [done|].
    simpl. destruct (get_loc _ x); [|done]. simpl.
    destruct (rmapM _ l); [|done]. exact IH. }
  cbn [rbind fst snd]. unfold drop. cbn [xcoords xdim isel_columns].
  destruct (_ !! "lon"); [|done]. simpl String.eqb. cbn [fst snd].
  unfold rename. cbn [xcoords].
  destruct (_ !! "_longitude_adjusted"); [|done].
  by destruct (_ !! "lon").
Qed.

Lemma name_arr_bound (x : string) (a : nat) (s : State) :
  env s !! x = Some (PyArr a) → name_arr x s = (inr a, s).
Proof.
  intros H. unfold name_arr, name, mbind, M_bind, bind. by rewrite H.
Qed.

(** [x = fix_lon(x)] on a variable that holds a raster. *)
Lemma refix_spec (x : string) (s : State) (a : nat) (d : DataArray) :
  env s !! x = Some (PyArr a) → heap s !! a = Some d → is_Some (xindex d) →
  (∀ msg, (refix x s).1 ≠ inl (Stuck msg)) ∧
  (∀ y, y ≠ x → env (refix x s).2 !! y = env s !! y) ∧
  (∀ b, b ≠ a → is_Some (heap s !! b) → heap (refix x s).2 !! b = heap s !! b) ∧
  ((refix x s).1 = inr tt →
   ∃ a', env (refix x s).2 !! x = Some (PyArr a') ∧
         is_Some (heap (refix x s).2 !! a') ∧ heap s !! a' = None).
Proof.
  intros Hx Ha Hi.
  pose proof (fix_lon_not_stuck s a d) as Hstuck.
  destruct (fix_lon_confined a s) as (He & _ & Hh').
  assert (Hh : ∀ b, b ≠ a → is_Some (heap s !! b) →
               heap (fix_lon a s).2 !! b = heap s !! b).
  { intros b Hb. apply Hh'. by intros ->%list_elem_of_singleton. }
  pose proof (fix_lon_returns_new s a) as Hr. clear Hh'.
  unfold refix, mbind, M_bind, bind. rewrite (name_arr_bound x a s Hx).
  destruct (fix_lon a s) as [[e|a'] s'] eqn:E; cbn [fst snd] in *.
  - split; [intros msg [= ->]; by apply (Hstuck msg Ha Hi)|].
    split; [intros y _; by rewrite He|]. split; [done|]. done.
  - unfold assign. cbn [fst snd env heap].
    split; [done|]. split; [intros y Hy; by rewrite lookup_insert_ne, He|].
    split; [done|]. intros _. exists a'. rewrite lookup_insert_eq.
    destruct (Hr a' eq_refl) as [? ?]. done.
Qed.

(** The [try] block of a year: two loads, then two normalizations. *)
Lemma year_block_spec (w : World) (x y fx fy : string) (s s' : State) (r : result unit) :
  x ≠ y →
  (∀ k d, rasters w !! k = Some d → is_Some (xindex d)) →
  (load_into w x fx "pm25" ;; load_into w y fy "pm25" ;; refix x ;; refix y) s = (r, s') →
  (∀ msg, r ≠ inl (Stuck msg)) ∧
  (r = inr tt →
   ∃ a b, a ≠ b ∧
     env s' !! x = Some (PyArr a) ∧ env s' !! y = Some (PyArr b) ∧
     is_Some (heap s' !! a) ∧ is_Some (heap s' !! b)).
Proof.
  intros Hxy Hfiles E. unfold load_into, open_raster in E.
  unfold mbind, M_bind, bind in E.
  destruct (rasters w !! (path_join data_dir fx, "pm25")) as [d1|] eqn:E1;
    [|by injection E as <- <-].
  unfold alloc at 1, assign at 1 in E. cbn [fst snd heap env written] in E.
  destruct (rasters w !! (path_join data_dir fy, "pm25")) as [d2|] eqn:E2;
    [|by injection E as <- <-].
  unfold alloc at 1, assign at 1 in E. cbn [fst snd heap env written] in E.
  set (a1 := fresh (dom (heap s))) in *.
  set (a2 := fresh (dom (<[a1 := d1]> (heap s)))) in *.
  assert (Ha : a2 ≠ a1).
  { intros Heq. apply (is_fresh (dom (<[a1 := d1]> (heap s)))). fold a2. rewrite Heq.
    apply elem_of_dom. rewrite lookup_insert_eq. by eexists. }
  set (s2 := mkState _ _ _) in E.
  assert (Hx2 : env s2 !! x = Some (PyArr a1)).
  { unfold s2. cbn [env]. rewrite lookup_insert_ne by done. apply lookup_insert_eq. }
  assert (Hy2 : env s2 !! y = Some (PyArr a2)) by apply lookup_insert_eq.
  assert (Hd1 : heap s2 !! a1 = Some d1).
  { unfold s2. cbn [heap]. rewrite lookup_insert_ne by done. apply lookup_insert_eq. }
  assert (Hd2 : heap s2 !! a2 = Some d2) by apply lookup_insert_eq.
  destruct (refix_spec x s2 a1 d1 Hx2 Hd1 (Hfiles _ _ E1)) as (Hs3 & He3 & Hh3 & Hr3).
  destruct (refix x s2) as [[e|[]] s3]; cbn [fst snd] in *.
  { injection E as <- <-. split; [intros msg [= ->]; by apply (Hs3 msg)|done]. }
  destruct (Hr3 eq_refl) as (a3 & Hx3 & Hl3 & Hn3).
  assert (Hy3 : env s3 !! y = Some (PyArr a2)) by (rewrite He3; done).
  assert (Hd3 : heap s3 !! a2 = Some d2) by (rewrite Hh3; [done|done|by eexists]).
  destruct (refix_spec y s3 a2 d2 Hy3 Hd3 (Hfiles _ _ E2)) as (Hs4 & He4 & Hh4 & Hr4).
  rewrite E in *. cbn [fst snd] in *.
  split; [done|]. intros ->.
  destruct (Hr4 eq_refl) as (a4 & Hy4 & Hl4 & Hn4).
  assert (Ha32 : a3 ≠ a2) by (intros ->; by rewrite Hd2 in Hn3).
  assert (Ha34 : a3 ≠ a4) by (intros ->; rewrite Hn4 in Hl3; by destruct Hl3).
  exists a3, a4. split; [done|]. split; [by rewrite He4|]. split; [done|].
  split; [by rewrite Hh4|done].
Qed.

Lemma try_except_returns (body handler : M unit) (s : State) :
  (∀ msg, (body s).1 ≠ inl (Stuck msg)) →
  (∀ s', (handler s').1 = inr tt) →
  (try_except body handler s).1 = inr tt ∧
  ((body s).1 = inr tt → (try_except body handler s).2 = (body s).2) ∧
  ((body s).1 ≠ inr tt → (try_except body handler s).2 = (handler (body s).2).2).
Proof.
  intros Hb Hh. unfold try_except.
  destruct (body s) as [[e|[]] s'] eqn:E; cbn [fst snd] in *; [|done].
  destruct e; try (split; [apply Hh|split; [done|by intros _]]).
  by destruct (Hb msg).
Qed.

(** X17. Cell 10 never raises, and it leaves the two PM2.5 variables of 2100
    in step, which is what the test in cell 15 relies on: after the cell,
    whatever files exist and whatever the state before, either both hold
    [None], or both hold rasters, two distinct new objects. (The rasters of
    the files are taken to have an index for their columns.) *)
Theorem cell_10_2100_in_step (w : World) (s : State) :
  (∀ k d, rasters w !! k = Some d → is_Some (xindex d)) →
  ∃ s', cell_10 w s = (inr tt, s') ∧
    ((env s' !! "baseline_pm25_2100" = Some PyNone ∧
      env s' !! "nofire_pm25_2100" = Some PyNone) ∨
     (∃ a b, a ≠ b ∧
        env s' !! "baseline_pm25_2100" = Some (PyArr a) ∧
        env s' !! "nofire_pm25_2100" = Some (PyArr b) ∧
        is_Some (heap s' !! a) ∧ is_Some (heap s' !! b))).
Proof.
  intros Hfiles. unfold cell_10.
  set (block1 := (load_into w "baseline_pm25_2050" _ _ ;; _)).
  set (block2 := (load_into w "baseline_pm25_2100" _ _ ;; _)).
  set (handler2 := (assign "baseline_pm25_2100" PyNone ;; _)).
  destruct (block1 s) as [r1' s1'] eqn:E1.
  destruct (year_block_spec w "baseline_pm25_2050" "nofire_pm25_2050" _ _ s s1' r1'
              ltac:(done) Hfiles E1) as [Hs1 _].
  assert (Hs1' : ∀ msg, (block1 s).1 ≠ inl (Stuck msg)) by (by rewrite E1).
  destruct (try_except_returns block1 (ret tt) s Hs1' ltac:(done)) as (Hr1 & _ & _).
  unfold mbind at 1, M_bind, bind at 1.
  destruct (try_except block1 (ret tt) s) as [r1 s1]. cbn [fst] in Hr1. subst r1.
  destruct (block2 s1) as [r2' s2'] eqn:E2.
  destruct (year_block_spec w "baseline_pm25_2100" "nofire_pm25_2100" _ _ s1 s2' r2'
              ltac:(done) Hfiles E2) as [Hs2 Hok2].
  assert (Hs2' : ∀ msg, (block2 s1).1 ≠ inl (Stuck msg)) by (by rewrite E2).
  destruct (try_except_returns block2 handler2 s1 Hs2' ltac:(done)) as (Hr2 & Hok & Herr).
  destruct (try_except block2 handler2 s1) as [r2 s2]. cbn [fst snd] in *. subst r2.
  exists s2. split; [done|]. rewrite E2 in Hok, Herr. cbn [fst snd] in *.
  destruct r2' as [e|[]].
  - left. rewrite Herr by done. unfold handler2, assign, mbind, M_bind, bind.
    cbn [fst snd env]. split; [|apply lookup_insert_eq].
    rewrite lookup_insert_ne by done. apply lookup_insert_eq.
  - right. rewrite Hok by done. by apply Hok2.
Qed.

Lemma cell_10_2100_in_step_witness :
  ∃ s', cell_10 world_without_2100 initial_state = (inr tt, s') ∧
    ((env s' !! "baseline_pm25_2100" = Some PyNone ∧
      env s' !! "nofire_pm25_2100" = Some PyNone) ∨
     (∃ a b, a ≠ b ∧
        env s' !! "baseline_pm25_2100" = Some (PyArr a) ∧
        env s' !! "nofire_pm25_2100" = Some (PyArr b) ∧
        is_Some (heap s' !! a) ∧ is_Some (heap s' !! b))).
Proof.
  apply (cell_10_2100_in_step world_without_2100 initial_state).
  apply (bool_decide_unpack _). by vm_compute.
Defined.

(** ** Running the cells on a heap of known objects *)

Lemma fresh_seq (n : nat) : foldr (Nat.max ∘ S) 0 (seq 0 n) = n.
Proof.
  assert (H : ∀ start len, foldr (Nat.max ∘ S) 0 (seq start len)
                           = if len is 0 then 0 else start + len).
  { intros start len. revert start. induction len as [|len IH]; intros start; [done|].
    simpl. rewrite IH. destruct len; lia. }
  rewrite H. by destruct n.
Qed.

Lemma fresh_map_seq (objs : list DataArray) :
  fresh (dom (map_seq 0 objs : gmap nat DataArray)) = length objs.
Proof.
  rewrite dom_seq_L, <- list_to_set_seq.
  unfold fresh, set_fresh. simpl.
  rewrite (infinite_fresh_Permutation _ _ (elements_list_to_set _ (NoDup_seq 0 (length objs)))).
  apply fresh_seq.
Qed.

Lemma alloc_st (d : DataArray) objs e wr :
  alloc d (st objs e wr) = (inr (length objs), st (objs ++ [d]) e wr).
Proof.
  unfold alloc, st. cbn [heap env written]. rewrite fresh_map_seq.
  by rewrite map_seq_snoc.
Qed.

Lemma heap_st (a : nat) objs e wr : heap (st objs e wr) !! a = objs !! a.
Proof. apply lookup_map_seq_0. Qed.

Lemma deref_st (a : nat) (d : DataArray) objs e wr :
  objs !! a = Some d → deref a (st objs e wr) = (inr d, st objs e wr).
Proof. intros H. unfold deref. by rewrite heap_st, H. Qed.

Lemma store_st (a : nat) (d d0 : DataArray) objs e wr :
  objs !! a = Some d0 →
  store a d (st objs e wr) = (inr tt, st (<[a := d]> objs) e wr).
Proof.
  intros H. unfold store, st. cbn [heap env written].
  rewrite insert_map_seq_0; [done|]. by eapply lookup_lt_Some.
Qed.

Lemma name_st (x : string) (v : pyval) objs e wr :
  e !! x = Some v → name x (st objs e wr) = (inr v, st objs e wr).
Proof. intros H. unfold name. cbn [env st]. by rewrite H. Qed.

Lemma assign_st (x : string) (v : pyval) objs e wr :
  assign x v (st objs e wr) = (inr tt, st objs (<[x := v]> e) wr).
Proof. reflexivity. Qed.

Lemma bind_step {A B} (m : M A) (k : A → M B) (s s1 : State) (a : A) (R : result B * State) :
  m s = (inr a, s1) → k a s1 = R → (m ≫= k) s = R.
Proof. intros H1 H2. unfold mbind, M_bind, bind. by rewrite H1. Qed.

Lemma bind_step' {A B} (m : M A) (k : A → M B) (s s1 : State) (a : A) (R : result B * State) :
  m s = (inr a, s1) → k a s1 = R → bind m k s = R.
Proof. apply bind_step. Qed.

Lemma try_except_ok (body handler : M unit) (s s' : State) :
  body s = (inr tt, s') → try_except body handler s = (inr tt, s').
Proof. intros H. unfold try_except. by rewrite H. Qed.

Lemma name_arr_st (x : string) (a : nat) objs e wr :
  e !! x = Some (PyArr a) → name_arr x (st objs e wr) = (inr a, st objs e wr).
Proof. intros H. by apply name_arr_bound. Qed.

Lemma load_into_st (w : World) (x file var : string) (d : DataArray) objs e wr :
  rasters w !! (path_join data_dir file, var) = Some d →
  load_into w x file var (st objs e wr)
  = (inr tt, st (objs ++ [d]) (<[x := PyArr (length objs)]> e) wr).
Proof.
  intros H. unfold load_into, open_raster. rewrite H.
  eapply bind_step; [apply alloc_st|]. apply assign_st.
Qed.

Lemma fix_lon_st (ds : nat) (d : DataArray) (lons : list Q) objs e wr :
  objs !! ds = Some d → xdim d = "lon" → xcoords d !! "lon" = Some lons →
  is_unique (map adjust_lon lons) = true →
  fix_lon ds (st objs e wr)
  = (inr (length objs),
     st (<[ds := with_adjusted d lons]> objs ++ [normalized d lons]) e wr).
Proof.
  intros Hd Hx Hl Hu.
  rewrite (fix_lon_eval (st objs e wr) ds d lons) by (by rewrite ?heap_st).
  cbv zeta. unfold st at 1 2 3 4. cbn [heap env written].
  assert (Hlt : ds < length objs) by (by eapply lookup_lt_Some).
  rewrite (insert_map_seq_0 objs) by done.
  rewrite fresh_map_seq, length_insert. unfold st.
  rewrite map_seq_snoc, length_insert. reflexivity.
Qed.

Lemma refix_st (x : string) (a : nat) (d : DataArray) (lons : list Q) objs e wr :
  e !! x = Some (PyArr a) → objs !! a = Some d →
  xdim d = "lon" → xcoords d !! "lon" = Some lons →
  is_unique (map adjust_lon lons) = true →
  refix x (st objs e wr)
  = (inr tt, st (<[a := with_adjusted d lons]> objs ++ [normalized d lons])
               (<[x := PyArr (length objs)]> e) wr).
Proof.
  intros Hx Ha Hd Hl Hu. unfold refix.
  eapply bind_step; [by apply name_arr_st|].
  eapply bind_step; [by eapply fix_lon_st|]. apply assign_st.
Qed.

Lemma copy_coord_st (a b : nat) (coord : string) (va vb va' : DataArray) (c : list Q)
    objs e wr :
  objs !! b = Some vb → getitem vb coord = inr c →
  objs !! a = Some va → setitem va coord c = inr va' →
  copy_coord a b coord (st objs e wr) = (inr tt, st (<[a := va']> objs) e wr).
Proof.
  intros Hb Hc Ha Hs. unfold copy_coord.
  eapply bind_step; [by apply deref_st|].
  eapply bind_step; [unfold lift; by rewrite Hc|].
  eapply bind_step; [by apply deref_st|].
  eapply bind_step; [unfold lift; by rewrite Hs|].
  by eapply store_st.
Qed.

Lemma mortality_st (np_exp : float → float) (pm25 b population : nat)
    (c r p scaled product : DataArray) (lon : list Q) objs e wr :
  objs !! pm25 = Some c → objs !! b = Some r → objs !! population = Some p →
  da_binop PrimFloat.mul r (response np_exp c) = inr scaled →
  da_binop PrimFloat.mul scaled p = inr product →
  xdim product = "lon" → xindex product = Some lon →
  mortality np_exp pm25 b population (st objs e wr)
  = (inr (length objs), st (objs ++ [product]) e wr).
Proof.
  intros Hc Hr Hp Hs Hq Hd Hi.
  rewrite (mortality_eval np_exp (st objs e wr) pm25 b population c r p scaled product lon)
    by (by rewrite ?heap_st).
  unfold st. cbn [heap env written]. by rewrite fresh_map_seq, map_seq_snoc.
Qed.

Lemma sum_within_country_st (w : World) (data : nat) (d : DataArray) (lons : list Q)
    (recs : list ShapeRecord) objs e wr :
  natural_earth w = Some recs → objs !! data = Some d →
  wf_dataarray d → xcoords d !! "lon" = Some lons →
  lat d ≠ [] → lons ≠ [] →
  Forall (λ r, is_Some (NAME r)) recs →
  sum_within_country w data (geometry <$> recs) (st objs e wr)
  = (inr (country_sums d lons recs), st objs e wr).
Proof.
  intros Hw Hd Wd Hl Hla Hlo Hn.
  rewrite (sum_within_country_eval d lons Wd Hl w (st objs e wr) data
             (geometry <$> recs) recs Hw) ; try done.
  - f_equal. f_equal. unfold country_sums.
    clear. induction recs as [|r recs IH]; [done|]. simpl. f_equal. exact IH.
  - by rewrite heap_st.
  - by rewrite length_fmap, firstn_all.
Qed.

(** ** Rasters on one grid *)

Lemma on_grid_lon (la lo : list Q) (d : DataArray) :
  on_grid la lo d → xdim d = "lon" ∧ xcoords d !! "lon" = Some lo ∧ wf_dataarray d.
Proof.
  intros ([Wd Dd] & _ & Hx). unfold xindex in Hx. rewrite Dd in Hx. done.
Qed.

Lemma normalized_on_grid (la lo : list Q) (d : DataArray) :
  on_grid la lo d → is_unique (map adjust_lon lo) = true →
  on_grid la (sorted (map adjust_lon lo)) (normalized d lo).
Proof.
  intros ([Wd Dd] & Hla & Hx) Hu. split; [split|split].
  - by apply normalized_wf.
  - reflexivity.
  - exact Hla.
  - unfold xindex, normalized. cbn [xdim xcoords].
    by rewrite lookup_insert_eq, take_at_sort_positions.
Qed.

Lemma length_sorted (l : list Q) : length (sorted l) = length l.
Proof. by rewrite sorted_Permutation. Qed.

Lemma on_grid_da_map (f : float → float) (la lo : list Q) (d : DataArray) :
  on_grid la lo d → on_grid la lo (da_map f d).
Proof.
  intros ([Wd Dd] & Hla & Hx). split; [split|split]; try done. by apply wf_da_map.
Qed.

(** [d['lat'] = la; d['lon'] = lo] on a raster with as many rows and
    columns. *)
Lemma relabelled_on_grid (la lo idx : list Q) (d : DataArray) :
  raster d → xindex d = Some idx →
  length (lat d) = length la → length idx = length lo →
  setitem d "lat" la = inr (mkDataArray la (xdim d) (xcoords d) (values d)) ∧
  setitem (mkDataArray la (xdim d) (xcoords d) (values d)) "lon" lo
  = inr (relabelled la lo d) ∧
  on_grid la lo (relabelled la lo d).
Proof.
  intros [Wd Dd] Hx Hla Hlo. split; [|split].
  - unfold setitem. simpl. by rewrite Hla, Nat.eqb_refl.
  - unfold setitem. simpl. unfold xindex. cbn [xdim xcoords].
    unfold xindex in Hx. by rewrite Hx, Hlo, Nat.eqb_refl.
  - destruct Wd as (Hl & idx' & Hi & Hv & Hc).
    rewrite Hx in Hi. injection Hi as <-.
    split; [split|split]; try done.
    + split; [cbn [values lat relabelled]; congruence|].
      exists lo. unfold xindex, relabelled. cbn [xdim xcoords values].
      rewrite Dd, lookup_insert_eq. split; [done|]. split; [by rewrite <- Hlo|].
      apply map_Forall_insert_2; [done|]. by rewrite <- Hlo.
    + unfold xindex, relabelled. cbn [xdim xcoords]. by rewrite Dd, lookup_insert_eq.
Qed.

Lemma da_binop_on_grid (f : float → float → float) (la lo : list Q) (a b : DataArray) :
  on_grid la lo a → on_grid la lo b →
  ∃ out, da_binop f a b = inr out ∧ on_grid la lo out ∧
         values out = zip_with (zip_with f) (values a) (values b).
Proof.
  intros ([Wa Da] & La & Xa) ([Wb Db] & Lb & Xb).
  assert (Hl : index_equals (lat a) (lat b) = true)
    by (rewrite La, Lb; apply index_equals_refl).
  pose proof (index_equals_refl lo) as Hx.
  eexists. split; [|split].
  - apply (da_binop_same_grid f a b lo lo); try done. congruence.
  - split; [split|split].
    + by apply (wf_binop_same_grid f a b lo lo).
    + exact Da.
    + exact La.
    + unfold xindex. cbn [xdim xcoords]. apply lookup_insert_eq.
  - reflexivity.
Qed.

Lemma on_grid_getitem (la lo : list Q) (d : DataArray) :
  on_grid la lo d → getitem d "lat" = inr la ∧ getitem d "lon" = inr lo.
Proof.
  intros G. destruct (on_grid_lon la lo d G) as (_ & Hl & _). destruct G as (_ & <- & _).
  split; [done|]. unfold getitem. simpl. by rewrite Hl.
Qed.

Lemma open_raster_st (w : World) (file var : string) (d : DataArray) objs e wr :
  rasters w !! (path_join data_dir file, var) = Some d →
  open_raster w file var (st objs e wr) = (inr (length objs), st (objs ++ [d]) e wr).
Proof. intros H. unfold open_raster. rewrite H. apply alloc_st. Qed.

Lemma bind_assoc_eq {A B C} (m : M A) (k : A → M B) (k' : B → M C) (s : State) :
  ((m ≫= k) ≫= k') s = (m ≫= λ a, k a ≫= k') s.
Proof. unfold mbind, M_bind, bind. by destruct (m s) as [[e|a] s1]. Qed.

Lemma cell_values (d : DataArray) (i j : nat) :
  cell d i j = (row ← values d !! i ; row !! j).
Proof. reflexivity. Qed.

(** *** The statements of the cells *)

Lemma assign_mortality_st (np_exp : float → float) (x pm25 pop : string)
    (a b p : nat) (c r q : DataArray) (la lo : list Q) objs e wr :
  e !! pm25 = Some (PyArr a) → e !! "death_rate" = Some (PyArr b) →
  e !! pop = Some (PyArr p) →
  objs !! a = Some c → objs !! b = Some r → objs !! p = Some q →
  on_grid la lo c → on_grid la lo r → on_grid la lo q →
  ∃ out,
    assign_mortality np_exp x pm25 pop (st objs e wr)
    = (inr tt, st (objs ++ [out]) (<[x := PyArr (length objs)]> e) wr) ∧
    on_grid la lo out ∧
    ∀ i j u v t,
      cell c i j = Some u → cell r i j = Some v → cell q i j = Some t →
      cell out i j = Some (v * response_cell np_exp u * t)%float.
Proof.
  intros Ea Eb Ep Oa Ob Op Gc Gr Gq.
  assert (Gresp : on_grid la lo (response np_exp c))
    by (unfold response; by do 3 apply on_grid_da_map).
  destruct (da_binop_on_grid PrimFloat.mul la lo r (response np_exp c) Gr Gresp)
    as (scaled & Hs & Gs & Vs).
  destruct (da_binop_on_grid PrimFloat.mul la lo scaled q Gs Gq)
    as (product & Hp & Gp & Vp).
  exists product. split; [|split; [done|]].
  - unfold assign_mortality.
    eapply bind_step; [by apply name_arr_st|].
    eapply bind_step; [by apply name_arr_st|].
    eapply bind_step; [by apply name_arr_st|].
    eapply bind_step; [|apply assign_st].
    destruct Gp as ([_ Dp] & _ & Xp).
    by eapply mortality_st.
  - intros i j u v t Hu Hv Ht. rewrite cell_values, Vp, Vs.
    apply cell_zip_with; [|exact Ht]. apply cell_zip_with; [exact Hv|].
    rewrite response_values. by apply cell_map.
Qed.

Lemma assign_difference_st (x l r : string) (a b : nat) (va vb : DataArray)
    (la lo : list Q) objs e wr :
  e !! l = Some (PyArr a) → e !! r = Some (PyArr b) →
  objs !! a = Some va → objs !! b = Some vb →
  on_grid la lo va → on_grid la lo vb →
  ∃ out,
    assign_difference x l r (st objs e wr)
    = (inr tt, st (objs ++ [out]) (<[x := PyArr (length objs)]> e) wr) ∧
    on_grid la lo out ∧
    ∀ i j u v,
      cell va i j = Some u → cell vb i j = Some v →
      cell out i j = Some (u - v)%float.
Proof.
  intros Ea Eb Oa Ob Ga Gb.
  destruct (da_binop_on_grid PrimFloat.sub la lo va vb Ga Gb) as (out & Ho & Go & Vo).
  exists out. split; [|split; [done|]].
  - unfold assign_difference.
    eapply bind_step; [by apply name_arr_st|].
    eapply bind_step; [by apply name_arr_st|].
    eapply bind_step; [by apply deref_st|].
    eapply bind_step; [by apply deref_st|].
    eapply bind_step; [unfold lift; by rewrite Ho|].
    eapply bind_step; [apply alloc_st|]. apply assign_st.
  - intros i j u v Hu Hv. rewrite cell_values, Vo. by apply cell_zip_with.
Qed.

Lemma assign_sums_st (w : World) (x raster : string) (a : nat) (d : DataArray)
    (la lo : list Q) (recs : list ShapeRecord) objs e wr :
  natural_earth w = Some recs → Forall (λ r, is_Some (NAME r)) recs →
  e !! raster = Some (PyArr a) → e !! "countries" = Some (PyGeometries (geometry <$> recs)) →
  objs !! a = Some d → on_grid la lo d → la ≠ [] → lo ≠ [] →
  assign_sums w x raster (st objs e wr)
  = (inr tt, st objs (<[x := PySeries (country_sums d lo recs)]> e) wr).
Proof.
  intros Hw Hn Ea Ec Oa Gd Hla Hlo.
  destruct (on_grid_lon la lo d Gd) as (Dd & Hl & Wd). destruct Gd as (_ & Ld & _).
  unfold assign_sums.
  eapply bind_step; [by apply name_arr_st|].
  eapply bind_step.
  { unfold name_geometries. eapply bind_step; [by apply name_st|]. reflexivity. }
  eapply bind_step; [|apply assign_st].
  apply sum_within_country_st; try done. by rewrite Ld.
Qed.

Lemma to_csv_st (x file dir : string) (sr : Series) objs e wr :
  e !! x = Some (PySeries sr) → e !! "output_dir" = Some (PyStr dir) →
  to_csv x file (st objs e wr) = (inr tt, st objs e (wr ++ [(path_join dir file, sr)])).
Proof.
  intros Ex Ed. unfold to_csv.
  eapply bind_step.
  { unfold name_series. eapply bind_step; [by apply name_st|]. reflexivity. }
  eapply bind_step.
  { unfold name_str. eapply bind_step; [by apply name_st|]. reflexivity. }
  reflexivity.
Qed.

Lemma names_country_sums (d : DataArray) (lo : list Q) (recs : list ShapeRecord) :
  map fst (country_sums d lo recs) = map (λ r, default "" (NAME r)) recs.
Proof. unfold country_sums. rewrite map_map. reflexivity. Qed.

Lemma assign_change_st (x l r : string) (a b : Series) objs e wr :
  e !! l = Some (PySeries a) → e !! r = Some (PySeries b) →
  map fst a = map fst b →
  assign_change x l r (st objs e wr)
  = (inr tt,
     st objs (<[x := PySeries (zip_with (λ u v, (fst u, PrimFloat.sub (snd u) (snd v))) a b)]> e)
       wr).
Proof.
  intros El Er Hn. unfold assign_change.
  eapply bind_step.
  { unfold name_series. eapply bind_step; [by apply name_st|]. reflexivity. }
  eapply bind_step.
  { unfold name_series. eapply bind_step; [by apply name_st|]. reflexivity. }
  eapply bind_step; [|apply assign_st].
  unfold lift, series_sub. by rewrite bool_decide_eq_true_2.
Qed.

Lemma is_not_none_st (x : string) (v : pyval) objs e wr :
  e !! x = Some v →
  is_not_none x (st objs e wr)
  = (inr (match v with PyNone => false | _ => true end), st objs e wr).
Proof.
  intros H. unfold is_not_none. eapply bind_step; [by apply name_st|]. reflexivity.
Qed.

(** ** A complete run *)

Ltac lookup_env :=
  repeat (rewrite lookup_insert_ne by done);
  first [ apply lookup_insert_eq | eassumption ].

(** The state reached is kept in the form [st [o1; ...; on] env files]. *)
Ltac norm_st :=
  repeat match goal with
         | |- context [length ?l] =>
             let n := eval cbn [length] in (length l) in
             progress change (length l) with n
         end;
  repeat match goal with
         | |- context [st ?o _ _] =>
             let o' := eval cbn [app insert list_insert] in o in
             progress change o with o'
         end.

Ltac run_with tac := eapply bind_step; [tac|norm_st].
Ltac run_last tac := etrans; [tac|norm_st; reflexivity].

(** A run that completes in a state with the property [P]. *)
Lemma completes_bind {A} (m : M A) (k : A → M unit) (P : State → Prop) (s s1 : State) (a : A) :
  m s = (inr a, s1) →
  (∃ s', k a s1 = (inr tt, s') ∧ P s') →
  ∃ s', (m ≫= k) s = (inr tt, s') ∧ P s'.
Proof.
  intros H (s' & Hk & HP). exists s'. split; [|done]. by eapply bind_step.
Qed.

Lemma completes_last (m : M unit) (P : State → Prop) (s s1 : State) :
  m s = (inr tt, s1) → P s1 → ∃ s', m s = (inr tt, s') ∧ P s'.
Proof. intros H HP. by exists s1. Qed.

Lemma completes_assoc {A B} (m : M A) (k : A → M B) (k' : B → M unit)
    (P : State → Prop) (s : State) :
  (∃ s', (m ≫= λ a, k a ≫= k') s = (inr tt, s') ∧ P s') →
  ∃ s', ((m ≫= k) ≫= k') s = (inr tt, s') ∧ P s'.
Proof. intros (s' & H & HP). exists s'. by rewrite bind_assoc_eq. Qed.

Ltac reassoc :=
  repeat match goal with
         | |- context [bind ?m ?k] => change (bind m k) with (m ≫= k)
         end;
  repeat lazymatch goal with
         | |- ∃ s', mbind _ (mbind _ _) _ = _ ∧ _ => apply completes_assoc
         end.

Ltac go_with tac := reassoc; eapply completes_bind; [tac|norm_st; cbv beta iota].

Ltac run_name_arr := run_with ltac:(apply name_arr_st; lookup_env).

Lemma completes_mortality (np_exp : float → float) (x pm25 pop : string)
    (a b p : nat) (c r q : DataArray) (la lo : list Q) objs e wr
    (k : unit → M unit) (P : State → Prop) :
  e !! pm25 = Some (PyArr a) → e !! "death_rate" = Some (PyArr b) →
  e !! pop = Some (PyArr p) →
  objs !! a = Some c → objs !! b = Some r → objs !! p = Some q →
  on_grid la lo c → on_grid la lo r → on_grid la lo q →
  (∀ out, on_grid la lo out → mortality_of np_exp c r q out →
     ∃ s', k tt (st (objs ++ [out]) (<[x := PyArr (length objs)]> e) wr) = (inr tt, s') ∧ P s') →
  ∃ s', (assign_mortality np_exp x pm25 pop ≫= k) (st objs e wr) = (inr tt, s') ∧ P s'.
Proof.
  intros Ea Eb Ep Oa Ob Op Gc Gr Gq Hk.
  destruct (assign_mortality_st np_exp x pm25 pop a b p c r q la lo objs e wr)
    as (out & Hrun & Gout & Cout); try done.
  eapply completes_bind; [exact Hrun|]. by apply Hk.
Qed.

Lemma completes_difference (x l r : string) (a b : nat) (va vb : DataArray)
    (la lo : list Q) objs e wr (k : unit → M unit) (P : State → Prop) :
  e !! l = Some (PyArr a) → e !! r = Some (PyArr b) →
  objs !! a = Some va → objs !! b = Some vb →
  on_grid la lo va → on_grid la lo vb →
  (∀ out, on_grid la lo out → difference_of va vb out →
     ∃ s', k tt (st (objs ++ [out]) (<[x := PyArr (length objs)]> e) wr) = (inr tt, s') ∧ P s') →
  ∃ s', (assign_difference x l r ≫= k) (st objs e wr) = (inr tt, s') ∧ P s'.
Proof.
  intros Ea Eb Oa Ob Ga Gb Hk.
  destruct (assign_difference_st x l r a b va vb la lo objs e wr)
    as (out & Hrun & Gout & Cout); try done.
  eapply completes_bind; [exact Hrun|]. by apply Hk.
Qed.

Ltac go_mortality m G C :=
  reassoc;
  eapply completes_mortality;
  [ lookup_env | lookup_env | lookup_env | reflexivity | reflexivity | reflexivity
  | eassumption | eassumption | eassumption
  | intros m G C; norm_st; cbv beta iota ].

Ltac go_difference m G C :=
  reassoc;
  eapply completes_difference;
  [ lookup_env | lookup_env | reflexivity | reflexivity | eassumption | eassumption
  | intros m G C; norm_st; cbv beta iota ].

Ltac go_sums :=
  go_with ltac:(eapply assign_sums_st;
                [ eassumption | eassumption | lookup_env | lookup_env | reflexivity
                | eassumption | eassumption | eassumption ]).

Ltac go_csv := go_with ltac:(eapply to_csv_st; lookup_env).

Ltac go_change :=
  go_with ltac:(eapply assign_change_st;
                [ lookup_env | lookup_env | by rewrite !names_country_sums ]).

Ltac run_load := run_with ltac:(eapply load_into_st; eassumption).
Ltac run_refix :=
  run_with ltac:(eapply refix_st; [lookup_env | reflexivity | eassumption ..]).

Section CompleteRun.

Variable np_exp : float → float.
Variables (w : World) (la lo lo_r lo_p00 lo_p50 lo_p21 : list Q).
Variables (recs : list ShapeRecord) (names : list string).
Variables b50 n50 b21 n21 b00 n00 rate p00 p50 p21 : DataArray.

Hypothesis Hla : la ≠ [].
Hypothesis Hlo_ne : lo ≠ [].
Hypothesis Hlo : is_unique (map adjust_lon lo) = true.
Hypothesis Fb50 : rasters w !! (path_join data_dir "CESM_09x125_PM25_2050_RCP85.nc", "pm25") = Some b50.
Hypothesis Fn50 : rasters w !! (path_join data_dir "CESM_09x125_PM25_2050_RCP85_NoFire.nc", "pm25") = Some n50.
Hypothesis Fb21 : rasters w !! (path_join data_dir "CESM_09x125_PM25_2100_RCP85.nc", "pm25") = Some b21.
Hypothesis Fn21 : rasters w !! (path_join data_dir "CESM_09x125_PM25_2100_RCP85_NoFire.nc", "pm25") = Some n21.
Hypothesis Fb00 : rasters w !! (path_join data_dir "CESM_09x125_PM25_2000_Baseline.nc", "pm25") = Some b00.
Hypothesis Fn00 : rasters w !! (path_join data_dir "CESM_09x125_PM25_2000_Baseline_nofire.nc", "pm25") = Some n00.
Hypothesis Frate : rasters w !! (path_join data_dir "death_rate.nc", "death_rate") = Some rate.
Hypothesis Fp00 : rasters w !! (path_join data_dir "ssp2_2000_matching.nc", "2000total") = Some p00.
Hypothesis Fp50 : rasters w !! (path_join data_dir "ssp2_2050_matching.nc", "ssp2_2050") = Some p50.
Hypothesis Fp21 : rasters w !! (path_join data_dir "ssp2_2100_matching.nc", "ssp2_2100") = Some p21.
Hypothesis Gb50 : on_grid la lo b50.
Hypothesis Gn50 : on_grid la lo n50.
Hypothesis Gb21 : on_grid la lo b21.
Hypothesis Gn21 : on_grid la lo n21.
Hypothesis Gb00 : on_grid la lo b00.
Hypothesis Gn00 : on_grid la lo n00.
Hypothesis Grate : on_grid (lat rate) lo_r rate.
Hypothesis Gp00 : on_grid (lat p00) lo_p00 p00.
Hypothesis Gp50 : on_grid (lat p50) lo_p50 p50.
Hypothesis Gp21 : on_grid (lat p21) lo_p21 p21.
Hypothesis Srate : length (lat rate) = length la ∧ length lo_r = length lo.
Hypothesis Sp00 : length (lat p00) = length la ∧ length lo_p00 = length lo.
Hypothesis Sp50 : length (lat p50) = length la ∧ length lo_p50 = length lo.
Hypothesis Sp21 : length (lat p21) = length la ∧ length lo_p21 = length lo.
Hypothesis Urate : is_unique (map adjust_lon lo_r) = true.
Hypothesis Up00 : is_unique (map adjust_lon lo_p00) = true.
Hypothesis Up50 : is_unique (map adjust_lon lo_p50) = true.
Hypothesis Up21 : is_unique (map adjust_lon lo_p21) = true.
Hypothesis Hshape : natural_earth w = Some recs.
Hypothesis Hnames : NAME <$> recs = Some <$> names.

(** The grid of the run: the latitudes of the PM2.5 rasters and their
    longitudes, normalized. *)
Let lo' := sorted (map adjust_lon lo).

(** The death rate per person and the populations, normalized each on its
    own longitudes. *)
Let rate' := normalized (da_map (λ x, PrimFloat.div x 1000) rate) lo_r.
Let p00' := normalized p00 lo_p00.
Let p50' := normalized p50 lo_p50.
Let p21' := normalized p21 lo_p21.

(** The run, with the rasters it computes and the files it writes. *)
Lemma pipeline_run :
  ∃ s', run_all (pipeline np_exp w) initial_state = (inr tt, s') ∧
    ∃ M50b M50n D50 M00b M00n D00 M21b M21n D21,
      year_mortality np_exp la lo' (normalized b50 lo) (normalized n50 lo) rate' p50'
        M50b M50n D50 ∧
      year_mortality np_exp la lo' (normalized b00 lo) (normalized n00 lo) rate' p00'
        M00b M00n D00 ∧
      year_mortality np_exp la lo' (normalized b21 lo) (normalized n21 lo) rate' p21'
        M21b M21n D21 ∧
      written s'
      = zip all_result_files
          [country_sums M50b lo' recs; country_sums M50n lo' recs; country_sums D50 lo' recs;
           country_sums M00b lo' recs; country_sums M00n lo' recs; country_sums D00 lo' recs;
           series_change (country_sums D50 lo' recs) (country_sums D00 lo' recs);
           country_sums M21b lo' recs; country_sums M21n lo' recs; country_sums D21 lo' recs;
           series_change (country_sums D21 lo' recs) (country_sums D50 lo' recs);
           series_change (country_sums D21 lo' recs) (country_sums D00 lo' recs)].
Proof.
  change initial_state with (st [] ∅ []).
  destruct (on_grid_lon _ _ _ Gb50) as (Db50 & Lb50 & _).
  destruct (on_grid_lon _ _ _ Gn50) as (Dn50 & Ln50 & _).
  destruct (on_grid_lon _ _ _ Gb21) as (Db21 & Lb21 & _).
  destruct (on_grid_lon _ _ _ Gn21) as (Dn21 & Ln21 & _).
  destruct (on_grid_lon _ _ _ Gb00) as (Db00 & Lb00 & _).
  destruct (on_grid_lon _ _ _ Gn00) as (Dn00 & Ln00 & _).
  destruct (on_grid_lon _ _ _ Grate) as (Drate & Lrate & _).
  destruct (on_grid_lon _ _ _ Gp00) as (Dp00 & Lp00 & _).
  destruct (on_grid_lon _ _ _ Gp50) as (Dp50 & Lp50 & _).
  destruct (on_grid_lon _ _ _ Gp21) as (Dp21 & Lp21 & _).
  (* the rasters after normalization *)
  pose proof (normalized_on_grid _ _ _ Gb50 Hlo) as GB50. fold lo' in GB50.
  pose proof (normalized_on_grid _ _ _ Gn50 Hlo) as GN50. fold lo' in GN50.
  pose proof (normalized_on_grid _ _ _ Gb21 Hlo) as GB21. fold lo' in GB21.
  pose proof (normalized_on_grid _ _ _ Gn21 Hlo) as GN21. fold lo' in GN21.
  pose proof (normalized_on_grid _ _ _ Gb00 Hlo) as GB00. fold lo' in GB00.
  pose proof (normalized_on_grid _ _ _ Gn00 Hlo) as GN00. fold lo' in GN00.
  destruct (on_grid_getitem _ _ _ GB50) as [Hget_lat Hget_lon].
  assert (Grate1 : on_grid (lat rate) lo_r (da_map (λ x, PrimFloat.div x 1000) rate))
    by (by apply on_grid_da_map).
  pose proof (normalized_on_grid _ _ _ Grate1 Urate) as Grate'. fold rate' in Grate'.
  pose proof (normalized_on_grid _ _ _ Gp00 Up00) as Gp00'. fold p00' in Gp00'.
  pose proof (normalized_on_grid _ _ _ Gp50 Up50) as Gp50'. fold p50' in Gp50'.
  pose proof (normalized_on_grid _ _ _ Gp21 Up21) as Gp21'. fold p21' in Gp21'.
  assert (Hlen : length lo' = length lo) by (unfold lo'; by rewrite length_sorted, length_map).
  destruct (relabelled_on_grid la lo' _ rate' (proj1 Grate') (proj2 (proj2 Grate')))
    as (Hr1 & Hr2 & GR); [by destruct Srate|rewrite length_sorted, length_map, Hlen; by destruct Srate|].
  destruct (relabelled_on_grid la lo' _ p00' (proj1 Gp00') (proj2 (proj2 Gp00')))
    as (H001 & H002 & GP00); [by destruct Sp00|rewrite length_sorted, length_map, Hlen; by destruct Sp00|].
  destruct (relabelled_on_grid la lo' _ p50' (proj1 Gp50') (proj2 (proj2 Gp50')))
    as (H501 & H502 & GP50); [by destruct Sp50|rewrite length_sorted, length_map, Hlen; by destruct Sp50|].
  destruct (relabelled_on_grid la lo' _ p21' (proj1 Gp21') (proj2 (proj2 Gp21')))
    as (H211 & H212 & GP21); [by destruct Sp21|rewrite length_sorted, length_map, Hlen; by destruct Sp21|].
  assert (Hlo'_ne : lo' ≠ []).
  { intros H. apply Hlo_ne. rewrite H in Hlen. by destruct lo. }
  assert (Hrecs : Forall (λ r, is_Some (NAME r)) recs).
  { apply Forall_forall. intros r [k Hk]%list_elem_of_lookup_1.
    assert (H : (NAME <$> recs) !! k = Some (NAME r)) by (by rewrite list_lookup_fmap, Hk).
    rewrite Hnames, list_lookup_fmap in H.
    destruct (names !! k); [|done]. injection H as <-. by eexists. }
  unfold pipeline, run_all.
  (* cell 10 *)
  go_with ltac:(unfold cell_10; eapply bind_step;
    [ apply try_except_ok; run_load; run_load; run_refix;
      eapply refix_st; [lookup_env | reflexivity | eassumption ..]
    | norm_st; apply try_except_ok; run_load; run_load; run_refix;
      eapply refix_st; [lookup_env | reflexivity | eassumption ..] ]).
  (* cell 11 *)
  go_with ltac:(unfold cell_11; apply try_except_ok; run_load; run_load; run_refix;
      eapply refix_st; [lookup_env | reflexivity | eassumption ..]).
  (* cell 12 *)
  go_with ltac:(unfold cell_12; apply try_except_ok;
    run_with ltac:(eapply open_raster_st; eassumption);
    run_with ltac:(apply deref_st; reflexivity);
    run_with ltac:(apply alloc_st);
    run_with ltac:(apply assign_st);
    run_load; run_load; run_load;
    run_refix; run_refix; run_refix; run_refix;
    run_name_arr; run_name_arr;
    run_with ltac:(eapply copy_coord_st; [reflexivity|exact Hget_lat|reflexivity|eassumption]);
    run_name_arr; run_name_arr;
    run_with ltac:(eapply copy_coord_st; [reflexivity|exact Hget_lon|reflexivity|eassumption]);
    run_name_arr; run_name_arr; run_name_arr;
    cbn [foldr];
    do 3 (run_with ltac:(apply assign_st);
          run_name_arr;
          run_with ltac:(eapply copy_coord_st;
                           [reflexivity|exact Hget_lat|reflexivity|eassumption]);
          run_name_arr;
          run_with ltac:(eapply copy_coord_st;
                           [reflexivity|exact Hget_lon|reflexivity|eassumption]));
    reflexivity).
  (* cell 14 *)
  unfold cell_14.
  go_mortality M50b GM50b CM50b.
  go_mortality M50n GM50n CM50n.
  go_difference D50 GD50 CD50.
  (* cell 15 *)
  unfold cell_15.
  go_mortality M00b GM00b CM00b.
  go_mortality M00n GM00n CM00n.
  go_difference D00 GD00 CD00.
  go_with ltac:(apply is_not_none_st; lookup_env).
  go_with ltac:(apply is_not_none_st; lookup_env).
  go_mortality M21b GM21b CM21b.
  go_mortality M21n GM21n CM21n.
  go_difference D21 GD21 CD21.
  (* cell 17 *)
  go_with ltac:(unfold cell_17; apply try_except_ok; rewrite Hshape;
                run_with ltac:(apply assign_st); apply assign_st).
  (* cell 18 *)
  unfold cell_18.
  go_sums. go_sums. go_sums.
  go_with ltac:(apply assign_st).
  go_csv. go_csv. go_csv.
  (* cell 19 *)
  unfold cell_19.
  go_sums. go_sums. go_sums.
  go_csv. go_csv. go_csv.
  go_change. go_csv.
  go_with ltac:(apply is_not_none_st; lookup_env).
  go_sums. go_sums. go_sums.
  go_csv. go_csv. go_csv.
  go_change. go_change. go_csv. go_csv.
  eexists. split; [reflexivity|].
  exists M50b, M50n, D50, M00b, M00n, D00, M21b, M21n, D21.
  split; [exact (conj GM50b (conj GM50n (conj GD50 (conj CM50b (conj CM50n CD50)))))|].
  split; [exact (conj GM00b (conj GM00n (conj GD00 (conj CM00b (conj CM00n CD00)))))|].
  split; [exact (conj GM21b (conj GM21n (conj GD21 (conj CM21b (conj CM21n CD21)))))|].
  reflexivity.
Qed.

End CompleteRun.

Lemma names_of_country_sums (d : DataArray) (lo : list Q) (recs : list ShapeRecord)
    (names : list string) :
  NAME <$> recs = Some <$> names → fst <$> country_sums d lo recs = names.
Proof.
  unfold country_sums. revert names.
  induction recs as [|r recs IH]; intros [|n names] H; try done.
  injection H as Hn H. simpl. rewrite Hn. simpl. f_equal. by apply IH.
Qed.

Lemma names_of_series_change (a b : Series) (names : list string) :
  fst <$> a = names → fst <$> b = names → fst <$> series_change a b = names.
Proof.
  unfold series_change. revert b names.
  induction a as [|u a IH]; intros [|v b] [|n names] Ha Hb; try done.
  injection Ha as Hu Ha. injection Hb as Hv Hb. simpl. f_equal; [done|].
  by apply IH.
Qed.

Lemma take_at_map {A B} (f : A → B) (l : list A) (pos : list nat) :
  take_at (map f l) pos = map f (take_at l pos).
Proof.
  induction pos as [|i pos IH]; [done|].
  rewrite !take_at_cons, lookup_map, IH. by destruct (l !! i).
Qed.

(** Normalizing commutes with a cell-wise operation. *)
Lemma cell_normalized_da_map (f : float → float) (d : DataArray) (lo : list Q) (i j : nat) :
  cell (normalized (da_map f d) lo) i j = f <$> cell (normalized d lo) i j.
Proof.
  unfold cell, normalized, da_map. cbn [values].
  set (pos := sort_positions (map adjust_lon lo)).
  rewrite !lookup_map.
  destruct (values d !! i) as [row|]; [|done]. cbn.
  rewrite take_at_map. apply lookup_map.
Qed.

Lemma file_holds_eq (w : World) (file var : string) (P : DataArray → Prop) (d : DataArray) :
  file_holds w file var P → rasters w !! (path_join data_dir file, var) = Some d → P d.
Proof. intros (d' & H & HP) Hd. congruence. Qed.

Lemma series_change_row (a b : Series) (k : nat) (name name' : string) (x y : float) :
  a !! k = Some (name, x) → b !! k = Some (name', y) →
  series_change a b !! k = Some (name, (x - y)%float).
Proof.
  unfold series_change. revert b k.
  induction a as [|u a IH]; intros [|v b] [|k] Ha Hb; try done.
  - by injection Ha as ->; injection Hb as ->.
  - by apply IH.
Qed.

(** The sample world holds complete data on the grid lat = [0, 1],
    lon = [0, 270]. *)
Lemma complete_world_data : complete_data complete_world [0; 1]%Q [0; 270]%Q.
Proof.
  split; [done|]. split; [done|]. split; [by vm_compute|]. split.
  - repeat apply Forall_cons_2; try apply Forall_nil_2;
      (eexists; split; [by vm_compute|];
       split; [apply raster_check; by vm_compute|]; split; by vm_compute).
  - repeat apply Forall_cons_2; try apply Forall_nil_2;
      (eexists; split; [by vm_compute|];
       split; [apply raster_check; by vm_compute|]; split; [by vm_compute|];
       eexists; split; [by vm_compute|]; split; by vm_compute).
Qed.

(** The files of complete data, and the run on them. *)
Lemma complete_data_run (np_exp : float → float) (w : World) (la lo : list Q)
    (recs : list ShapeRecord) (names : list string) :
  complete_data w la lo →
  natural_earth w = Some recs → NAME <$> recs = Some <$> names →
  ∃ b50 n50 b21 n21 b00 n00 rate p00 p50 p21 lo_r lo_p00 lo_p50 lo_p21,
    (rasters w !! (path_join data_dir "CESM_09x125_PM25_2050_RCP85.nc", "pm25") = Some b50 ∧
     rasters w !! (path_join data_dir "CESM_09x125_PM25_2050_RCP85_NoFire.nc", "pm25") = Some n50 ∧
     rasters w !! (path_join data_dir "CESM_09x125_PM25_2100_RCP85.nc", "pm25") = Some b21 ∧
     rasters w !! (path_join data_dir "CESM_09x125_PM25_2100_RCP85_NoFire.nc", "pm25") = Some n21 ∧
     rasters w !! (path_join data_dir "CESM_09x125_PM25_2000_Baseline.nc", "pm25") = Some b00 ∧
     rasters w !! (path_join data_dir "CESM_09x125_PM25_2000_Baseline_nofire.nc", "pm25") = Some n00) ∧
    (rasters w !! (path_join data_dir "death_rate.nc", "death_rate") = Some rate ∧
     rasters w !! (path_join data_dir "ssp2_2000_matching.nc", "2000total") = Some p00 ∧
     rasters w !! (path_join data_dir "ssp2_2050_matching.nc", "ssp2_2050") = Some p50 ∧
     rasters w !! (path_join data_dir "ssp2_2100_matching.nc", "ssp2_2100") = Some p21) ∧
    (xindex rate = Some lo_r ∧ xindex p00 = Some lo_p00 ∧
     xindex p50 = Some lo_p50 ∧ xindex p21 = Some lo_p21) ∧
    let lo' := sorted (map adjust_lon lo) in
    let rate' := normalized (da_map (λ x, PrimFloat.div x 1000) rate) lo_r in
    ∃ s', run_all (pipeline np_exp w) initial_state = (inr tt, s') ∧
      ∃ M50b M50n D50 M00b M00n D00 M21b M21n D21,
        year_mortality np_exp la lo' (normalized b50 lo) (normalized n50 lo) rate'
          (normalized p50 lo_p50) M50b M50n D50 ∧
        year_mortality np_exp la lo' (normalized b00 lo) (normalized n00 lo) rate'
          (normalized p00 lo_p00) M00b M00n D00 ∧
        year_mortality np_exp la lo' (normalized b21 lo) (normalized n21 lo) rate'
          (normalized p21 lo_p21) M21b M21n D21 ∧
        written s'
        = zip all_result_files
            [country_sums M50b lo' recs; country_sums M50n lo' recs; country_sums D50 lo' recs;
             country_sums M00b lo' recs; country_sums M00n lo' recs; country_sums D00 lo' recs;
             series_change (country_sums D50 lo' recs) (country_sums D00 lo' recs);
             country_sums M21b lo' recs; country_sums M21n lo' recs; country_sums D21 lo' recs;
             series_change (country_sums D21 lo' recs) (country_sums D50 lo' recs);
             series_change (country_sums D21 lo' recs) (country_sums D00 lo' recs)].
Proof.
  intros (Hla & Hlo & Hu & Hpm & Hrp) Hshape Hnames.
  unfold pm25_files in Hpm. unfold rate_and_population_files in Hrp.
  apply Forall_cons_1 in Hpm as [(b50 & Fb50 & Gb50) Hpm].
  apply Forall_cons_1 in Hpm as [(n50 & Fn50 & Gn50) Hpm].
  apply Forall_cons_1 in Hpm as [(b21 & Fb21 & Gb21) Hpm].
  apply Forall_cons_1 in Hpm as [(n21 & Fn21 & Gn21) Hpm].
  apply Forall_cons_1 in Hpm as [(b00 & Fb00 & Gb00) Hpm].
  apply Forall_cons_1 in Hpm as [(n00 & Fn00 & Gn00) _].
  apply Forall_cons_1 in Hrp
    as [(rate & Frate & Rrate & Lrate & lo_r & Xrate & Srate & Urate) Hrp].
  apply Forall_cons_1 in Hrp
    as [(p00 & Fp00 & Rp00 & Lp00 & lo_p00 & Xp00 & Sp00 & Up00) Hrp].
  apply Forall_cons_1 in Hrp
    as [(p50 & Fp50 & Rp50 & Lp50 & lo_p50 & Xp50 & Sp50 & Up50) Hrp].
  apply Forall_cons_1 in Hrp
    as [(p21 & Fp21 & Rp21 & Lp21 & lo_p21 & Xp21 & Sp21 & Up21) _].
  cbn [fst snd] in *.
  exists b50, n50, b21, n21, b00, n00, rate, p00, p50, p21, lo_r, lo_p00, lo_p50, lo_p21.
  split; [done|]. split; [done|]. split; [done|].
  apply (pipeline_run np_exp w la lo lo_r lo_p00 lo_p50 lo_p21 recs names
           b50 n50 b21 n21 b00 n00 rate p00 p50 p21);
    try assumption; try (by split); try (by repeat split).
Qed.

(** X18. On complete data (every file there, the six PM2.5 rasters on one
    grid, rate and populations with as many rows and columns, the countries
    named) the cells 10 to 19, run in order from a fresh kernel, complete:
    no cell raises, the twelve CSV files are written in the order of the
    notebook, and each file has one row per country of the shapefile,
    labelled with the names of the shapefile, in its order. *)
Theorem pipeline_completes (np_exp : float → float) (w : World) (la lo : list Q)
    (recs : list ShapeRecord) (names : list string) :
  complete_data w la lo →
  natural_earth w = Some recs → NAME <$> recs = Some <$> names →
  ∃ s', run_all (pipeline np_exp w) initial_state = (inr tt, s') ∧
        files_written s' = all_result_files ∧
        Forall (λ fs, fst <$> snd fs = names) (written s').
Proof.
  intros Hdata Hshape Hnames.
  destruct (complete_data_run np_exp w la lo recs names Hdata Hshape Hnames)
    as (b50 & n50 & b21 & n21 & b00 & n00 & rate & p00 & p50 & p21 &
        lo_r & lo_p00 & lo_p50 & lo_p21 & _ & _ & _ & s' & Hrun & M).
  destruct M as (M50b & M50n & D50 & M00b & M00n & D00 & M21b & M21n & D21 & _ & _ & _ & Hw).
  exists s'. split; [exact Hrun|]. unfold files_written. rewrite Hw. split; [reflexivity|].
  cbn [zip zip_with all_result_files fmap list_fmap].
  repeat (apply Forall_cons_2;
          [cbn [snd];
           repeat first [ by apply names_of_country_sums
                        | apply names_of_series_change ]|]).
  apply Forall_nil_2.
Qed.

Lemma pipeline_completes_witness :
  ∃ s', run_all (pipeline exp_series complete_world) initial_state = (inr tt, s') ∧
        files_written s' = all_result_files ∧
        Forall (λ fs, fst <$> snd fs = ["West"; "Middle"]) (written s').
Proof.
  apply (pipeline_completes exp_series complete_world [0; 1]%Q [0; 270]%Q two_countries);
    [exact complete_world_data | reflexivity | reflexivity].
Defined.

(** X19. What [fire_smoke_deaths.csv] holds after a complete run: for each
    country the [nansum], over the cells whose center the country contains,
    of a raster on the normalized grid whose cell (i, j) is
    [rate/1000 * (1 - exp(-1.1 * pm)) * pop] with fire minus the same without
    fire, where [pm], [rate] and [pop] are the cells (i, j) of the files once
    each is sorted on its own adjusted longitudes: rate and population meet
    the PM2.5 cell by position, not by coordinate. *)
Theorem fire_deaths_2050_file (np_exp : float → float) (w : World) (la lo : list Q)
    (recs : list ShapeRecord) (names : list string)
    (b n r p : DataArray) (lo_r lo_p : list Q) :
  complete_data w la lo →
  natural_earth w = Some recs → NAME <$> recs = Some <$> names →
  rasters w !! (path_join data_dir "CESM_09x125_PM25_2050_RCP85.nc", "pm25") = Some b →
  rasters w !! (path_join data_dir "CESM_09x125_PM25_2050_RCP85_NoFire.nc", "pm25") = Some n →
  rasters w !! (path_join data_dir "death_rate.nc", "death_rate") = Some r →
  rasters w !! (path_join data_dir "ssp2_2050_matching.nc", "ssp2_2050") = Some p →
  xindex r = Some lo_r → xindex p = Some lo_p →
  ∃ s' fire,
    run_all (pipeline np_exp w) initial_state = (inr tt, s') ∧
    written s' !! 2%nat
    = Some (result_file "fire_smoke_deaths.csv",
            country_sums fire (sorted (map adjust_lon lo)) recs) ∧
    on_grid la (sorted (map adjust_lon lo)) fire ∧
    ∀ i j u1 u0 v t,
      cell (normalized b lo) i j = Some u1 → cell (normalized n lo) i j = Some u0 →
      cell (normalized r lo_r) i j = Some v → cell (normalized p lo_p) i j = Some t →
      cell fire i j
      = Some (v / 1000 * response_cell np_exp u1 * t
              - v / 1000 * response_cell np_exp u0 * t)%float.
Proof.
  intros Hdata Hshape Hnames Fb Fn Fr Fp Xr Xp.
  destruct (complete_data_run np_exp w la lo recs names Hdata Hshape Hnames)
    as (b50 & n50 & b21 & n21 & b00 & n00 & rate & p00 & p50 & p21 &
        lo_r' & lo_p00 & lo_p50 & lo_p21 & (Fb50 & Fn50 & _) & (Frate & _ & Fp50 & _) &
        (Xrate & _ & Xp50 & _) & s' & Hrun & M).
  destruct M as (M50b & M50n & D50 & M00b & M00n & D00 & M21b & M21n & D21 & Y50 & _ & _ & Hw).
  assert (b50 = b) as -> by congruence. assert (n50 = n) as -> by congruence.
  assert (rate = r) as -> by congruence. assert (p50 = p) as -> by congruence.
  assert (lo_r' = lo_r) as -> by congruence. assert (lo_p50 = lo_p) as -> by congruence.
  destruct Y50 as (_ & _ & GD & CB & CN & CD).
  exists s', D50. split; [exact Hrun|]. split; [by rewrite Hw|]. split; [exact GD|].
  intros i j u1 u0 v t Hu1 Hu0 Hv Ht.
  assert (Hv' : cell (normalized (da_map (λ x, PrimFloat.div x 1000) r) lo_r) i j
                = Some (v / 1000)%float) by (by rewrite cell_normalized_da_map, Hv).
  apply CD; [by apply CB|by apply CN].
Qed.

Lemma fire_deaths_2050_file_witness :
  ∃ s' fire,
    run_all (pipeline exp_series complete_world) initial_state = (inr tt, s') ∧
    written s' !! 2%nat
    = Some (result_file "fire_smoke_deaths.csv",
            country_sums fire (sorted (map adjust_lon [0; 270]%Q)) two_countries) ∧
    on_grid [0; 1]%Q (sorted (map adjust_lon [0; 270]%Q)) fire ∧
    ∀ i j u1 u0 v t,
      cell (normalized (grid_west [[1; 2]; [3; 4]]%float) [0; 270]%Q) i j = Some u1 →
      cell (normalized (grid_west [[1; 1]; [1; 1]]%float) [0; 270]%Q) i j = Some u0 →
      cell (normalized (grid_west [[8; 8]; [8; 8]]%float) [0; 270]%Q) i j = Some v →
      cell (normalized (grid_west [[200; 200]; [200; 200]]%float) [0; 270]%Q) i j = Some t →
      cell fire i j
      = Some (v / 1000 * response_cell exp_series u1 * t
              - v / 1000 * response_cell exp_series u0 * t)%float.
Proof.
  apply (fire_deaths_2050_file exp_series complete_world [0; 1]%Q [0; 270]%Q two_countries
           ["West"; "Middle"]);
    [exact complete_world_data | reflexivity | reflexivity | by vm_compute ..].
Defined.

(** X20. After a complete run each of the three files of changes holds, row
    by row, the difference of two files written before it: 2050 minus 2000,
    2100 minus 2050, 2100 minus 2000, of the deaths attributed to fire. *)
Theorem change_files_are_differences (np_exp : float → float) (w : World) (la lo : list Q)
    (recs : list ShapeRecord) (names : list string) :
  complete_data w la lo →
  natural_earth w = Some recs → NAME <$> recs = Some <$> names →
  ∃ s' d2050 d2000 d2100,
    run_all (pipeline np_exp w) initial_state = (inr tt, s') ∧
    written s' !! 2%nat = Some (result_file "fire_smoke_deaths.csv", d2050) ∧
    written s' !! 5%nat = Some (result_file "fire_smoke_deaths_2000.csv", d2000) ∧
    written s' !! 9%nat = Some (result_file "fire_smoke_deaths_2100.csv", d2100) ∧
    written s' !! 6%nat
    = Some (result_file "fire_smoke_deaths_change_2000_2050.csv", series_change d2050 d2000) ∧
    written s' !! 10%nat
    = Some (result_file "fire_smoke_deaths_change_2050_2100.csv", series_change d2100 d2050) ∧
    written s' !! 11%nat
    = Some (result_file "fire_smoke_deaths_change_2000_2100.csv", series_change d2100 d2000) ∧
    ∀ k name x y,
      d2050 !! k = Some (name, x) → d2000 !! k = Some (name, y) →
      series_change d2050 d2000 !! k = Some (name, (x - y)%float).
Proof.
  intros Hdata Hshape Hnames.
  destruct (complete_data_run np_exp w la lo recs names Hdata Hshape Hnames)
    as (b50 & n50 & b21 & n21 & b00 & n00 & rate & p00 & p50 & p21 &
        lo_r & lo_p00 & lo_p50 & lo_p21 & _ & _ & _ & s' & Hrun & M).
  destruct M as (M50b & M50n & D50 & M00b & M00n & D00 & M21b & M21n & D21 & _ & _ & _ & Hw).
  eexists s', _, _, _. split; [exact Hrun|]. rewrite Hw.
  do 6 (split; [reflexivity|]).
  intros k name x y. apply series_change_row.
Qed.

Lemma change_files_are_differences_witness :
  ∃ s' d2050 d2000 d2100,
    run_all (pipeline exp_series complete_world) initial_state = (inr tt, s') ∧
    written s' !! 2%nat = Some (result_file "fire_smoke_deaths.csv", d2050) ∧
    written s' !! 5%nat = Some (result_file "fire_smoke_deaths_2000.csv", d2000) ∧
    written s' !! 9%nat = Some (result_file "fire_smoke_deaths_2100.csv", d2100) ∧
    written s' !! 6%nat
    = Some (result_file "fire_smoke_deaths_change_2000_2050.csv", series_change d2050 d2000) ∧
    written s' !! 10%nat
    = Some (result_file "fire_smoke_deaths_change_2050_2100.csv", series_change d2100 d2050) ∧
    written s' !! 11%nat
    = Some (result_file "fire_smoke_deaths_change_2000_2100.csv", series_change d2100 d2000) ∧
    ∀ k name x y,
      d2050 !! k = Some (name, x) → d2000 !! k = Some (name, y) →
      series_change d2050 d2000 !! k = Some (name, (x - y)%float).
Proof.
  apply (change_files_are_differences exp_series complete_world [0; 1]%Q [0; 270]%Q
           two_countries ["West"; "Middle"]);
    [exact complete_world_data | reflexivity | reflexivity].
Defined.

(** ** A run without the year 2100 *)

Lemma load_into_missing (w : World) (x file var : string) (s : State) :
  rasters w !! (path_join data_dir file, var) = None →
  load_into w x file var s = (inl (FileNotFoundError (path_join data_dir file)), s).
Proof. intros H. unfold load_into, open_raster. by rewrite H. Qed.

Lemma try_except_caught (body handler : M unit) (s s1 : State) (e : exn)
    (R : result unit * State) :
  body s = (inl e, s1) → (∀ msg, e ≠ Stuck msg) → handler s1 = R →
  try_except body handler s = R.
Proof.
  intros H He <-. unfold try_except. rewrite H. destruct e; try done. by destruct (He msg).
Qed.

Lemma ret_st {A} (a : A) (s : State) : (ret a : M A) s = (inr a, s).
Proof. reflexivity. Qed.

Section RunWithout2100.

Variable np_exp : float → float.
Variables (w : World) (la lo lo_r lo_p00 lo_p50 lo_p21 : list Q).
Variables (recs : list ShapeRecord) (names : list string).
Variables b50 n50 b00 n00 rate p00 p50 p21 : DataArray.

Hypothesis Hla : la ≠ [].
Hypothesis Hlo_ne : lo ≠ [].
Hypothesis Hlo : is_unique (map adjust_lon lo) = true.
Hypothesis Fb50 : rasters w !! (path_join data_dir "CESM_09x125_PM25_2050_RCP85.nc", "pm25") = Some b50.
Hypothesis Fn50 : rasters w !! (path_join data_dir "CESM_09x125_PM25_2050_RCP85_NoFire.nc", "pm25") = Some n50.
Hypothesis Fb21 : rasters w !! (path_join data_dir "CESM_09x125_PM25_2100_RCP85.nc", "pm25") = None.
Hypothesis Fb00 : rasters w !! (path_join data_dir "CESM_09x125_PM25_2000_Baseline.nc", "pm25") = Some b00.
Hypothesis Fn00 : rasters w !! (path_join data_dir "CESM_09x125_PM25_2000_Baseline_nofire.nc", "pm25") = Some n00.
Hypothesis Frate : rasters w !! (path_join data_dir "death_rate.nc", "death_rate") = Some rate.
Hypothesis Fp00 : rasters w !! (path_join data_dir "ssp2_2000_matching.nc", "2000total") = Some p00.
Hypothesis Fp50 : rasters w !! (path_join data_dir "ssp2_2050_matching.nc", "ssp2_2050") = Some p50.
Hypothesis Fp21 : rasters w !! (path_join data_dir "ssp2_2100_matching.nc", "ssp2_2100") = Some p21.
Hypothesis Gb50 : on_grid la lo b50.
Hypothesis Gn50 : on_grid la lo n50.
Hypothesis Gb00 : on_grid la lo b00.
Hypothesis Gn00 : on_grid la lo n00.
Hypothesis Grate : on_grid (lat rate) lo_r rate.
Hypothesis Gp00 : on_grid (lat p00) lo_p00 p00.
Hypothesis Gp50 : on_grid (lat p50) lo_p50 p50.
Hypothesis Gp21 : on_grid (lat p21) lo_p21 p21.
Hypothesis Srate : length (lat rate) = length la ∧ length lo_r = length lo.
Hypothesis Sp00 : length (lat p00) = length la ∧ length lo_p00 = length lo.
Hypothesis Sp50 : length (lat p50) = length la ∧ length lo_p50 = length lo.
Hypothesis Sp21 : length (lat p21) = length la ∧ length lo_p21 = length lo.
Hypothesis Urate : is_unique (map adjust_lon lo_r) = true.
Hypothesis Up00 : is_unique (map adjust_lon lo_p00) = true.
Hypothesis Up50 : is_unique (map adjust_lon lo_p50) = true.
Hypothesis Up21 : is_unique (map adjust_lon lo_p21) = true.
Hypothesis Hshape : natural_earth w = Some recs.
Hypothesis Hnames : NAME <$> recs = Some <$> names.

Let lo' := sorted (map adjust_lon lo).
Let rate' := normalized (da_map (λ x, PrimFloat.div x 1000) rate) lo_r.
Let p00' := normalized p00 lo_p00.
Let p50' := normalized p50 lo_p50.
Let p21' := normalized p21 lo_p21.

(** The run: the handler of cell 10 assigns [None], cells 15 and 19 take the
    other branch. *)
Lemma pipeline_run_without_2100 :
  ∃ s', run_all (pipeline np_exp w) initial_state = (inr tt, s') ∧
    ∃ M50b M50n D50 M00b M00n D00,
      year_mortality np_exp la lo' (normalized b50 lo) (normalized n50 lo) rate' p50'
        M50b M50n D50 ∧
      year_mortality np_exp la lo' (normalized b00 lo) (normalized n00 lo) rate' p00'
        M00b M00n D00 ∧
      Forall (λ x, env s' !! x = Some PyNone)
        ["baseline_pm25_2100"; "nofire_pm25_2100"; "baseline_mortality_2100";
         "nofire_mortality_2100"; "difference_mortality_2100"] ∧
      written s'
      = zip all_result_files
          [country_sums M50b lo' recs; country_sums M50n lo' recs; country_sums D50 lo' recs;
           country_sums M00b lo' recs; country_sums M00n lo' recs; country_sums D00 lo' recs;
           series_change (country_sums D50 lo' recs) (country_sums D00 lo' recs)].
Proof.
  change initial_state with (st [] ∅ []).
  destruct (on_grid_lon _ _ _ Gb50) as (Db50 & Lb50 & _).
  destruct (on_grid_lon _ _ _ Gn50) as (Dn50 & Ln50 & _).
  destruct (on_grid_lon _ _ _ Gb00) as (Db00 & Lb00 & _).
  destruct (on_grid_lon _ _ _ Gn00) as (Dn00 & Ln00 & _).
  destruct (on_grid_lon _ _ _ Grate) as (Drate & Lrate & _).
  destruct (on_grid_lon _ _ _ Gp00) as (Dp00 & Lp00 & _).
  destruct (on_grid_lon _ _ _ Gp50) as (Dp50 & Lp50 & _).
  destruct (on_grid_lon _ _ _ Gp21) as (Dp21 & Lp21 & _).
  pose proof (normalized_on_grid _ _ _ Gb50 Hlo) as GB50. fold lo' in GB50.
  pose proof (normalized_on_grid _ _ _ Gn50 Hlo) as GN50. fold lo' in GN50.
  pose proof (normalized_on_grid _ _ _ Gb00 Hlo) as GB00. fold lo' in GB00.
  pose proof (normalized_on_grid _ _ _ Gn00 Hlo) as GN00. fold lo' in GN00.
  destruct (on_grid_getitem _ _ _ GB50) as [Hget_lat Hget_lon].
  assert (Grate1 : on_grid (lat rate) lo_r (da_map (λ x, PrimFloat.div x 1000) rate))
    by (by apply on_grid_da_map).
  pose proof (normalized_on_grid _ _ _ Grate1 Urate) as Grate'. fold rate' in Grate'.
  pose proof (normalized_on_grid _ _ _ Gp00 Up00) as Gp00'. fold p00' in Gp00'.
  pose proof (normalized_on_grid _ _ _ Gp50 Up50) as Gp50'. fold p50' in Gp50'.
  pose proof (normalized_on_grid _ _ _ Gp21 Up21) as Gp21'. fold p21' in Gp21'.
  assert (Hlen : length lo' = length lo) by (unfold lo'; by rewrite length_sorted, length_map).
  destruct (relabelled_on_grid la lo' _ rate' (proj1 Grate') (proj2 (proj2 Grate')))
    as (Hr1 & Hr2 & GR); [by destruct Srate|rewrite length_sorted, length_map, Hlen; by destruct Srate|].
  destruct (relabelled_on_grid la lo' _ p00' (proj1 Gp00') (proj2 (proj2 Gp00')))
    as (H001 & H002 & GP00); [by destruct Sp00|rewrite length_sorted, length_map, Hlen; by destruct Sp00|].
  destruct (relabelled_on_grid la lo' _ p50' (proj1 Gp50') (proj2 (proj2 Gp50')))
    as (H501 & H502 & GP50); [by destruct Sp50|rewrite length_sorted, length_map, Hlen; by destruct Sp50|].
  destruct (relabelled_on_grid la lo' _ p21' (proj1 Gp21') (proj2 (proj2 Gp21')))
    as (H211 & H212 & GP21); [by destruct Sp21|rewrite length_sorted, length_map, Hlen; by destruct Sp21|].
  assert (Hlo'_ne : lo' ≠ []).
  { intros H. apply Hlo_ne. rewrite H in Hlen. by destruct lo. }
  assert (Hrecs : Forall (λ r, is_Some (NAME r)) recs).
  { apply Forall_forall. intros r [k Hk]%list_elem_of_lookup_1.
    assert (H : (NAME <$> recs) !! k = Some (NAME r)) by (by rewrite list_lookup_fmap, Hk).
    rewrite Hnames, list_lookup_fmap in H.
    destruct (names !! k); [|done]. injection H as <-. by eexists. }
  unfold pipeline, run_all.
  (* cell 10 *)
  go_with ltac:(unfold cell_10; eapply bind_step;
    [ apply try_except_ok; run_load; run_load; run_refix;
      eapply refix_st; [lookup_env | reflexivity | eassumption ..]
    | norm_st; eapply try_except_caught;
      [ apply bind_raises; apply load_into_missing; exact Fb21
      | done
      | run_with ltac:(apply assign_st); apply assign_st ] ]).
  (* cell 11 *)
  go_with ltac:(unfold cell_11; apply try_except_ok; run_load; run_load; run_refix;
      eapply refix_st; [lookup_env | reflexivity | eassumption ..]).
  (* cell 12 *)
  go_with ltac:(unfold cell_12; apply try_except_ok;
    run_with ltac:(eapply open_raster_st; eassumption);
    run_with ltac:(apply deref_st; reflexivity);
    run_with ltac:(apply alloc_st);
    run_with ltac:(apply assign_st);
    run_load; run_load; run_load;
    run_refix; run_refix; run_refix; run_refix;
    run_name_arr; run_name_arr;
    run_with ltac:(eapply copy_coord_st; [reflexivity|exact Hget_lat|reflexivity|eassumption]);
    run_name_arr; run_name_arr;
    run_with ltac:(eapply copy_coord_st; [reflexivity|exact Hget_lon|reflexivity|eassumption]);
    run_name_arr; run_name_arr; run_name_arr;
    cbn [foldr];
    do 3 (run_with ltac:(apply assign_st);
          run_name_arr;
          run_with ltac:(eapply copy_coord_st;
                           [reflexivity|exact Hget_lat|reflexivity|eassumption]);
          run_name_arr;
          run_with ltac:(eapply copy_coord_st;
                           [reflexivity|exact Hget_lon|reflexivity|eassumption]));
    reflexivity).
  (* cell 14 *)
  unfold cell_14.
  go_mortality M50b GM50b CM50b.
  go_mortality M50n GM50n CM50n.
  go_difference D50 GD50 CD50.
  (* cell 15 *)
  unfold cell_15.
  go_mortality M00b GM00b CM00b.
  go_mortality M00n GM00n CM00n.
  go_difference D00 GD00 CD00.
  go_with ltac:(apply is_not_none_st; lookup_env).
  go_with ltac:(apply ret_st).
  go_with ltac:(apply assign_st).
  go_with ltac:(apply assign_st).
  go_with ltac:(apply assign_st).
  (* cell 17 *)
  go_with ltac:(unfold cell_17; apply try_except_ok; rewrite Hshape;
                run_with ltac:(apply assign_st); apply assign_st).
  (* cell 18 *)
  unfold cell_18.
  go_sums. go_sums. go_sums.
  go_with ltac:(apply assign_st).
  go_csv. go_csv. go_csv.
  (* cell 19 *)
  unfold cell_19.
  go_sums. go_sums. go_sums.
  go_csv. go_csv. go_csv.
  go_change. go_csv.
  go_with ltac:(apply is_not_none_st; lookup_env).
  eexists. split; [reflexivity|].
  exists M50b, M50n, D50, M00b, M00n, D00.
  split; [exact (conj GM50b (conj GM50n (conj GD50 (conj CM50b (conj CM50n CD50)))))|].
  split; [exact (conj GM00b (conj GM00n (conj GD00 (conj CM00b (conj CM00n CD00)))))|].
  split; [|reflexivity].
  cbn [env st]. repeat apply Forall_cons_2; try apply Forall_nil_2; lookup_env.
Qed.

End RunWithout2100.

Lemma world_without_2100_data : data_without_2100 world_without_2100 [0; 1]%Q [0; 270]%Q.
Proof.
  split; [done|]. split; [done|]. split; [by vm_compute|]. split; [by vm_compute|]. split.
  - repeat apply Forall_cons_2; try apply Forall_nil_2;
      (eexists; split; [by vm_compute|];
       split; [apply raster_check; by vm_compute|]; split; by vm_compute).
  - repeat apply Forall_cons_2; try apply Forall_nil_2;
      (eexists; split; [by vm_compute|];
       split; [apply raster_check; by vm_compute|]; split; [by vm_compute|];
       eexists; split; [by vm_compute|]; split; by vm_compute).
Qed.

(** X21. A missing year 2100 is skipped: when the PM2.5 file of 2100 with
    fire is not there and the rest of the data is complete, the cells 10 to
    19, run in order from a fresh kernel, complete without an exception, the
    five variables of 2100 hold [None], and exactly the seven files of 2050,
    of 2000 and of their change are written, in that order, each with one
    row per country. *)
Theorem pipeline_skips_2100 (np_exp : float → float) (w : World) (la lo : list Q)
    (recs : list ShapeRecord) (names : list string) :
  data_without_2100 w la lo →
  natural_earth w = Some recs → NAME <$> recs = Some <$> names →
  ∃ s', run_all (pipeline np_exp w) initial_state = (inr tt, s') ∧
        files_written s' = take 7 all_result_files ∧
        Forall (λ fs, fst <$> snd fs = names) (written s') ∧
        Forall (λ x, env s' !! x = Some PyNone)
          ["baseline_pm25_2100"; "nofire_pm25_2100"; "baseline_mortality_2100";
           "nofire_mortality_2100"; "difference_mortality_2100"].
Proof.
  intros (Hla & Hlo & Hu & Fb21 & Hpm & Hrp) Hshape Hnames.
  unfold pm25_files_2050_2000 in Hpm. unfold rate_and_population_files in Hrp.
  apply Forall_cons_1 in Hpm as [(b50 & Fb50 & Gb50) Hpm].
  apply Forall_cons_1 in Hpm as [(n50 & Fn50 & Gn50) Hpm].
  apply Forall_cons_1 in Hpm as [(b00 & Fb00 & Gb00) Hpm].
  apply Forall_cons_1 in Hpm as [(n00 & Fn00 & Gn00) _].
  apply Forall_cons_1 in Hrp
    as [(rate & Frate & Rrate & Lrate & lo_r & Xrate & Srate & Urate) Hrp].
  apply Forall_cons_1 in Hrp
    as [(p00 & Fp00 & Rp00 & Lp00 & lo_p00 & Xp00 & Sp00 & Up00) Hrp].
  apply Forall_cons_1 in Hrp
    as [(p50 & Fp50 & Rp50 & Lp50 & lo_p50 & Xp50 & Sp50 & Up50) Hrp].
  apply Forall_cons_1 in Hrp
    as [(p21 & Fp21 & Rp21 & Lp21 & lo_p21 & Xp21 & Sp21 & Up21) _].
  cbn [fst snd] in *.
  destruct (pipeline_run_without_2100 np_exp w la lo lo_r lo_p00 lo_p50 lo_p21 recs names
              b50 n50 b00 n00 rate p00 p50 p21) as (s' & Hrun & M);
    try assumption; try (by split); try (by repeat split).
  destruct M as (M50b & M50n & D50 & M00b & M00n & D00 & _ & _ & Hnone & Hw).
  exists s'. split; [exact Hrun|]. unfold files_written. rewrite Hw. split; [reflexivity|].
  split; [|exact Hnone].
  cbn [zip zip_with all_result_files fmap list_fmap].
  repeat (apply Forall_cons_2;
          [cbn [snd];
           repeat first [ by apply names_of_country_sums
                        | apply names_of_series_change ]|]).
  apply Forall_nil_2.
Qed.

Lemma pipeline_skips_2100_witness :
  ∃ s', run_all (pipeline exp_series world_without_2100) initial_state = (inr tt, s') ∧
        files_written s' = take 7 all_result_files ∧
        Forall (λ fs, fst <$> snd fs = ["West"; "Middle"]) (written s') ∧
        Forall (λ x, env s' !! x = Some PyNone)
          ["baseline_pm25_2100"; "nofire_pm25_2100"; "baseline_mortality_2100";
           "nofire_mortality_2100"; "difference_mortality_2100"].
Proof.
  apply (pipeline_skips_2100 exp_series world_without_2100 [0; 1]%Q [0; 270]%Q two_countries);
    [exact world_without_2100_data | reflexivity | reflexivity].
Defined.
